(** * Wikitext-to-statement extraction engine: a shallow embedding

    This development embeds the transformation core of the repository
    ([src/transform/value_parsing.py], [src/transform/build_kg.py] and
    [src/transform/build_kg_chunked.py]) and proves properties of it.

    Conventions of the embedding.

    - A Python [str] is a list of 8-bit characters ([list ascii]); a
      non-ASCII character stands for the bytes of its UTF-8 encoding.
      [urllib.parse.quote] works on exactly those bytes.  White space
      ([str.strip], the class [\s]) and case ([str.lower], the flag
      [re.IGNORECASE]) are the ASCII ones of Python's [str] type.
    - Regular expressions are kept as syntax trees and run by a
      backtracking matcher with the priorities of Python's [re] module
      (leftmost match, ordered alternation, greedy and lazy repetition).
      The matcher is shown sound and complete for a relational
      description of matching.
    - The RDF graph is a set of triples, kept as a duplicate-free list.
    - Code that mutates the graph and may raise runs in a small state and
      exception monad.
    - What the three files take from elsewhere is a parameter: the
      constants of [configs.settings], [urllib.parse.urlsplit], the
      template parser of mwparserfromhell, the page cache on disk,
      [os.makedirs] and the serializer of rdflib are Section
      variables; the last two may raise.  [urlsplit_ref] is a reference model of
      [urlsplit], used where a concrete URL is split. *)

From Stdlib Require Import String Ascii Bool Arith NArith ZArith Lia List.
Import ListNotations.

Set Implicit Arguments.

(* ================================================================== *)
(** * Python strings *)
(* ================================================================== *)

Definition str := list ascii.

Definition py (s : string) : str := list_ascii_of_string s.

Definition str_eq_dec : forall a b : str, {a = b} + {a <> b} :=
  list_eq_dec ascii_dec.

Definition str_eqb (a b : str) : bool :=
  if str_eq_dec a b then true else false.

Definition ord (c : ascii) : N := N_of_ascii c.

Definition between (lo hi : N) (c : ascii) : bool :=
  ((lo <=? ord c) && (ord c <=? hi))%N.

(** [str.isspace] on one character: TAB..CR, FS..US and the space. *)
Definition is_space (c : ascii) : bool :=
  between 9 13 c || between 28 32 c.

Definition is_upper (c : ascii) : bool := between 65 90 c.
Definition is_lower (c : ascii) : bool := between 97 122 c.
Definition is_digit (c : ascii) : bool := between 48 57 c.
Definition is_alpha (c : ascii) : bool := is_upper c || is_lower c.

Definition lower_char (c : ascii) : ascii :=
  if is_upper c then ascii_of_N (ord c + 32) else c.

Definition upper_char (c : ascii) : ascii :=
  if is_lower c then ascii_of_N (ord c - 32) else c.

(** [s.lower()] *)
Definition lower (s : str) : str := map lower_char s.

Fixpoint drop_while (p : ascii -> bool) (s : str) : str :=
  match s with
  | [] => []
  | c :: t => if p c then drop_while p t else s
  end.

(** [s.lstrip()], [s.rstrip()], [s.strip()] *)
Definition lstrip (s : str) : str := drop_while is_space s.
Definition rstrip (s : str) : str := rev (drop_while is_space (rev s)).
Definition strip (s : str) : str := rstrip (lstrip s).

(** [s.rstrip("/")] *)
Definition rstrip_char (ch : ascii) (s : str) : str :=
  rev (drop_while (Ascii.eqb ch) (rev s)).

(** [s.startswith(p)] *)
Fixpoint startswith (s p : str) : bool :=
  match p, s with
  | [], _ => true
  | _ :: _, [] => false
  | a :: p', b :: s' => Ascii.eqb a b && startswith s' p'
  end.

(** [s.startswith(tuple)] *)
Definition startswith_any (s : str) (ps : list str) : bool :=
  existsb (startswith s) ps.

(** [p in s] for strings *)
Fixpoint contains (s p : str) : bool :=
  startswith s p ||
  match s with
  | [] => false
  | _ :: t => contains t p
  end.

(** [s.replace(a, b)] for one-character [a] and [b] *)
Definition replace_char (a b : ascii) (s : str) : str :=
  map (fun c => if Ascii.eqb c a then b else c) s.

(** Truth value of a string, and of a list: non-empty. *)
Definition truthy (s : str) : bool :=
  match s with [] => false | _ => true end.

Definition truthy_list {A} (l : list A) : bool :=
  match l with [] => false | _ => true end.

(* ================================================================== *)
(** * Regular expressions (the part of Python's [re] the code uses) *)
(* ================================================================== *)

Inductive cls_item :=
| CChar (c : ascii)            (* a single character        *)
| CRange (lo hi : ascii)       (* lo-hi                     *)
| CSpace.                      (* \s                        *)

Inductive re :=
| Eps                                     (* empty pattern          *)
| Lit (c : ascii)                         (* one literal character  *)
| Dot                                     (* .                      *)
| Cls (negated : bool) (items : list cls_item)   (* [...] , [^...]  *)
| Cat (a b : re)                          (* ab                     *)
| Alt (a b : re)                          (* a|b                    *)
| Star (greedy : bool) (a : re)           (* a*  and  a*?           *)
| Grp (a : re)                            (* ( a ), group 1         *)
| Bol                                     (* ^                      *)
| Eol.                                    (* $                      *)

Record flags := { ignorecase : bool; dotall : bool }.

Definition no_flags := {| ignorecase := false; dotall := false |}.
Definition IGNORECASE := {| ignorecase := true; dotall := false |}.
Definition IGNORECASE_DOTALL := {| ignorecase := true; dotall := true |}.

(** Derived forms. *)
Definition Plus (a : re) : re := Cat a (Star true a).          (* a+    *)
Definition Opt (a : re) : re := Alt a Eps.                     (* a?    *)
Definition AtLeast2 (a : re) : re := Cat a (Plus a).           (* a{2,} *)
Definition WS : re := Cls false [CSpace].                      (* \s    *)

Fixpoint Seq (rs : list re) : re :=
  match rs with
  | [] => Eps
  | [r] => r
  | r :: rs' => Cat r (Seq rs')
  end.

Definition Str (s : string) : re := Seq (map Lit (py s)).

Definition nl : ascii := ascii_of_N 10.

Definition item_has (c : ascii) (i : cls_item) : bool :=
  match i with
  | CChar x => Ascii.eqb x c
  | CRange lo hi => between (ord lo) (ord hi) c
  | CSpace => is_space c
  end.

Definition lit_match (fl : flags) (x c : ascii) : bool :=
  if ignorecase fl then Ascii.eqb (lower_char x) (lower_char c)
  else Ascii.eqb x c.

Definition cls_match (fl : flags) (neg : bool) (items : list cls_item)
  (c : ascii) : bool :=
  let hit :=
    existsb (item_has c) items ||
    (ignorecase fl &&
       (existsb (item_has (lower_char c)) items ||
        existsb (item_has (upper_char c)) items)) in
  xorb neg hit.

Definition dot_match (fl : flags) (c : ascii) : bool :=
  dotall fl || negb (Ascii.eqb c nl).

(** The matcher, in continuation-passing style.  [m r s cap k] tries
    [r] at the head of [s]; each way of matching hands the rest of the
    subject and the text of group 1 to [k], in Python's order of
    preference, and the first way that [k] accepts wins.  [n0] is the
    length of the whole subject (for [^]). *)
Section Matcher.
Variable fl : flags.
Variable n0 : nat.
Variable A : Type.

Definition one (p : ascii -> bool) (s : str) (cap : option str)
  (k : str -> option str -> option A) : option A :=
  match s with
  | c :: s' => if p c then k s' cap else None
  | [] => None
  end.

(** The repetition [a*] (or [a*?]) at the head of [s], [ma] being the
    matcher of [a].  An iteration has to consume a character, so [n],
    which starts as the length of the subject, bounds the iterations
    that are left. *)
Fixpoint star_loop (ma : str -> option str ->
                         (str -> option str -> option A) -> option A)
  (greedy : bool) (k : str -> option str -> option A)
  (n : nat) (s : str) (cap : option str) {struct n} : option A :=
  match n with
  | O => k s cap
  | S n' =>
      let again (_ : unit) :=
        ma s cap
          (fun s1 cap1 =>
             if length s1 <? length s
             then star_loop ma greedy k n' s1 cap1
             else None) in
      if greedy then
        match again tt with
        | Some x => Some x
        | None => k s cap
        end
      else
        match k s cap with
        | Some x => Some x
        | None => again tt
        end
  end.

Fixpoint m (r : re) (s : str) (cap : option str)
  (k : str -> option str -> option A) {struct r} : option A :=
  match r with
  | Eps => k s cap
  | Lit x => one (lit_match fl x) s cap k
  | Dot => one (dot_match fl) s cap k
  | Cls neg items => one (cls_match fl neg items) s cap k
  | Cat a b => m a s cap (fun s1 cap1 => m b s1 cap1 k)
  | Alt a b =>
      match m a s cap k with
      | Some x => Some x
      | None => m b s cap k
      end
  | Star greedy a => star_loop (m a) greedy k (length s) s cap
  | Grp a =>
      m a s cap
        (fun s1 _ => k s1 (Some (firstn (length s - length s1) s)))
  | Bol => if length s =? n0 then k s cap else None
  | Eol =>
      match s with
      | [] => k s cap
      | [c] => if Ascii.eqb c nl then k s cap else None
      | _ => None
      end
  end.
End Matcher.

(** One match attempt at the head of [s]: the rest of the subject after
    the match and the text of group 1. *)
Definition match_at (fl : flags) (r : re) (n0 : nat) (s : str)
  : option (str * option str) :=
  m fl n0 r s None (fun s' cap => Some (s', cap)).

(** Left-to-right scan for non-overlapping matches ([finditer]); [skip]
    counts the characters still covered by the previous match.  Every
    pattern of this program needs at least one character, so the rule
    for empty matches is never exercised. *)
Fixpoint scan (fl : flags) (r : re) (n0 : nat) (s : str) (skip : nat)
  : list (str * option str) :=
  match s with
  | [] => []
  | _ :: t =>
      match skip with
      | S j => scan fl r n0 t j
      | O =>
          match match_at fl r n0 s with
          | Some (s', cap) =>
              let len := length s - length s' in
              (firstn len s, cap) :: scan fl r n0 t (len - 1)
          | None => scan fl r n0 t 0
          end
      end
  end.

Definition finditer (fl : flags) (r : re) (s : str)
  : list (str * option str) :=
  scan fl r (length s) s 0.

(** [pattern.findall(s)] for a pattern without groups. *)
Definition findall (fl : flags) (r : re) (s : str) : list str :=
  map fst (finditer fl r s).

(** [re.sub(pattern, repl, s)] *)
Fixpoint sub_from (fl : flags) (r : re) (repl : str) (n0 : nat)
  (s : str) (skip : nat) : str :=
  match s with
  | [] => []
  | c :: t =>
      match skip with
      | S j => sub_from fl r repl n0 t j
      | O =>
          match match_at fl r n0 s with
          | Some (s', _) =>
              let len := length s - length s' in
              if len =? 0 then repl ++ c :: sub_from fl r repl n0 t 0
              else repl ++ sub_from fl r repl n0 t (len - 1)
          | None => c :: sub_from fl r repl n0 t 0
          end
      end
  end.

Definition re_sub (fl : flags) (r : re) (repl : str) (s : str) : str :=
  sub_from fl r repl (length s) s 0.

(** [re.split(pattern, s)] for a pattern without groups; [cur] is the
    current piece, reversed. *)
Fixpoint split_from (fl : flags) (r : re) (n0 : nat) (s : str)
  (skip : nat) (cur : str) : list str :=
  match s with
  | [] => [rev cur]
  | c :: t =>
      match skip with
      | S j => split_from fl r n0 t j cur
      | O =>
          match match_at fl r n0 s with
          | Some (s', _) =>
              let len := length s - length s' in
              if len =? 0 then split_from fl r n0 t 0 (c :: cur)
              else rev cur :: split_from fl r n0 t (len - 1) []
          | None => split_from fl r n0 t 0 (c :: cur)
          end
      end
  end.

Definition re_split (fl : flags) (r : re) (s : str) : list str :=
  split_from fl r (length s) s 0 [].

(** [re.match(pattern, s)] as a truth value. *)
Definition re_match (fl : flags) (r : re) (s : str) : bool :=
  match match_at fl r (length s) s with
  | Some _ => true
  | None => false
  end.

(* ================================================================== *)
(** * value_parsing.py *)
(* ================================================================== *)

(** [WIKI_LINK_RE = \[\[([^\]|#]+)(?:\|[^\]]+)?\]\]] *)
Definition WIKI_LINK_RE : re :=
  Seq [ Lit "["; Lit "[";
        Grp (Plus (Cls true [CChar "]"; CChar "|"; CChar "#"]));
        Opt (Cat (Lit "|") (Plus (Cls true [CChar "]"])));
        Lit "]"; Lit "]" ].

(** [<ref[^>]*>.*?</ref>] *)
Definition REF_BLOCK_RE : re :=
  Seq [ Str "<ref"; Star true (Cls true [CChar ">"]); Lit ">";
        Star false Dot; Str "</ref>" ].

(** [<ref[^/]*/\s*>] *)
Definition REF_SELF_RE : re :=
  Seq [ Str "<ref"; Star true (Cls true [CChar "/"]); Lit "/";
        Star true WS; Lit ">" ].

(** [<br\s*/?>] *)
Definition BR_RE : re :=
  Seq [ Str "<br"; Star true WS; Opt (Lit "/"); Lit ">" ].

(** [</?[^>]+>] *)
Definition TAG_RE : re :=
  Seq [ Lit "<"; Opt (Lit "/"); Plus (Cls true [CChar ">"]); Lit ">" ].

(** [[ \t\r\f\v]+] *)
Definition HSPACE_RE : re :=
  Plus (Cls false [CChar " "; CChar (ascii_of_N 9); CChar (ascii_of_N 13);
                   CChar (ascii_of_N 12); CChar (ascii_of_N 11)]).

(** [\n\s*\n+] *)
Definition BLANK_LINES_RE : re :=
  Seq [ Lit nl; Star true WS; Plus (Lit nl) ].

Definition strip_markup (text : str) : str :=
  let t := strip text in
  (* remove ref tags *)
  let t := re_sub IGNORECASE_DOTALL REF_BLOCK_RE [] t in
  let t := re_sub IGNORECASE REF_SELF_RE [] t in
  (* remove HTML tags but keep content *)
  let t := re_sub IGNORECASE BR_RE [nl] t in
  let t := re_sub no_flags TAG_RE [] t in
  (* collapse whitespace *)
  let t := re_sub no_flags HSPACE_RE (py " ") t in
  let t := strip (re_sub no_flags BLANK_LINES_RE [nl] t) in
  t.

(** [[\n;]+|(?:\s*,\s* )]  (written here with a blank before the closing
    parenthesis) *)
Definition LIST_SEP_RE : re :=
  Alt (Plus (Cls false [CChar nl; CChar ";"]))
      (Seq [ Star true WS; Lit ","; Star true WS ]).

Definition split_listish (text : str) : list str :=
  let t := strip_markup text in
  let parts := re_split no_flags LIST_SEP_RE t in
  map strip (filter (fun p => truthy (strip p)) parts).

Definition group1 (mt : str * option str) : str :=
  match snd mt with
  | Some g => g
  | None => []
  end.

Definition extract_wikilinks (text : str) : list str :=
  map (fun mt => strip (group1 mt)) (finditer no_flags WIKI_LINK_RE text).

(** [\(\s*\ )]: an opening parenthesis, white space, a closing one *)
Definition EMPTY_PARENS_RE : re :=
  Seq [ Lit "("; Star true WS; Lit ")" ].

Definition parse_value (text : str) : list str * list str :=
  let linked := extract_wikilinks text in
  let cleaned := strip_markup text in
  let cleaned := re_sub no_flags WIKI_LINK_RE [] cleaned in
  let cleaned := strip (re_sub no_flags EMPTY_PARENS_RE [] cleaned) in
  let literal_parts := if truthy cleaned then split_listish cleaned else [] in
  (linked, literal_parts).

(* ================================================================== *)
(** * Library functions of urllib.parse *)
(* ================================================================== *)

Definition hex_digit (n : N) : ascii :=
  if (n <? 10)%N then ascii_of_N (48 + n) else ascii_of_N (55 + n).

(** ['%{:02X}'.format(b)] *)
Definition pct (c : ascii) : str :=
  [ "%"%char; hex_digit (ord c / 16); hex_digit (ord c mod 16) ].

Definition mem_char (c : ascii) (s : str) : bool :=
  existsb (Ascii.eqb c) s.

(** The characters [quote] never escapes: letters, digits and [_.-~]. *)
Definition always_safe (c : ascii) : bool :=
  is_alpha c || is_digit c || mem_char c (py "_.-~").

Definition quote_char (safe : str) (c : ascii) : str :=
  if always_safe c || (mem_char c safe && (ord c <? 128)%N)
  then [c] else pct c.

(** [quote(s, safe=...)] *)
Definition quote (s : str) (safe : str) : str :=
  flat_map (quote_char safe) s.

Record SplitResult := {
  scheme : str; netloc : str; path : str; query : str; fragment : str }.

Definition uses_netloc : list str :=
  map py [ ""; "ftp"; "http"; "gopher"; "nntp"; "telnet"; "imap"; "wais";
           "file"; "mms"; "https"; "shttp"; "snews"; "prospero"; "rtsp";
           "rtsps"; "rtspu"; "rsync"; "svn"; "svn+ssh"; "sftp"; "nfs";
           "git"; "git+ssh"; "ws"; "wss"; "itms-services" ]%string.

Definition str_in (s : str) (l : list str) : bool := existsb (str_eqb s) l.

(** [urlunsplit((scheme, netloc, url, query, fragment))] *)
Definition urlunsplit (p : SplitResult) : str :=
  let url := path p in
  let url :=
    if truthy (netloc p) ||
       (truthy (scheme p) && str_in (scheme p) uses_netloc &&
        negb (str_eqb (firstn 2 url) (py "//")))
    then
      let url :=
        if truthy url && negb (str_eqb (firstn 1 url) (py "/"))
        then py "/" ++ url else url in
      py "//" ++ netloc p ++ url
    else url in
  let url := if truthy (scheme p) then scheme p ++ py ":" ++ url else url in
  let url := if truthy (query p) then url ++ py "?" ++ query p else url in
  let url :=
    if truthy (fragment p) then url ++ py "#" ++ fragment p else url in
  url.

(* ================================================================== *)
(** * Exceptions, the graph and the monad of graph-building code *)
(* ================================================================== *)

Inductive exn :=
| KeyError (key : str)
| ValueError (msg : str)
| FileNotFoundError (title : str)
| ZeroDivisionError.

Inductive Res (A : Type) :=
| Return (a : A)
| Raise (e : exn).
Arguments Return {A} a.
Arguments Raise {A} e.

(** [try: body  except Exception: handler] *)
Definition try_except {A} (body : Res A) (handler : exn -> Res A) : Res A :=
  match body with
  | Return a => Return a
  | Raise e => handler e
  end.

(** A reference model of [urllib.parse.urlsplit] (CPython 3.11 and
    later), used where a concrete URL has to be split.  Validation of a
    bracketed host and of a non-ASCII authority, which can only raise
    [ValueError] for more inputs, is left out. *)
Fixpoint find_char (c : ascii) (s : str) : option nat :=
  match s with
  | [] => None
  | x :: t =>
      if Ascii.eqb x c then Some 0
      else match find_char c t with Some i => Some (S i) | None => None end
  end.

Definition scheme_char (c : ascii) : bool :=
  is_alpha c || is_digit c || mem_char c (py "+-.").

(** [_splitnetloc(url, 2)]: the authority runs up to the first of
    [/], [?] and [#]. *)
Definition splitnetloc (url : str) : str * str :=
  let body := skipn 2 url in
  let stop c := mem_char c (py "/?#") in
  let fix span (s : str) : str * str :=
    match s with
    | [] => ([], [])
    | c :: t => if stop c then ([], s)
                else let '(a, b) := span t in (c :: a, b)
    end in
  span body.

(** [url.split(c, 1)] when [c] occurs in [url]. *)
Definition split_once (c : ascii) (url : str) : option (str * str) :=
  match find_char c url with
  | Some i => Some (firstn i url, skipn (S i) url)
  | None => None
  end.

Definition urlsplit_ref (url : str) : Res SplitResult :=
  let url := drop_while (fun c => (ord c <=? 32)%N) url in
  let url :=
    filter (fun c => negb (mem_char c [ascii_of_N 9; ascii_of_N 13; nl])) url in
  let '(scheme, url) :=
    match find_char ":" url, url with
    | Some (S i), c0 :: _ =>
        if is_alpha c0 && forallb scheme_char (firstn (S i) url)
        then (lower (firstn (S i) url), skipn (S (S i)) url)
        else ([], url)
    | _, _ => ([], url)
    end in
  let split_rest (netloc url : str) :=
    let '(url, fragment) :=
      match split_once "#" url with Some uf => uf | None => (url, []) end in
    let '(url, query) :=
      match split_once "?" url with Some uq => uq | None => (url, []) end in
    Return {| scheme := scheme; netloc := netloc; path := url;
              query := query; fragment := fragment |} in
  if str_eqb (firstn 2 url) (py "//") then
    let '(netloc, url) := splitnetloc url in
    if (mem_char "[" netloc && negb (mem_char "]" netloc)) ||
       (mem_char "]" netloc && negb (mem_char "[" netloc))
    then Raise (ValueError (py "Invalid IPv6 URL"))
    else split_rest netloc url
  else split_rest [] url.

(** rdflib terms and triples. *)
Inductive term :=
| URIRef (iri : str)
| Literal (lexical : str) (lang : option str).

Definition triple := (term * term * term)%type.

Definition term_eq_dec : forall a b : term, {a = b} + {a <> b}.
Proof.
  decide equality; try apply str_eq_dec.
  decide equality; apply str_eq_dec.
Defined.

Definition triple_eq_dec : forall a b : triple, {a = b} + {a <> b}.
Proof. repeat decide equality; apply str_eq_dec. Defined.

(** An rdflib [Graph]: a set of triples. *)
Definition Graph := list triple.

Definition empty_graph : Graph := [].

Definition g_add (t : triple) (g : Graph) : Graph :=
  if in_dec triple_eq_dec t g then g else g ++ [t].

(** Computations that update the graph in place and may raise: the
    graph as it stands survives an exception. *)
Definition M (A : Type) := Graph -> Res A * Graph.

Definition ret {A} (a : A) : M A := fun g => (Return a, g).

Definition bind {A B} (c : M A) (k : A -> M B) : M B :=
  fun g =>
    match c g with
    | (Return a, g1) => k a g1
    | (Raise e, g1) => (Raise e, g1)
    end.

Definition raise {A} (e : exn) : M A := fun g => (Raise e, g).

Definition lift {A} (r : Res A) : M A := fun g => (r, g).

(** [g.add(t)] *)
Definition add (t : triple) : M unit := fun g => (Return tt, g_add t g).

Notation "x <- c ;; k" := (bind c (fun x => k))
  (at level 61, c at next level, right associativity).
Notation "c ;;; k" := (bind c (fun _ => k))
  (at level 61, right associativity).

(** [for x in l: body(x)] *)
Fixpoint for_ {A} (l : list A) (body : A -> M unit) : M unit :=
  match l with
  | [] => ret tt
  | x :: l' => body x ;;; for_ l' body
  end.

(** [if c: body] *)
Definition when (c : bool) (body : M unit) : M unit :=
  if c then body else ret tt.

(* ================================================================== *)
(** * build_kg.py *)
(* ================================================================== *)

(** What a parsed template invocation offers: [str(t.name)] and, for
    each parameter, [str(param.name)] and [str(param.value)]. *)
Record Template := { t_name : str; t_params : list (str * str) }.

(** The mapping configuration as [json.load] returns it. *)
Record Rule := { rule_property : option str; rule_kind : option str }.

Record Spec := {
  spec_class : option str;
  spec_tg_class : option str;
  spec_fields : option (list (str * Rule)) }.

Definition Mappings := list (str * Spec).

Fixpoint dict_get {V} (d : list (str * V)) (k : str) : option V :=
  match d with
  | [] => None
  | (k', v) :: d' => if str_eqb k' k then Some v else dict_get d' k
  end.

Definition dict_has {V} (d : list (str * V)) (k : str) : bool :=
  match dict_get d k with Some _ => true | None => false end.

(** [d[k] = v] *)
Fixpoint dict_set {V} (d : list (str * V)) (k : str) (v : V)
  : list (str * V) :=
  match d with
  | [] => [(k, v)]
  | (k', v') :: d' =>
      if str_eqb k' k then (k', v) :: d' else (k', v') :: dict_set d' k v
  end.

(** The cached page payload, [parse_json["parse"]]. *)
Inductive Wikitext :=
| WtStr (s : str)                  (* "wikitext": "..."          *)
| WtDict (text : option str).      (* "wikitext": {"text": ...}  *)

Inductive LinkEntry :=
| LinkDict (title : option str)    (* {"title": ...}             *)
| LinkOther.                       (* not a dict                 *)

Inductive ExtEntry :=
| ExtStr (u : str)
| ExtOther.                        (* not a str                  *)

Record PageJson := {
  pj_wikitext : Wikitext;
  pj_links : list LinkEntry;
  pj_externallinks : list ExtEntry }.

(** Truth value of an [Optional[str]], and the string it holds. *)
Definition opt_truthy (o : option str) : bool :=
  match o with Some s => truthy s | None => false end.

Definition opt_str (o : option str) : str :=
  match o with Some s => s | None => [] end.

Definition SCHEMA (name : string) : term :=
  URIRef (py "http://schema.org/" ++ py name).
Definition RDF_type : term :=
  URIRef (py "http://www.w3.org/1999/02/22-rdf-syntax-ns#type").
Definition RDFS_label : term :=
  URIRef (py "http://www.w3.org/2000/01/rdf-schema#label").
Definition OWL_sameAs : term :=
  URIRef (py "http://www.w3.org/2002/07/owl#sameAs").

Definition BAD_LINK_PREFIXES : list str :=
  map py [ "category:"; "file:"; "template:"; "help:"; "special:";
           "talk:" ]%string.

(** [URL_RE = https?://[^\s\]]+] *)
Definition URL_RE : re :=
  Seq [ Str "http"; Opt (Lit "s"); Str "://";
        Plus (Cls true [CSpace; CChar "]"]) ].

(** [^[a-zA-Z0-9.-]+\.[a-zA-Z]{2,}(/.* )?$] *)
Definition BARE_DOMAIN_RE : re :=
  Seq [ Bol;
        Plus (Cls false [CRange "a" "z"; CRange "A" "Z"; CRange "0" "9";
                         CChar "."; CChar "-"]);
        Lit ".";
        AtLeast2 (Cls false [CRange "a" "z"; CRange "A" "Z"]);
        Opt (Grp (Cat (Lit "/") (Star true Dot)));
        Eol ].

Definition normalize_template_name (name : str) : str :=
  replace_char "_" " " (lower (strip name)).

(** [load_infobox_mappings], from the items of the loaded object:
    [{normalize_template_name(k): v for k, v in data.items()}] *)
Definition load_infobox_mappings (data : list (str * Spec)) : Mappings :=
  fold_left
    (fun d kv => dict_set d (normalize_template_name (fst kv)) (snd kv))
    data [].

Definition TITLE_SAFE : str :=
  py "ABCDEFGHIJKLMNOPQRSTUVWXYZabcdefghijklmnopqrstuvwxyz0123456789_.~-".

Definition uri_escape_title (title : str) : str :=
  let t := replace_char " " "_" (strip title) in
  quote t TITLE_SAFE.

Definition extract_urls (raw : str) : list str :=
  if negb (truthy (strip raw)) then []
  else findall no_flags URL_RE raw.

Definition extract_wikitext (parse_json : PageJson) : str :=
  match pj_wikitext parse_json with
  | WtDict (Some text) => text
  | WtDict None => []
  | WtStr wt => wt
  end.

Definition extract_links (parse_json : PageJson) : list str :=
  flat_map
    (fun l =>
       match l with
       | LinkDict (Some title) =>
           if truthy title &&
              negb (startswith_any (lower title) BAD_LINK_PREFIXES)
           then [title] else []
       | _ => []
       end)
    (pj_links parse_json).

Definition extract_externallinks (parse_json : PageJson) : list str :=
  flat_map (fun x => match x with ExtStr u => [u] | ExtOther => [] end)
    (pj_externallinks parse_json).

Section BuildKG.

(** [configs.settings] *)
Variable KG_BASE : str.
Variable TG_WIKI_BASE : str.

(** [urllib.parse.urlsplit]; it raises [ValueError] on some inputs. *)
Variable urlsplit : str -> Res SplitResult.

(** [mwparserfromhell.parse(wikitext).filter_templates(recursive=True)] *)
Variable filter_templates : str -> list Template.

(** The page cache on disk: the JSON stored for a title, when the
    file [cached_path_for_title(title)] exists. *)
Variable cache : str -> option PageJson.

Definition RES : str := rstrip_char "/" KG_BASE ++ py "/resource/".
Definition PAGE : str := rstrip_char "/" KG_BASE ++ py "/page/".

Definition resource_uri (title : str) : term :=
  URIRef (RES ++ uri_escape_title title).

Definition page_uri (title : str) : term :=
  URIRef (PAGE ++ uri_escape_title title).

Definition wiki_url (title : str) : term :=
  URIRef (TG_WIKI_BASE ++ uri_escape_title title).

Definition safe_iri (url : str) : Res (option str) :=
  let url := strip url in
  if negb (truthy url) then Return None
  else
    try_except
      (match urlsplit url with
       | Raise e => Raise e
       | Return parts =>
           if negb (truthy (scheme parts)) || negb (truthy (netloc parts))
           then Return None
           else
             let path' := quote (path parts) (py "/:_()'-.,~%") in
             let query' := quote (query parts) (py "=&?/:_()'-.,~%") in
             let fragment' := quote (fragment parts) (py ":_()'-.,~%") in
             Return (Some (urlunsplit
                       {| scheme := scheme parts; netloc := netloc parts;
                          path := path'; query := query';
                          fragment := fragment' |}))
       end)
      (fun _ => Return None).

Definition normalize_url (u : str) : Res (option str) :=
  let u := strip (strip_markup u) in
  if negb (truthy u) then Return None
  else if startswith u (py "http://") || startswith u (py "https://")
  then safe_iri u
  else if re_match no_flags BARE_DOMAIN_RE u
  then safe_iri (py "https://" ++ u)
  else Return None.

Definition parse_cached_json (title : str) : Res PageJson :=
  match cache title with
  | None => Raise (FileNotFoundError title)
  | Some j => Return j
  end.

Definition find_mapped_templates (wikitext : str) (mappings : Mappings)
  : list Template :=
  filter (fun t => dict_has mappings (normalize_template_name (t_name t)))
    (filter_templates wikitext).

Definition image_filename_to_filepage_url (filename : str) : option str :=
  let f := strip (strip_markup filename) in
  if negb (truthy f) then None
  else
    let f := if startswith (lower f) (py "file:") then skipn 5 f else f in
    Some (TG_WIKI_BASE ++ py "File:" ++ uri_escape_title f).

Definition add_core_triples (title : str) : M (term * term) :=
  let p := page_uri title in
  let r := resource_uri title in
  add (p, SCHEMA "about", r) ;;;
  let wurl := wiki_url title in
  add (p, SCHEMA "url", wurl) ;;;
  add (r, SCHEMA "url", wurl) ;;;
  add (r, RDFS_label, Literal title (Some (py "en"))) ;;;
  add (p, RDFS_label, Literal title (Some (py "en"))) ;;;
  ret (p, r).

(** [rule["property"]] *)
Definition rule_property_item (rule : Rule) : M str :=
  match rule_property rule with
  | Some p => ret p
  | None => raise (KeyError (py "property"))
  end.

(** [rule.get("kind", "auto")] *)
Definition rule_kind_get (rule : Rule) : str :=
  match rule_kind rule with
  | Some k => k
  | None => py "auto"
  end.

Definition is_kind (kind : str) (name : string) : bool :=
  str_eqb kind (py name).

(** The body of the loop [for param in tmpl.params] of
    [apply_infobox]; a [continue] ends the body. *)
Definition apply_infobox_param (r : term) (fields : list (str * Rule))
  (param : str * str) : M unit :=
  let key := lower (strip (fst param)) in
  match dict_get fields key with
  | None => ret tt
  | Some rule =>
      let raw := strip (snd param) in
      if negb (truthy raw) then ret tt
      else
        p <- rule_property_item rule ;;
        let prop := URIRef p in
        let kind := rule_kind_get rule in
        if str_eqb p (py "http://schema.org/url") then
          let urls := extract_urls raw in
          match urls with
          | _ :: _ =>
              for_ urls (fun u =>
                nu <- lift (normalize_url u) ;;
                when (opt_truthy nu) (add (r, prop, URIRef (opt_str nu))))
          | [] =>
              nu <- lift (normalize_url raw) ;;
              when (opt_truthy nu) (add (r, prop, URIRef (opt_str nu)))
          end
        else if is_kind kind "image" then
          let url := image_filename_to_filepage_url raw in
          when (opt_truthy url) (add (r, prop, URIRef (opt_str url)))
        else
          let '(linked_titles, literal_parts) := parse_value raw in
          if is_kind kind "literal" then
            add (r, prop, Literal (strip_markup raw) None)
          else if is_kind kind "wikilink_or_literal" || is_kind kind "auto"
          then
            for_ linked_titles (fun t =>
              when (truthy t &&
                    negb (startswith_any (lower t) BAD_LINK_PREFIXES))
                (add (r, prop, resource_uri t))) ;;;
            for_ literal_parts (fun lit =>
              when (truthy lit) (add (r, prop, Literal lit None))) ;;;
            when (negb (truthy_list linked_titles) &&
                  negb (truthy_list literal_parts))
              (add (r, prop, Literal (strip_markup raw) None))
          else
            add (r, prop, Literal (strip_markup raw) None)
  end.

Definition spec_truthy (sp : Spec) : bool :=
  match spec_class sp, spec_tg_class sp, spec_fields sp with
  | None, None, None => false
  | _, _, _ => true
  end.

Definition apply_infobox (r : term) (tmpl : Template)
  (mappings : Mappings) : M unit :=
  let name := normalize_template_name (t_name tmpl) in
  match dict_get mappings name with
  | None => ret tt
  | Some spec =>
      if negb (spec_truthy spec) then ret tt
      else
        (match spec_class spec with
         | Some schema_cls =>
             when (truthy schema_cls) (add (r, RDF_type, URIRef schema_cls))
         | None => ret tt
         end) ;;;
        (match spec_tg_class spec with
         | Some tg_cls =>
             when (truthy tg_cls) (add (r, RDF_type, URIRef tg_cls))
         | None => ret tt
         end) ;;;
        let fields :=
          match spec_fields spec with Some f => f | None => [] end in
        for_ (t_params tmpl) (apply_infobox_param r fields)
  end.

(** The body of the loop over [externals] in [build_graph_for_title]. *)
Definition add_external (p r : term) (u : str) : M unit :=
  let low := lower u in
  safe <- lift (safe_iri u) ;;
  if contains low (py "wikipedia.org/wiki/") && opt_truthy safe then
    add (r, OWL_sameAs, URIRef (opt_str safe))
  else if opt_truthy safe then
    add (p, SCHEMA "url", URIRef (opt_str safe))
  else
    add (p, SCHEMA "url", Literal u None).

Definition build_graph_body (title : str) (mappings : Mappings)
  (include_infobox : bool) (parse_json : PageJson) : M unit :=
  let wikitext := extract_wikitext parse_json in
  let links := extract_links parse_json in
  let externals := extract_externallinks parse_json in
  pr <- add_core_triples title ;;
  let '(p, r) := pr in
  for_ links (fun lt => add (r, SCHEMA "relatedTo", resource_uri lt)) ;;;
  for_ externals (add_external p r) ;;;
  when include_infobox
    (for_ (find_mapped_templates wikitext mappings)
       (fun tmpl => apply_infobox r tmpl mappings)).

(** The graph is local to the call: it is returned on success and
    lost when an exception leaves the function.  ([add_prefixes] only
    binds abbreviations for serialization; it adds no triple.) *)
Definition build_graph_for_title (title : str) (mappings : Mappings)
  (include_infobox : bool) : Res Graph :=
  match parse_cached_json title with
  | Raise e => Raise e
  | Return parse_json =>
      match build_graph_body title mappings include_infobox parse_json
              empty_graph with
      | (Return _, g) => Return g
      | (Raise e, _) => Raise e
      end
  end.

End BuildKG.

(* ================================================================== *)
(** * build_kg_chunked.py *)
(* ================================================================== *)

(** [os.path.join(a, b)] on POSIX *)
Definition os_path_join (a b : str) : str :=
  if startswith b (py "/") then b
  else if negb (truthy a) || startswith (rev a) (py "/") then a ++ b
  else a ++ py "/" ++ b.

Definition digit_char (n : nat) : ascii := ascii_of_nat (48 + n).

Fixpoint decimal_fuel (fuel n : nat) (acc : str) : str :=
  match fuel with
  | O => acc
  | S f =>
      let acc' := digit_char (n mod 10) :: acc in
      if n / 10 =? 0 then acc' else decimal_fuel f (n / 10) acc'
  end.

(** [f"{n:04d}"] *)
Definition fmt_04d (n : nat) : str :=
  let d := decimal_fuel (S n) n [] in
  repeat "0"%char (4 - length d) ++ d.

(** What the driver prints. *)
Inductive Event :=
| Wrote (out_path : str) (triples : nat)
| Processed (pages : nat)
| Warn (title : str) (e : exn)
| Done (pages files : nat).

(** The mutable variables of [build_kg_chunked], the files that were
    serialized and what was printed. *)
Record Driver := {
  chunk : Graph;
  processed : nat;
  part : nat;
  produced : list str;
  written : list (str * Graph);
  stdout : list Event }.

Section Chunked.

Variable KG_BASE : str.
Variable TG_WIKI_BASE : str.
Variable TTL_OUT_DIR : str.
Variable urlsplit : str -> Res SplitResult.
Variable filter_templates : str -> list Template.
Variable cache : str -> option PageJson.

(** [os.makedirs(TTL_OUT_DIR, exist_ok=True)] and
    [chunk.serialize(destination=out_path, format="turtle")] are
    library calls that can raise. *)
Variable makedirs : Res unit.
Variable serialize : str -> Graph -> Res unit.

(** The arguments; [chunk_size] and [max_pages] are Python integers of
    either sign. *)
Variable out_prefix : str.
Variable mappings : Mappings.
Variable include_infobox : bool.
Variable chunk_size : Z.
Variable max_pages : option Z.

(** The assignments of [flush] that follow a successful
    [chunk.serialize]. *)
Definition write_part (out_path : str) (d : Driver) : Driver :=
  {| chunk := empty_graph;
     processed := processed d;
     part := part d + 1;
     produced := produced d ++ [out_path];
     written := written d ++ [(out_path, chunk d)];
     stdout := stdout d ++ [Wrote out_path (length (chunk d))] |}.

(** [flush()]: when [chunk.serialize] raises, no variable has been
    assigned yet. *)
Definition flush (d : Driver) : Res unit * Driver :=
  if length (chunk d) =? 0 then (Return tt, d)
  else
    let out_name := out_prefix ++ py "_part" ++ fmt_04d (part d) ++ py ".ttl" in
    let out_path := os_path_join TTL_OUT_DIR out_name in
    match serialize out_path (chunk d) with
    | Raise e => (Raise e, d)
    | Return _ => (Return tt, write_part out_path d)
    end.

Definition warn (title : str) (e : exn) (d : Driver) : Driver :=
  {| chunk := chunk d; processed := processed d; part := part d;
     produced := produced d; written := written d;
     stdout := stdout d ++ [Warn title e] |}.

(** The first statements of the [try] block once the graph [g] of the
    page is there: merge it, count the page, report every 50th. *)
Definition merge_page (g : Graph) (d : Driver) : Driver :=
  let chunk1 := fold_left (fun c t => g_add t c) g (chunk d) in
  let processed1 := processed d + 1 in
  let out1 :=
    if processed1 mod 50 =? 0 then stdout d ++ [Processed processed1]
    else stdout d in
  {| chunk := chunk1; processed := processed1;
     part := part d; produced := produced d;
     written := written d; stdout := out1 |}.

(** The [try] block of the loop for one title, with its handler. *)
Definition process_title (title : str) (d : Driver) : Driver :=
  match build_graph_for_title KG_BASE TG_WIKI_BASE urlsplit
          filter_templates cache title mappings include_infobox with
  | Raise e => warn title e d
  | Return g =>
      let d1 := merge_page g d in
      if (chunk_size =? 0)%Z then warn title ZeroDivisionError d1
      else if (Z.of_nat (processed d1) mod chunk_size =? 0)%Z then
        match flush d1 with
        | (Return _, d2) => d2
        | (Raise e, d2) => warn title e d2
        end
      else d1
  end.

Fixpoint run_titles (titles : list str) (d : Driver) : Driver :=
  match titles with
  | [] => d
  | title :: rest =>
      match max_pages with
      | Some mx =>
          if (mx <=? Z.of_nat (processed d))%Z then d
          else run_titles rest (process_title title d)
      | None => run_titles rest (process_title title d)
      end
  end.

Definition initial_driver : Driver :=
  {| chunk := empty_graph; processed := 0; part := 1; produced := [];
     written := []; stdout := [] |}.

(** [print(f"Done. ...")] *)
Definition report_done (d : Driver) : Driver :=
  {| chunk := chunk d; processed := processed d; part := part d;
     produced := produced d; written := written d;
     stdout := stdout d ++ [Done (processed d) (length (produced d))] |}.

(** The outcome of the call, the list returned or the exception that
    leaves the function, and the final state.  The last [flush] is
    outside the [try] block. *)
Definition build_kg_chunked (titles : list str)
  : Res (list str) * Driver :=
  match makedirs with
  | Raise e => (Raise e, initial_driver)
  | Return _ =>
      let d := run_titles titles initial_driver in
      match flush d with
      | (Raise e, d') => (Raise e, d')
      | (Return _, d') => (Return (produced d'), report_done d')
      end
  end.

End Chunked.


(* ================================================================== *)
(** * Definitions used to state the properties *)
(* ================================================================== *)

Unset Implicit Arguments.

(** The first line of [uri_escape_title]: the normalized title. *)
Definition normalized_title (title : str) : str :=
  replace_char " " "_" (strip title).

Definition hex_value (c : ascii) : N :=
  if is_digit c then ord c - 48 else ord c - 55.

(** Standard percent-decoding. *)
Fixpoint unquote (s : str) : str :=
  match s with
  | [] => []
  | c :: t =>
      if Ascii.eqb c "%" then
        match t with
        | h :: l :: t' =>
            ascii_of_N (16 * hex_value h + hex_value l) :: unquote t'
        | _ => c :: unquote t
        end
      else c :: unquote t
  end.

(** [g.add] of each triple of a list, in order. *)
Definition add_all (l : list triple) (g : Graph) : Graph :=
  fold_left (fun acc t => g_add t acc) l g.

(** A title the field mapper turns into a cross-reference: not empty
    and outside the non-content namespaces. *)
Definition content_title (t : str) : bool :=
  truthy t && negb (startswith_any (lower t) BAD_LINK_PREFIXES).

Definition WEB_ADDRESS : str := py "http://schema.org/url".

(** A computation that returns after adding the triples [l], whatever
    the graph it starts from. *)
Definition adds (c : M unit) (l : list triple) : Prop :=
  forall g, c g = (Return tt, add_all l g).

(** Computations that never remove a triple and whose outcome (the
    value returned or the exception raised) does not depend on the
    graph they start from. *)
Definition steady {A} (c : M A) : Prop :=
  (forall g x, In x g -> In x (snd (c g))) /\
  (forall g g', fst (c g) = fst (c g')).

(** The matches of a pattern, as a relation: [Matches fl n0 r s c s' c']
    holds when [r] matches a prefix of [s] and leaves [s'], with group 1
    going from [c] to [c'].  An iteration of a repetition consumes at
    least one character. *)
Inductive Matches (fl : flags) (n0 : nat)
  : re -> str -> option str -> str -> option str -> Prop :=
| M_Eps s c : Matches fl n0 Eps s c s c
| M_Lit x ch s c :
    lit_match fl x ch = true -> Matches fl n0 (Lit x) (ch :: s) c s c
| M_Dot ch s c :
    dot_match fl ch = true -> Matches fl n0 Dot (ch :: s) c s c
| M_Cls neg items ch s c :
    cls_match fl neg items ch = true ->
    Matches fl n0 (Cls neg items) (ch :: s) c s c
| M_Cat a b s c s1 c1 s2 c2 :
    Matches fl n0 a s c s1 c1 -> Matches fl n0 b s1 c1 s2 c2 ->
    Matches fl n0 (Cat a b) s c s2 c2
| M_AltL a b s c s1 c1 :
    Matches fl n0 a s c s1 c1 -> Matches fl n0 (Alt a b) s c s1 c1
| M_AltR a b s c s1 c1 :
    Matches fl n0 b s c s1 c1 -> Matches fl n0 (Alt a b) s c s1 c1
| M_Star0 g a s c : Matches fl n0 (Star g a) s c s c
| M_StarS g a s c s1 c1 s2 c2 :
    length s1 < length s ->
    Matches fl n0 a s c s1 c1 -> Matches fl n0 (Star g a) s1 c1 s2 c2 ->
    Matches fl n0 (Star g a) s c s2 c2
| M_Grp a s c s1 c1 :
    Matches fl n0 a s c s1 c1 ->
    Matches fl n0 (Grp a) s c s1 (Some (firstn (length s - length s1) s))
| M_Bol s c : length s = n0 -> Matches fl n0 Bol s c s c
| M_Eol s c : s = [] \/ s = [nl] -> Matches fl n0 Eol s c s c.

(** Can the pattern match the empty string; can a match start with [c]. *)
Fixpoint nullable (r : re) : bool :=
  match r with
  | Eps | Bol | Eol => true
  | Lit _ | Dot | Cls _ _ => false
  | Cat a b => nullable a && nullable b
  | Alt a b => nullable a || nullable b
  | Star _ _ => true
  | Grp a => nullable a
  end.

Fixpoint first (fl : flags) (r : re) (c : ascii) : bool :=
  match r with
  | Eps | Bol | Eol => false
  | Lit x => lit_match fl x c
  | Dot => dot_match fl c
  | Cls neg items => cls_match fl neg items c
  | Cat a b => first fl a c || (nullable a && first fl b c)
  | Alt a b => first fl a c || first fl b c
  | Star _ a => first fl a c
  | Grp a => first fl a c
  end.


Definition title_char (c : ascii) : bool :=
  cls_match no_flags true [CChar "]"; CChar "|"; CChar "#"] c.

Definition label_char (c : ascii) : bool :=
  cls_match no_flags true [CChar "]"] c.




Definition HSPACE_ITEMS : list cls_item :=
  [CChar " "; CChar (ascii_of_N 9); CChar (ascii_of_N 13);
   CChar (ascii_of_N 12); CChar (ascii_of_N 11)].

(** A computation that returns, whatever the graph it starts from. *)
Definition returns {A} (c : M A) : Prop :=
  forall g, exists a g', c g = (Return a, g').

(** Every field rule of the configuration names its target property. *)
Definition rules_have_property (mappings : Mappings) : Prop :=
  forall name spec fields key rule,
    dict_get mappings name = Some spec ->
    spec_fields spec = Some fields ->
    dict_get fields key = Some rule ->
    rule_property rule <> None.

(** The statements the components emit, as lists. *)
Section Statements.
Variable KG_BASE : str.
Variable TG_WIKI_BASE : str.
Variable urlsplit : str -> Res SplitResult.

(** Step 1 of the assembler. *)
Definition core_statements (title : str) : list triple :=
  let p := page_uri KG_BASE title in
  let r := resource_uri KG_BASE title in
  let wurl := wiki_url TG_WIKI_BASE title in
  [ (p, SCHEMA "about", r);
    (p, SCHEMA "url", wurl);
    (r, SCHEMA "url", wurl);
    (r, RDFS_label, Literal title (Some (py "en")));
    (p, RDFS_label, Literal title (Some (py "en"))) ].

(** The statement of one external link, in the words of the
    specification. *)
Definition external_statement (p r : term) (u : str) : triple :=
  match safe_iri urlsplit u with
  | Return (Some escaped) =>
      if contains (lower u) (py "wikipedia.org/wiki/")
      then (r, OWL_sameAs, URIRef escaped)
      else (p, SCHEMA "url", URIRef escaped)
  | _ => (p, SCHEMA "url", Literal u None)
  end.

Definition related_statement (r : term) (lt : str) : triple :=
  (r, SCHEMA "relatedTo", resource_uri KG_BASE lt).

(** What steps 1 to 3 of the assembler add for a page. *)
Definition page_statements (title : str) (parse_json : PageJson)
  : list triple :=
  let p := page_uri KG_BASE title in
  let r := resource_uri KG_BASE title in
  core_statements title ++
  map (related_statement r) (extract_links parse_json) ++
  map (external_statement p r) (extract_externallinks parse_json).

(** What a field of kind wikilink_or_literal or auto emits. *)
Definition link_statements (r : term) (p raw : str) : list triple :=
  let linked := fst (parse_value raw) in
  let lits := snd (parse_value raw) in
  map (fun t => (r, URIRef p, resource_uri KG_BASE t))
      (filter content_title linked) ++
  map (fun lit => (r, URIRef p, Literal lit None)) lits ++
  (if negb (truthy_list linked) && negb (truthy_list lits)
   then [(r, URIRef p, Literal (strip_markup raw) None)] else []).

(** What a field with the web-address predicate emits. *)
Definition web_statements (r : term) (raw : str) : list triple :=
  let norm u :=
    match normalize_url urlsplit u with
    | Return (Some iri) => [(r, URIRef WEB_ADDRESS, URIRef iri)]
    | _ => []
    end in
  match extract_urls raw with
  | [] => norm raw
  | urls => flat_map norm urls
  end.

End Statements.

(** A small configuration for the examples. *)
Definition KG0 : str := py "http://kg.example".
Definition WIKI0 : str := py "http://wiki.example/wiki/".
Definition elrond : term := resource_uri KG0 (py "Elrond").
Definition race_rule : Rule :=
  {| rule_property := Some (py "http://kg.example/prop/race");
     rule_kind := Some (py "auto") |}.
Definition web_rule : Rule :=
  {| rule_property := Some WEB_ADDRESS; rule_kind := None |}.
Definition fields0 : list (str * Rule) :=
  [(py "race", race_rule); (py "website", web_rule)].

(** A configuration whose rule for [race] has no target property, and
    a page with one invocation of the mapped template. *)
Definition broken_mappings : Mappings :=
  [(py "infobox character",
    {| spec_class := Some (py "http://schema.org/Person");
       spec_tg_class := None;
       spec_fields :=
         Some [(py "race",
                {| rule_property := None; rule_kind := Some (py "auto") |})]
    |})].

Definition character_box : Template :=
  {| t_name := py "Infobox character";
     t_params := [(py "race", py "[[Elves]]")] |}.

Definition elrond_page : PageJson :=
  {| pj_wikitext := WtStr (py "{{Infobox character|race=[[Elves]]}}");
     pj_links := [LinkDict (Some (py "Rivendell"))];
     pj_externallinks := [ExtStr (py "https://en.wikipedia.org/wiki/Elrond");
                          ExtStr (py "not a link")] |}.

(** A page without links. *)
Definition bare_page : PageJson :=
  {| pj_wikitext := WtStr (py "Elrond was Lord of Rivendell.");
     pj_links := []; pj_externallinks := [] |}.

Definition bare_cache (title : str) : option PageJson := Some bare_page.

(** The template parser on these pages: it finds the one invocation of
    the first page and nothing in the second. *)
Definition templates_of (wikitext : str) : list Template :=
  if contains wikitext (py "{{Infobox character") then [character_box]
  else [].
Definition elrond_cache (title : str) : option PageJson := Some elrond_page.

(** A serializer that writes every graph, and one that, like rdflib's,
    refuses a graph with an IRI that holds a brace. *)
Definition serializer_ok (out_path : str) (g : Graph) : Res unit :=
  Return tt.

Definition term_has_brace (t : term) : bool :=
  match t with
  | URIRef iri => mem_char "{" iri || mem_char "}" iri
  | Literal _ _ => false
  end.

Definition serializer_strict (out_path : str) (g : Graph) : Res unit :=
  if existsb (fun t : triple =>
                term_has_brace (fst (fst t)) || term_has_brace (snd (fst t))
                || term_has_brace (snd t)) g
  then Raise (ValueError (py "does not look like a valid URI"))
  else Return tt.

(** The horizontal white space that [strip_markup] collapses. *)
Definition hspace (c : ascii) : bool := cls_match no_flags false HSPACE_ITEMS c.

(** No two adjacent characters of [s] both satisfy [p]. *)
Fixpoint no_pair (p : ascii -> bool) (s : str) : bool :=
  match s with
  | a :: (b :: _) as t => negb (p a && p b) && no_pair p t
  | _ => true
  end.

(** [s] does not start with a character satisfying [p]. *)
Definition head_free (p : ascii -> bool) (s : str) : bool :=
  match s with
  | c :: _ => negb (p c)
  | [] => true
  end.


(** The characters [safe_iri] leaves after the authority. *)
Definition iri_char (c : ascii) : bool :=
  always_safe c || mem_char c (py "%/:_()'-.,~=&?#").

(** Computations that only add triples satisfying [P]. *)
Definition confined {A} (P : triple -> Prop) (c : M A) : Prop :=
  forall g, (forall x, In x g -> P x) -> forall x, In x (snd (c g)) -> P x.

(** A parameter the field mapper cannot map: its key has a rule, its
    value is not blank, and the rule names no property. *)
Definition unmappable (fields : list (str * Rule)) (param : str * str)
  : Prop :=
  exists rule,
    dict_get fields (lower (strip (fst param))) = Some rule /\
    truthy (strip (snd param)) = true /\
    rule_property rule = None.

Definition broken (mappings : Mappings) (tmpl : Template) : Prop :=
  exists spec fields param,
    dict_get mappings (normalize_template_name (t_name tmpl)) = Some spec /\
    spec_fields spec = Some fields /\
    In param (t_params tmpl) /\
    unmappable fields param.

(** The value of a string of decimal digits. *)
Definition decimal_value (s : str) : nat :=
  fold_left (fun v c => 10 * v + (nat_of_ascii c - 48)) s 0.

(** The page graphs that are built, and what is printed as a warning. *)
Definition warnings (out : list Event) : list (str * exn) :=
  flat_map (fun ev => match ev with
                      | Warn title e => [(title, e)]
                      | _ => []
                      end) out.

(** A triple is stored: it is in the chunk or in a written file. *)
Definition in_files (d : Driver) (t : triple) : Prop :=
  exists pf, In pf (written d) /\ In t (snd pf).

Definition stored (d : Driver) (t : triple) : Prop :=
  In t (chunk d) \/ in_files d t.

(** Example configuration *)
Definition character_spec : Spec :=
  {| spec_class := Some (py "http://schema.org/Person");
     spec_tg_class := Some (py "http://kg.example/vocab/Character");
     spec_fields := Some fields0 |}.

Definition character_mappings : Mappings :=
  [(py "infobox character", character_spec)].

(** The configuration file, with two spellings of one template name. *)
Definition mapping_file : list (str * Spec) :=
  [(py "Infobox_Character",
    {| spec_class := None; spec_tg_class := None; spec_fields := None |});
   (py " infobox character ", character_spec)].

(** A cache that holds one page only. *)
Definition partial_cache (title : str) : option PageJson :=
  if str_eqb title (py "Elrond") then Some elrond_page else None.

(** A page whose web-address field holds a template: the URL found in
    it ends in two braces, which no escaping removes from the
    authority. *)
Definition url_box : Template :=
  {| t_name := py "Infobox character";
     t_params := [(py "website", py "{{URL|http://example.com}}")] |}.

Definition url_page : PageJson :=
  {| pj_wikitext :=
       WtStr (py "{{Infobox character|website={{URL|http://example.com}}}}");
     pj_links := []; pj_externallinks := [] |}.

Definition url_templates (wikitext : str) : list Template :=
  if contains wikitext (py "website=")
  then [url_box;
        {| t_name := py "URL";
           t_params := [(py "1", py "http://example.com")] |}]
  else [].

Definition url_cache (title : str) : option PageJson :=
  if str_eqb title (py "Bad") then Some url_page else Some bare_page.

(* ================================================================== *)
(** * The embedding on sample inputs *)
(* ================================================================== *)

Example classify_single_link :
  parse_value (py "[[Gondor]]") = ([py "Gondor"], []).
Proof. vm_compute. reflexivity. Qed.

Example classify_comma_list :
  parse_value (py "Elf, Human") = ([], [py "Elf"; py "Human"]).
Proof. vm_compute. reflexivity. Qed.

Example classify_mixed_separators :
  parse_value (py "a; b, c") = ([], [py "a"; py "b"; py "c"]).
Proof. vm_compute. reflexivity. Qed.

Example classify_markup :
  parse_value
    (py "[[Elrond|Lord Elrond]]<ref name=x>LotR</ref> (  )<br/>of [[Rivendell]]")
  = ([py "Elrond"; py "Rivendell"], [py "of"]).
Proof. vm_compute. reflexivity. Qed.

Example image_field :
  apply_infobox_param KG0 WIKI0 urlsplit_ref elrond
    [(py "image",
      {| rule_property := Some (py "http://schema.org/image");
         rule_kind := Some (py "image") |})]
    (py "image", py "Elrond.jpg") empty_graph =
  (Return tt,
   [(elrond, URIRef (py "http://schema.org/image"),
     URIRef (py "http://wiki.example/wiki/File:Elrond.jpg"))]).
Proof. vm_compute. reflexivity. Qed.

Example escape_title :
  uri_escape_title (py " Thorin II Oakenshield (film) ") =
  py "Thorin_II_Oakenshield_%28film%29".
Proof. vm_compute. reflexivity. Qed.

Example safe_iri_escapes_path_only :
  safe_iri urlsplit_ref (py "HTTP://Example.com:80/a b?q=x y#top") =
  Return (Some (py "http://Example.com:80/a%20b?q=x%20y#top")).
Proof. vm_compute. reflexivity. Qed.

Example normalize_bare_domain :
  normalize_url urlsplit_ref (py "www.example.com/path") =
  Return (Some (py "https://www.example.com/path")).
Proof. vm_compute. reflexivity. Qed.

Example part_file_name : fmt_04d 7 = py "0007".
Proof. reflexivity. Qed.

(* ================================================================== *)
(** * Facts about strings *)
(* ================================================================== *)

Lemma str_eqb_eq (a b : str) : str_eqb a b = true <-> a = b.
Proof.
  unfold str_eqb. destruct (str_eq_dec a b); split; congruence.
Qed.

Lemma str_eqb_neq (a b : str) : str_eqb a b = false <-> a <> b.
Proof.
  unfold str_eqb. destruct (str_eq_dec a b); split; congruence.
Qed.

Lemma drop_while_none (p : ascii -> bool) (s : str) :
  match s with [] => True | c :: _ => p c = false end ->
  drop_while p s = s.
Proof.
  destruct s as [|c t]; simpl; intros H; [reflexivity|now rewrite H].
Qed.

Lemma drop_while_head (p : ascii -> bool) (s : str) :
  match drop_while p s with [] => True | c :: _ => p c = false end.
Proof.
  induction s as [|c t IH]; simpl; [exact I|].
  destruct (p c) eqn:E; [exact IH|exact E].
Qed.

Lemma drop_while_suffix (p : ascii -> bool) (s : str) :
  exists pre, s = pre ++ drop_while p s.
Proof.
  induction s as [|c t [pre IH]]; simpl.
  - now exists [].
  - destruct (p c).
    + exists (c :: pre). simpl. now f_equal.
    + now exists [].
Qed.

(** The last character of a stripped string is not white space. *)
Lemma rstrip_last (s : str) :
  match rev (rstrip s) with [] => True | c :: _ => is_space c = false end.
Proof.
  unfold rstrip. rewrite rev_involutive. apply drop_while_head.
Qed.

Lemma rstrip_prefix (s : str) : exists suf, s = rstrip s ++ suf.
Proof.
  unfold rstrip.
  destruct (drop_while_suffix is_space (rev s)) as [pre E].
  exists (rev pre).
  rewrite <- rev_app_distr, <- E. now rewrite rev_involutive.
Qed.

Lemma strip_head (s : str) :
  match strip s with [] => True | c :: _ => is_space c = false end.
Proof.
  unfold strip.
  pose proof (drop_while_head is_space s) as H. fold (lstrip s) in H.
  destruct (rstrip_prefix (lstrip s)) as [suf E].
  destruct (rstrip (lstrip s)) as [|c t]; [exact I|].
  rewrite E in H. exact H.
Qed.

Lemma strip_fixed (s : str) :
  match s with [] => True | c :: _ => is_space c = false end ->
  match rev s with [] => True | c :: _ => is_space c = false end ->
  strip s = s.
Proof.
  intros H1 H2. unfold strip, lstrip. rewrite (drop_while_none _ _ H1).
  unfold rstrip. rewrite (drop_while_none _ _ H2). apply rev_involutive.
Qed.

Lemma strip_idem (s : str) : strip (strip s) = strip s.
Proof.
  apply strip_fixed; [apply strip_head|apply rstrip_last].
Qed.

Lemma strip_all_plain (P : ascii -> bool) (s : str) :
  (forall c, P c = true -> is_space c = false) ->
  forallb P s = true -> strip s = s.
Proof.
  intros HP H. apply strip_fixed.
  - destruct s as [|c t]; [exact I|]. simpl in H.
    apply andb_true_iff in H. now apply HP.
  - assert (Hr : forallb P (rev s) = true).
    { rewrite forallb_forall in *. intros x Hx. apply H.
      now apply in_rev. }
    destruct (rev s) as [|c t]; [exact I|]. simpl in Hr.
    apply andb_true_iff in Hr. now apply HP.
Qed.

Lemma strip_sub (s : str) : exists pre suf, s = pre ++ strip s ++ suf.
Proof.
  unfold strip.
  destruct (drop_while_suffix is_space s) as [pre E].
  destruct (rstrip_prefix (lstrip s)) as [suf E'].
  exists pre, suf. unfold lstrip in *. rewrite <- E'. exact E.
Qed.

Lemma strip_In (s : str) (c : ascii) : In c (strip s) -> In c s.
Proof.
  destruct (strip_sub s) as (pre & suf & E). intros H.
  rewrite E. apply in_or_app. right. apply in_or_app. now left.
Qed.

(* ================================================================== *)
(** * Percent-escaping can be undone *)
(* ================================================================== *)

Lemma hex_roundtrip (c : ascii) :
  ascii_of_N (16 * hex_value (hex_digit (ord c / 16))
              + hex_value (hex_digit (ord c mod 16))) = c.
Proof.
  destruct c as [[] [] [] [] [] [] [] []]; vm_compute; reflexivity.
Qed.

Lemma always_safe_not_pct (c : ascii) :
  always_safe c = true -> Ascii.eqb c "%" = false.
Proof.
  destruct c as [[] [] [] [] [] [] [] []]; vm_compute; congruence.
Qed.

Lemma unquote_pct (c : ascii) (t : str) :
  unquote (pct c ++ t) = c :: unquote t.
Proof.
  change (unquote (pct c ++ t))
    with (ascii_of_N (16 * hex_value (hex_digit (ord c / 16))
                      + hex_value (hex_digit (ord c mod 16))) :: unquote t).
  now rewrite hex_roundtrip.
Qed.

Lemma unquote_quote (safe s : str) :
  mem_char "%" safe = false -> unquote (quote s safe) = s.
Proof.
  intros Hs. induction s as [|c t IH]; [reflexivity|].
  unfold quote in *. simpl. unfold quote_char at 1.
  destruct (always_safe c || (mem_char c safe && (ord c <? 128)%N)) eqn:E.
  - simpl.
    assert (Hc : Ascii.eqb c "%" = false).
    { apply orb_true_iff in E as [E|E].
      - now apply always_safe_not_pct.
      - apply andb_true_iff in E as [E _].
        destruct (Ascii.eqb c "%") eqn:Ec; [|reflexivity].
        apply Ascii.eqb_eq in Ec. subst c. congruence. }
    rewrite Hc. now rewrite IH.
  - rewrite unquote_pct. now rewrite IH.
Qed.

Lemma quote_injective (safe a b : str) :
  mem_char "%" safe = false -> quote a safe = quote b safe -> a = b.
Proof.
  intros Hs E.
  rewrite <- (unquote_quote safe a Hs), <- (unquote_quote safe b Hs).
  now rewrite E.
Qed.

Lemma uri_escape_title_injective (t1 t2 : str) :
  uri_escape_title t1 = uri_escape_title t2 ->
  normalized_title t1 = normalized_title t2.
Proof.
  unfold uri_escape_title. apply quote_injective. reflexivity.
Qed.


Lemma always_safe_plain (c : ascii) :
  always_safe c = true -> is_space c = false /\ Ascii.eqb c " " = false.
Proof.
  destruct c as [[] [] [] [] [] [] [] []]; vm_compute; intuition congruence.
Qed.

Lemma replace_char_absent (a b : ascii) (s : str) :
  forallb (fun c => negb (Ascii.eqb c a)) s = true ->
  replace_char a b s = s.
Proof.
  induction s as [|c t IH]; [reflexivity|]. simpl. intros H.
  apply andb_true_iff in H as [Hc Ht].
  apply negb_true_iff in Hc. rewrite Hc. now rewrite IH.
Qed.

Lemma normalized_title_safe_fixed (s : str) :
  forallb always_safe s = true -> normalized_title s = s.
Proof.
  intros H. unfold normalized_title.
  rewrite (strip_all_plain always_safe).
  - apply replace_char_absent. rewrite forallb_forall in *.
    intros c Hc. apply negb_true_iff. now apply always_safe_plain, H.
  - intros c Hc. now apply always_safe_plain.
  - exact H.
Qed.





(* ================================================================== *)
(** * C4: identifiers *)
(* ================================================================== *)




(* ================================================================== *)
(** * C5: the connective between two links *)
(* ================================================================== *)

(** C5, counterexample.  The classifier keeps the word between the two
    links: the list of literal parts is not empty. *)
Lemma C5_connective_is_kept :
  snd (parse_value (py "[[Half-elven|Half-elf]] and [[Man]]")) <> [].
Proof. vm_compute. discriminate. Qed.

(** C5, as amended.  [classify] of the two links joined by "and"
    returns the two link targets and the single literal part "and". *)
Theorem C5_two_links_and_connective :
  parse_value (py "[[Half-elven|Half-elf]] and [[Man]]") =
  ([py "Half-elven"; py "Man"], [py "and"]).
Proof. vm_compute. reflexivity. Qed.

(* ================================================================== *)
(** * The graph and the monad *)
(* ================================================================== *)

Lemma g_add_In (t : triple) (g : Graph) : In t (g_add t g).
Proof.
  unfold g_add. destruct (in_dec triple_eq_dec t g); [assumption|].
  apply in_or_app. right. now left.
Qed.

Lemma g_add_mono (t x : triple) (g : Graph) : In x g -> In x (g_add t g).
Proof.
  unfold g_add. destruct (in_dec triple_eq_dec t g); [trivial|].
  intros H. apply in_or_app. now left.
Qed.

Lemma g_add_inv (t x : triple) (g : Graph) :
  In x (g_add t g) -> x = t \/ In x g.
Proof.
  unfold g_add. destruct (in_dec triple_eq_dec t g); [now right|].
  intros H. apply in_app_or in H as [H|[H|[]]]; [now right|now left].
Qed.

Lemma add_all_app (l1 l2 : list triple) (g : Graph) :
  add_all (l1 ++ l2) g = add_all l2 (add_all l1 g).
Proof. unfold add_all. apply fold_left_app. Qed.

Lemma add_all_In (l : list triple) (g : Graph) (x : triple) :
  In x (add_all l g) <-> In x g \/ In x l.
Proof.
  revert g. induction l as [|t l IH]; intros g; simpl.
  - tauto.
  - rewrite IH. split.
    + intros [H|H]; [apply g_add_inv in H as [->|H]|]; auto.
    + intros [H|[->|H]]; auto using g_add_mono, g_add_In.
Qed.

Lemma adds_ret : adds (ret tt) [].
Proof. intros g. reflexivity. Qed.

Lemma adds_add (t : triple) : adds (add t) [t].
Proof. intros g. reflexivity. Qed.

Lemma adds_seq (c1 c2 : M unit) (l1 l2 : list triple) :
  adds c1 l1 -> adds c2 l2 -> adds (c1 ;;; c2) (l1 ++ l2).
Proof.
  intros H1 H2 g. unfold bind. rewrite H1, H2. now rewrite add_all_app.
Qed.

Lemma adds_when (b : bool) (c : M unit) (l : list triple) :
  adds c l -> adds (when b c) (if b then l else []).
Proof. intros H. destruct b; [exact H|apply adds_ret]. Qed.

Lemma adds_for {A} (l : list A) (body : A -> M unit)
  (h : A -> list triple) :
  (forall x, In x l -> adds (body x) (h x)) ->
  adds (for_ l body) (flat_map h l).
Proof.
  induction l as [|x l IH]; intros H; simpl.
  - apply adds_ret.
  - apply adds_seq; [apply H; now left|].
    apply IH. intros y Hy. apply H. now right.
Qed.

Lemma adds_lift {A} (a : A) (r : Res A) (k : A -> M unit)
  (l : list triple) :
  r = Return a -> adds (k a) l -> adds (x <- lift r ;; k x) l.
Proof. intros -> H g. unfold bind, lift. apply H. Qed.

Lemma adds_ext (c : M unit) (l1 l2 : list triple) :
  l1 = l2 -> adds c l1 -> adds c l2.
Proof. now intros ->. Qed.

Lemma flat_map_filter_map {A B} (p : A -> bool) (f : A -> B)
  (l : list A) :
  flat_map (fun x => if p x then [f x] else []) l = map f (filter p l).
Proof.
  induction l as [|x l IH]; [reflexivity|]. simpl.
  destruct (p x); simpl; now rewrite IH.
Qed.

(* ================================================================== *)
(** * C6: the classifier and the URL normalizer always return *)
(* ================================================================== *)

Section Normalizer.
Variable urlsplit : str -> Res SplitResult.

Lemma safe_iri_returns (u : str) :
  safe_iri urlsplit u = Return None \/
  exists parts,
    urlsplit (strip u) = Return parts /\
    truthy (scheme parts) = true /\ truthy (netloc parts) = true /\
    safe_iri urlsplit u =
      Return (Some (urlunsplit
        {| scheme := scheme parts; netloc := netloc parts;
           path := quote (path parts) (py "/:_()'-.,~%");
           query := quote (query parts) (py "=&?/:_()'-.,~%");
           fragment := quote (fragment parts) (py ":_()'-.,~%") |})).
Proof.
  unfold safe_iri. destruct (truthy (strip u)); simpl; [|now left].
  destruct (urlsplit (strip u)) as [parts|e]; simpl; [|now left].
  destruct (truthy (scheme parts)) eqn:Es; simpl; [|now left].
  destruct (truthy (netloc parts)) eqn:En; simpl; [|now left].
  right. exists parts. auto.
Qed.

Lemma truthy_app_l (a b : str) : truthy a = true -> truthy (a ++ b) = true.
Proof. destruct a; simpl; congruence. Qed.

Lemma urlunsplit_truthy (p : SplitResult) :
  truthy (scheme p) = true -> truthy (urlunsplit p) = true.
Proof.
  intros H. unfold urlunsplit. rewrite H.
  repeat match goal with
         | |- context [if ?b then _ else _] => destruct b
         end;
  repeat (apply truthy_app_l); exact H.
Qed.

Lemma safe_iri_some_truthy (u iri : str) :
  safe_iri urlsplit u = Return (Some iri) -> truthy iri = true.
Proof.
  destruct (safe_iri_returns u) as [E|(parts & _ & Hs & _ & E)];
    rewrite E; intros H; [discriminate|].
  injection H as <-. now apply urlunsplit_truthy.
Qed.

Lemma safe_iri_total (u : str) : exists o, safe_iri urlsplit u = Return o.
Proof.
  destruct (safe_iri_returns u) as [E|(parts & _ & _ & _ & E)];
    rewrite E; eauto.
Qed.

Lemma normalize_url_total (u : str) :
  exists o, normalize_url urlsplit u = Return o.
Proof.
  unfold normalize_url.
  repeat match goal with
         | |- context [if ?b then _ else _] => destruct b
         end; eauto using safe_iri_total.
Qed.

Lemma normalize_url_some_truthy (u iri : str) :
  normalize_url urlsplit u = Return (Some iri) -> truthy iri = true.
Proof.
  unfold normalize_url.
  repeat match goal with
         | |- context [if ?b then _ else _] => destruct b
         end; try discriminate; apply safe_iri_some_truthy.
Qed.

End Normalizer.

(** C6.  The value classifier returns its pair of lists for every
    string, and the URL normalizer and the escaping function return an
    identifier or null for every string, whatever [urlsplit] does: when
    [urlsplit] raises, the exception is caught and the result is
    null. *)
Theorem C6_classifier_and_normalizer_total :
  (forall text, exists linked literal_parts,
     parse_value text = (linked, literal_parts)) /\
  (forall urlsplit u, exists o, safe_iri urlsplit u = Return o) /\
  (forall urlsplit u, exists o, normalize_url urlsplit u = Return o) /\
  (forall urlsplit u e,
     urlsplit (strip u) = Raise e -> safe_iri urlsplit u = Return None) /\
  safe_iri urlsplit_ref (py "http://[::1/a") = Return None /\
  normalize_url urlsplit_ref (py "http://[::1/a") = Return None.
Proof.
  split; [|split; [|split; [|split; [|split]]]].
  - intros text. destruct (parse_value text) as [l p]. eauto.
  - apply safe_iri_total.
  - apply normalize_url_total.
  - intros urlsplit u e H. unfold safe_iri. rewrite H.
    destruct (truthy (strip u)); reflexivity.
  - vm_compute. reflexivity.
  - vm_compute. reflexivity.
Qed.

Lemma C6_total_witness :
  safe_iri urlsplit_ref (py "http://[::1/a") = Return None.
Proof.
  destruct C6_classifier_and_normalizer_total as (_ & _ & _ & H & _).
  apply (H urlsplit_ref (py "http://[::1/a")
           (ValueError (py "Invalid IPv6 URL"))).
  vm_compute. reflexivity.
Defined.

(* ================================================================== *)
(** * The field mapper: C1, C2 and C9 *)
(* ================================================================== *)

Lemma literal_parts_truthy (text lit : str) :
  In lit (snd (parse_value text)) -> truthy lit = true.
Proof.
  unfold parse_value. cbn [snd].
  match goal with |- context [if ?b then _ else _] => destruct b end;
    [|intros []].
  unfold split_listish. intros H. apply in_map_iff in H as (p & <- & H).
  apply filter_In in H as [_ H]. exact H.
Qed.

Lemma linked_titles_stripped (text t : str) :
  In t (fst (parse_value text)) -> strip t = t.
Proof.
  unfold parse_value. cbn [fst]. unfold extract_wikilinks.
  intros H. apply in_map_iff in H as (mt & <- & _). apply strip_idem.
Qed.

Lemma flat_map_single {A B} (f : A -> B) (l : list A) :
  flat_map (fun x => [f x]) l = map f l.
Proof. induction l as [|x l IH]; simpl; [reflexivity|now rewrite IH]. Qed.

Lemma prefix_char_same (c x y : ascii) :
  Ascii.eqb c "_" = false -> Ascii.eqb c " " = false ->
  (if Ascii.eqb x " " then "_"%char else x) =
  (if Ascii.eqb y " " then "_"%char else y) ->
  Ascii.eqb c (lower_char x) = true -> Ascii.eqb c (lower_char y) = true.
Proof.
  intros Hu Hs E H.
  destruct (Ascii.eqb x " ") eqn:Ex.
  - apply Ascii.eqb_eq in Ex. subst x.
    change (lower_char " ") with " "%char in H. congruence.
  - destruct (Ascii.eqb y " ") eqn:Ey.
    + subst x. change (lower_char "_") with "_"%char in H. congruence.
    + now subst y.
Qed.

Lemma startswith_lower_replace (P a b : str) :
  forallb (fun c => negb (Ascii.eqb c "_") && negb (Ascii.eqb c " ")) P
    = true ->
  replace_char " " "_" a = replace_char " " "_" b ->
  startswith (lower a) P = true -> startswith (lower b) P = true.
Proof.
  revert a b. induction P as [|c P IH]; intros a b HP E H;
    [destruct b; reflexivity|].
  simpl in HP. apply andb_true_iff in HP as [Hc HP].
  apply andb_true_iff in Hc as [Hu Hs].
  apply negb_true_iff in Hu, Hs.
  destruct a as [|x a]; [discriminate|].
  destruct b as [|y b]; [discriminate|].
  simpl in E. injection E as Exy E.
  simpl in H |- *. apply andb_true_iff in H as [H1 H2].
  apply andb_true_iff. split.
  - exact (prefix_char_same c x y Hu Hs Exy H1).
  - now apply (IH a b).
Qed.

Lemma bad_prefix_same_normalized (a b : str) :
  strip a = a -> strip b = b ->
  normalized_title a = normalized_title b ->
  startswith_any (lower a) BAD_LINK_PREFIXES = true ->
  startswith_any (lower b) BAD_LINK_PREFIXES = true.
Proof.
  unfold normalized_title. intros -> -> E H.
  unfold startswith_any in *. apply existsb_exists in H as (P & HP & H).
  apply existsb_exists. exists P. split; [exact HP|].
  apply (startswith_lower_replace P a b); [|exact E|exact H].
  assert (Hall : forallb
            (fun P => forallb
               (fun c => negb (Ascii.eqb c "_") && negb (Ascii.eqb c " ")) P)
            BAD_LINK_PREFIXES = true) by reflexivity.
  rewrite forallb_forall in Hall. now apply Hall.
Qed.

Section WebAddress.
Variable urlsplit : str -> Res SplitResult.

Lemma adds_normalized (r : term) (u : str) :
  adds (nu <- lift (normalize_url urlsplit u) ;;
        when (opt_truthy nu)
          (add (r, URIRef WEB_ADDRESS, URIRef (opt_str nu))))
       (match normalize_url urlsplit u with
        | Return (Some iri) => [(r, URIRef WEB_ADDRESS, URIRef iri)]
        | _ => []
        end).
Proof.
  destruct (normalize_url_total urlsplit u) as [o E].
  pose proof (normalize_url_some_truthy urlsplit u) as Ht.
  rewrite E in *. eapply adds_lift; [reflexivity|].
  destruct o as [iri|]; cbn [opt_truthy opt_str].
  - rewrite (Ht iri eq_refl). apply adds_add.
  - apply adds_ret.
Qed.

Lemma web_statements_iri (r : term) (raw : str) (x : triple) :
  In x (web_statements urlsplit r raw) ->
  exists iri, x = (r, URIRef WEB_ADDRESS, URIRef iri).
Proof.
  unfold web_statements.
  assert (H1 : forall u,
    In x (match normalize_url urlsplit u with
          | Return (Some iri) => [(r, URIRef WEB_ADDRESS, URIRef iri)]
          | _ => []
          end) -> exists iri, x = (r, URIRef WEB_ADDRESS, URIRef iri)).
  { intros u. destruct (normalize_url urlsplit u) as [[iri|]|e];
      simpl; intros H; try tauto.
    destruct H as [<-|[]]. eauto. }
  destruct (extract_urls raw) as [|u urls]; [apply H1|].
  intros H. apply in_flat_map in H as (v & _ & H). exact (H1 v H).
Qed.

End WebAddress.

Section FieldMapper.
Variable KG_BASE : str.
Variable TG_WIKI_BASE : str.
Variable urlsplit : str -> Res SplitResult.

Local Abbreviation apply_param :=
  (apply_infobox_param KG_BASE TG_WIKI_BASE urlsplit).

Lemma apply_param_links (r : term) (fields : list (str * Rule))
  (key value : str) (rule : Rule) (p : str) :
  dict_get fields (lower (strip key)) = Some rule ->
  truthy (strip value) = true ->
  rule_property rule = Some p ->
  p <> WEB_ADDRESS ->
  rule_kind_get rule = py "wikilink_or_literal" \/
  rule_kind_get rule = py "auto" ->
  adds (apply_param r fields (key, value))
       (link_statements KG_BASE r p (strip value)).
Proof.
  intros Hget Hraw Hp Hweb Hkind g.
  unfold apply_infobox_param. cbn [fst snd]. rewrite Hget, Hraw.
  cbn [negb]. unfold rule_property_item. rewrite Hp.
  unfold bind at 1, ret at 1.
  apply str_eqb_neq in Hweb. fold WEB_ADDRESS. rewrite Hweb.
  assert (Hk : is_kind (rule_kind_get rule) "image" = false /\
               is_kind (rule_kind_get rule) "literal" = false /\
               is_kind (rule_kind_get rule) "wikilink_or_literal"
               || is_kind (rule_kind_get rule) "auto" = true).
  { destruct Hkind as [-> | ->]; vm_compute; auto. }
  destruct Hk as (-> & -> & ->).
  unfold link_statements.
  pose proof (literal_parts_truthy (strip value)) as Hlit.
  destruct (parse_value (strip value)) as [linked lits]. cbn [fst snd] in *.
  revert g. change (adds ?c ?l) with (forall g, c g = (Return tt, add_all l g)).
  apply adds_seq; [|apply adds_seq].
  - eapply adds_ext; [apply flat_map_filter_map|].
    apply adds_for. intros t _. apply adds_when, adds_add.
  - eapply adds_ext;
      [|apply (adds_for lits _
                 (fun lit => [(r, URIRef p, Literal lit None)]))].
    + apply (flat_map_single (fun lit => (r, URIRef p, Literal lit None))).
    + intros lit Hin. rewrite (Hlit lit Hin). apply adds_add.
  - apply adds_when, adds_add.
Qed.

(** C1, as amended.  For every non-empty (post-trim) template parameter
    whose lowercased key matches a field rule of kind
    wikilink_or_literal or auto, and whose target predicate is not the
    web-address predicate, the field mapper emits one cross-reference
    statement per linked title that is non-empty and outside the
    non-content namespaces, one plain-text literal per literal part,
    and, when the classifier returns both lists empty, the single
    literal of the stripped raw value.  At least one statement is
    emitted as soon as some linked title passes the filter, or there is
    a literal part, or there is no linked title at all. *)
Theorem C1_link_or_literal_field (r : term) (fields : list (str * Rule))
  (key value : str) (rule : Rule) (p : str) (g : Graph) :
  dict_get fields (lower (strip key)) = Some rule ->
  truthy (strip value) = true ->
  rule_property rule = Some p ->
  p <> WEB_ADDRESS ->
  rule_kind_get rule = py "wikilink_or_literal" \/
  rule_kind_get rule = py "auto" ->
  let raw := strip value in
  let linked := fst (parse_value raw) in
  let literal_parts := snd (parse_value raw) in
  let emitted :=
    map (fun t => (r, URIRef p, resource_uri KG_BASE t))
        (filter content_title linked) ++
    map (fun lit => (r, URIRef p, Literal lit None)) literal_parts ++
    (if negb (truthy_list linked) && negb (truthy_list literal_parts)
     then [(r, URIRef p, Literal (strip_markup raw) None)] else []) in
  apply_param r fields (key, value) g = (Return tt, add_all emitted g) /\
  ((exists t, In t linked /\ content_title t = true) \/
   literal_parts <> [] \/ linked = [] ->
   emitted <> []).
Proof.
  intros Hget Hraw Hp Hweb Hkind raw linked literal_parts emitted. split.
  - apply (apply_param_links r fields key value rule p Hget Hraw Hp Hweb
             Hkind g).
  - subst emitted. intros [(t & Hin & Ht)|[Hl|Hl]] E.
    + apply app_eq_nil in E as [E _].
      assert (Hf : In t (filter content_title linked))
        by (apply filter_In; auto).
      destruct (filter content_title linked); [destruct Hf|discriminate].
    + apply app_eq_nil in E as [_ E]. apply app_eq_nil in E as [E _].
      destruct literal_parts; [congruence|discriminate].
    + apply app_eq_nil in E as [_ E]. apply app_eq_nil in E as [E1 E2].
      rewrite Hl in E2. destruct literal_parts; discriminate.
Qed.

(** C9.  For a field of kind wikilink_or_literal or auto, a linked title
    whose lowercased form starts with a non-content namespace prefix
    is dropped: the statements emitted are the cross-references of the
    other linked titles and the literal parts, the cross-reference of
    the dropped title is not among them (it enters the graph only if it
    was there before), and the whole-value literal fallback is not
    emitted, since the list of linked titles is not empty. *)
Theorem C9_namespace_links_dropped (r : term) (fields : list (str * Rule))
  (key value : str) (rule : Rule) (p : str) (g : Graph) (t : str) :
  dict_get fields (lower (strip key)) = Some rule ->
  truthy (strip value) = true ->
  rule_property rule = Some p ->
  p <> WEB_ADDRESS ->
  rule_kind_get rule = py "wikilink_or_literal" \/
  rule_kind_get rule = py "auto" ->
  In t (fst (parse_value (strip value))) ->
  startswith_any (lower t) BAD_LINK_PREFIXES = true ->
  let raw := strip value in
  let linked := fst (parse_value raw) in
  let literal_parts := snd (parse_value raw) in
  let emitted :=
    map (fun t => (r, URIRef p, resource_uri KG_BASE t))
        (filter content_title linked) ++
    map (fun lit => (r, URIRef p, Literal lit None)) literal_parts in
  apply_param r fields (key, value) g = (Return tt, add_all emitted g) /\
  ~ In (r, URIRef p, resource_uri KG_BASE t) emitted /\
  (In (r, URIRef p, resource_uri KG_BASE t)
      (snd (apply_param r fields (key, value) g)) ->
   In (r, URIRef p, resource_uri KG_BASE t) g).
Proof.
  intros Hget Hraw Hp Hweb Hkind Hin Hbad. cbv zeta.
  pose proof (apply_param_links r fields key value rule p Hget Hraw Hp Hweb
                Hkind g) as Hrun.
  pose proof (linked_titles_stripped (strip value)) as Hstrip.
  unfold link_statements in Hrun.
  destruct (parse_value (strip value)) as [linked lits].
  cbn [fst snd] in *.
  assert (Hl : truthy_list linked = true).
  { destruct linked; [destruct Hin|reflexivity]. }
  rewrite Hl in Hrun. cbn [negb andb] in Hrun. rewrite app_nil_r in Hrun.
  set (emitted :=
         map (fun t => (r, URIRef p, resource_uri KG_BASE t))
           (filter content_title linked) ++
         map (fun lit => (r, URIRef p, Literal lit None)) lits) in *.
  assert (Hno : ~ In (r, URIRef p, resource_uri KG_BASE t) emitted).
  { intros H. apply in_app_or in H as [H|H].
    - apply in_map_iff in H as (t' & E & H).
      apply filter_In in H as [Hin' Hc].
      injection E as E. apply app_inv_head in E.
      apply uri_escape_title_injective in E.
      unfold content_title in Hc. apply andb_true_iff in Hc as [_ Hc].
      apply negb_true_iff in Hc.
      rewrite (bad_prefix_same_normalized t t') in Hc; auto.
      discriminate.
    - apply in_map_iff in H as (lit & E & _). discriminate. }
  split; [exact Hrun|]. split; [exact Hno|].
  rewrite Hrun. cbn [snd]. intros H. apply add_all_In in H as [H|H];
    [exact H|contradiction].
Qed.

Lemma apply_param_web (r : term) (fields : list (str * Rule))
  (key value : str) (rule : Rule) :
  dict_get fields (lower (strip key)) = Some rule ->
  truthy (strip value) = true ->
  rule_property rule = Some WEB_ADDRESS ->
  adds (apply_param r fields (key, value))
       (web_statements urlsplit r (strip value)).
Proof.
  intros Hget Hraw Hp g.
  unfold apply_infobox_param. cbn [fst snd]. rewrite Hget, Hraw.
  cbn [negb]. unfold rule_property_item. rewrite Hp.
  unfold bind at 1, ret at 1. fold WEB_ADDRESS.
  assert (Hw : str_eqb WEB_ADDRESS WEB_ADDRESS = true)
    by now apply str_eqb_eq.
  rewrite Hw. unfold web_statements. revert g.
  change (adds ?c ?l) with (forall g, c g = (Return tt, add_all l g)).
  destruct (extract_urls (strip value)) as [|u urls].
  - apply adds_normalized.
  - apply (adds_for (u :: urls)). intros x _. apply adds_normalized.
Qed.

End FieldMapper.

(** C2, as amended.  For a field rule whose target predicate is
    [http://schema.org/url] the mapper scans the raw value for embedded
    [http(s)://] substrings, which end at the first white space or
    closing bracket, and emits one IRI statement per successfully
    normalized URL (the whole value is normalized when none is found);
    every statement it adds has an IRI object, never a literal.  The
    raw value "see http://example.com/a b and more" yields exactly one
    statement, with object [http://example.com/a]; the raw value
    "not a url" yields none. *)
Theorem C2_web_address_field :
  (forall KG_BASE TG_WIKI_BASE urlsplit r fields key value rule g,
     dict_get fields (lower (strip key)) = Some rule ->
     truthy (strip value) = true ->
     rule_property rule = Some WEB_ADDRESS ->
     apply_infobox_param KG_BASE TG_WIKI_BASE urlsplit r fields
       (key, value) g =
     (Return tt, add_all (web_statements urlsplit r (strip value)) g) /\
     forall x,
       In x (snd (apply_infobox_param KG_BASE TG_WIKI_BASE urlsplit r
                    fields (key, value) g)) ->
       In x g \/ exists iri, x = (r, URIRef WEB_ADDRESS, URIRef iri)) /\
  (forall KG_BASE TG_WIKI_BASE r kind,
     apply_infobox_param KG_BASE TG_WIKI_BASE urlsplit_ref r
       [(py "website",
         {| rule_property := Some WEB_ADDRESS; rule_kind := kind |})]
       (py "website", py "see http://example.com/a b and more")
       empty_graph =
     (Return tt,
      [(r, URIRef WEB_ADDRESS, URIRef (py "http://example.com/a"))])) /\
  (forall KG_BASE TG_WIKI_BASE urlsplit r kind,
     apply_infobox_param KG_BASE TG_WIKI_BASE urlsplit r
       [(py "website",
         {| rule_property := Some WEB_ADDRESS; rule_kind := kind |})]
       (py "website", py "not a url") empty_graph =
     (Return tt, empty_graph)).
Proof.
  split; [|split].
  - intros KG_BASE TG_WIKI_BASE urlsplit r fields key value rule g
      Hget Hraw Hp.
    pose proof (apply_param_web KG_BASE TG_WIKI_BASE urlsplit r fields key
                  value rule Hget Hraw Hp g) as E.
    split; [exact E|]. rewrite E. cbn [snd]. intros x H.
    apply add_all_In in H as [H|H]; [now left|right].
    now apply (web_statements_iri urlsplit r (strip value)).
  - intros. vm_compute. reflexivity.
  - intros. vm_compute. reflexivity.
Qed.

(** C1, counterexample.  A non-empty field of kind auto whose only link
    is in a non-content namespace yields no statement at all; neither
    does a non-empty field of kind auto whose predicate is the
    web-address predicate and whose value is not a URL. *)
Lemma C1_namespace_only_field_emits_nothing :
  dict_get fields0 (lower (strip (py "Race"))) = Some race_rule /\
  truthy (strip (py "[[Category:Elves]]")) = true /\
  rule_kind_get race_rule = py "auto" /\
  parse_value (strip (py "[[Category:Elves]]")) = ([py "Category:Elves"], []) /\
  apply_infobox_param KG0 WIKI0 urlsplit_ref elrond fields0
    (py "Race", py "[[Category:Elves]]") empty_graph =
  (Return tt, empty_graph) /\
  dict_get fields0 (lower (strip (py "website"))) = Some web_rule /\
  rule_kind_get web_rule = py "auto" /\
  apply_infobox_param KG0 WIKI0 urlsplit_ref elrond fields0
    (py "website", py "not a url") empty_graph =
  (Return tt, empty_graph).
Proof. repeat split; vm_compute; reflexivity. Qed.

Lemma C1_link_or_literal_witness :
  apply_infobox_param KG0 WIKI0 urlsplit_ref elrond fields0
    (py "Race", py "[[Half-elven|Half-elf]], Noldor") empty_graph =
  (Return tt,
   [(elrond, URIRef (py "http://kg.example/prop/race"),
     URIRef (py "http://kg.example/resource/Half-elven"));
    (elrond, URIRef (py "http://kg.example/prop/race"),
     Literal (py "Noldor") None)]).
Proof.
  refine (proj1 (C1_link_or_literal_field KG0 WIKI0 urlsplit_ref elrond
                   fields0 (py "Race") (py "[[Half-elven|Half-elf]], Noldor")
                   race_rule (py "http://kg.example/prop/race") empty_graph
                   _ _ _ _ _)).
  - reflexivity.
  - reflexivity.
  - reflexivity.
  - vm_compute. discriminate.
  - right. reflexivity.
Defined.

Lemma C9_namespace_links_witness :
  apply_infobox_param KG0 WIKI0 urlsplit_ref elrond fields0
    (py "race", py "[[Category:Elves]] [[Noldor]]") empty_graph =
  (Return tt,
   [(elrond, URIRef (py "http://kg.example/prop/race"),
     URIRef (py "http://kg.example/resource/Noldor"))]).
Proof.
  refine (proj1 (C9_namespace_links_dropped KG0 WIKI0 urlsplit_ref elrond
                   fields0 (py "race") (py "[[Category:Elves]] [[Noldor]]")
                   race_rule (py "http://kg.example/prop/race") empty_graph
                   (py "Category:Elves") _ _ _ _ _ _ _)).
  - reflexivity.
  - reflexivity.
  - reflexivity.
  - vm_compute. discriminate.
  - right. reflexivity.
  - vm_compute. left. reflexivity.
  - reflexivity.
Defined.

(** C2, counterexample.  The embedded URL ends at the first blank: the
    object is [http://example.com/a], and the statement with object
    [http://example.com/a%20b] is not emitted. *)
Lemma C2_embedded_url_stops_at_space :
  apply_infobox_param KG0 WIKI0 urlsplit_ref elrond fields0
    (py "website", py "see http://example.com/a b and more") empty_graph =
  (Return tt,
   [(elrond, URIRef WEB_ADDRESS, URIRef (py "http://example.com/a"))]) /\
  ~ In (elrond, URIRef WEB_ADDRESS, URIRef (py "http://example.com/a%20b"))
       (snd (apply_infobox_param KG0 WIKI0 urlsplit_ref elrond fields0
               (py "website", py "see http://example.com/a b and more")
               empty_graph)).
Proof.
  split; [vm_compute; reflexivity|].
  vm_compute. intros [H|[]]. discriminate.
Qed.

Lemma C2_web_address_witness :
  apply_infobox_param KG0 WIKI0 urlsplit_ref elrond fields0
    (py "Website", py "[https://example.org/The Ring official site]")
    empty_graph =
  (Return tt,
   [(elrond, URIRef WEB_ADDRESS, URIRef (py "https://example.org/The"))]).
Proof.
  refine (proj1 (proj1 C2_web_address_field KG0 WIKI0 urlsplit_ref elrond
                   fields0 (py "Website")
                   (py "[https://example.org/The Ring official site]")
                   web_rule empty_graph _ _ _)).
  - reflexivity.
  - reflexivity.
  - reflexivity.
Defined.

(* ================================================================== *)
(** * The page graph assembler: C7, C8 and C3 *)
(* ================================================================== *)

Lemma steady_ret {A} (a : A) : steady (ret a).
Proof. split; intros; simpl; auto. Qed.

Lemma steady_raise {A} (e : exn) : steady (@raise A e).
Proof. split; intros; simpl; auto. Qed.

Lemma steady_lift {A} (r : Res A) : steady (lift r).
Proof. split; intros; simpl; auto. Qed.

Lemma steady_add (t : triple) : steady (add t).
Proof. split; intros; simpl; auto using g_add_mono. Qed.

Lemma steady_bind {A B} (c : M A) (k : A -> M B) :
  steady c -> (forall a, steady (k a)) -> steady (bind c k).
Proof.
  intros [Hc1 Hc2] Hk. split.
  - intros g x Hx. unfold bind. specialize (Hc1 g x Hx).
    destruct (c g) as [[a|e] g1]; simpl in *; [|exact Hc1].
    now apply (proj1 (Hk a)).
  - intros g g'. unfold bind. specialize (Hc2 g g').
    destruct (c g) as [[a|e] g1], (c g') as [[a'|e'] g1'];
      simpl in *; try congruence.
    injection Hc2 as <-. apply (proj2 (Hk a)).
Qed.

Lemma steady_when (b : bool) (c : M unit) : steady c -> steady (when b c).
Proof. destruct b; simpl; auto using steady_ret. Qed.

Lemma steady_for {A} (l : list A) (body : A -> M unit) :
  (forall x, steady (body x)) -> steady (for_ l body).
Proof.
  intros H. induction l as [|x l IH]; simpl.
  - apply steady_ret.
  - apply steady_bind; auto.
Qed.

Lemma returns_ret {A} (a : A) : returns (ret a).
Proof. intros g. now exists a, g. Qed.

Lemma returns_add (t : triple) : returns (add t).
Proof. intros g. now exists tt, (g_add t g). Qed.

Lemma returns_lift {A} (r : Res A) :
  (exists a, r = Return a) -> returns (lift r).
Proof. intros [a ->] g. now exists a, g. Qed.

Lemma returns_bind {A B} (c : M A) (k : A -> M B) :
  returns c -> (forall a, returns (k a)) -> returns (bind c k).
Proof.
  intros Hc Hk g. unfold bind. destruct (Hc g) as (a & g1 & ->).
  apply Hk.
Qed.

Lemma returns_when (b : bool) (c : M unit) :
  returns c -> returns (when b c).
Proof. destruct b; simpl; auto using returns_ret. Qed.

Lemma returns_for {A} (l : list A) (body : A -> M unit) :
  (forall x, returns (body x)) -> returns (for_ l body).
Proof.
  intros H. induction l as [|x l IH]; simpl.
  - apply returns_ret.
  - apply returns_bind; auto.
Qed.

Ltac returns_step :=
  first [ apply returns_ret | apply returns_add | apply returns_when
        | apply returns_for; intros
        | apply returns_lift;
          first [apply normalize_url_total | apply safe_iri_total]
        | apply returns_bind; [|intros] ].

Ltac returns_cases :=
  repeat first
    [ returns_step
    | match goal with
      | |- returns (match ?x with _ => _ end) => destruct x
      | |- returns (if ?b then _ else _) => destruct b
      | |- returns (let '(_, _) := ?x in _) => destruct x
      end ].

Ltac steady_step :=
  first [ apply steady_ret | apply steady_raise | apply steady_lift
        | apply steady_add | apply steady_when | apply steady_for; intros
        | apply steady_bind; [|intros] ].

Ltac steady_cases :=
  repeat first
    [ steady_step
    | match goal with
      | |- steady (match ?x with _ => _ end) => destruct x
      | |- steady (if ?b then _ else _) => destruct b
      | |- steady (let '(_, _) := ?x in _) => destruct x
      end ].

Section Assembler.
Variable KG_BASE : str.
Variable TG_WIKI_BASE : str.
Variable urlsplit : str -> Res SplitResult.
Variable filter_templates : str -> list Template.
Variable cache : str -> option PageJson.

Lemma steady_apply_infobox_param r fields param :
  steady (apply_infobox_param KG_BASE TG_WIKI_BASE urlsplit r fields param).
Proof.
  unfold apply_infobox_param, rule_property_item. steady_cases.
Qed.

Lemma steady_apply_infobox r tmpl mappings :
  steady (apply_infobox KG_BASE TG_WIKI_BASE urlsplit r tmpl mappings).
Proof.
  unfold apply_infobox. steady_cases. apply steady_apply_infobox_param.
Qed.

Lemma add_core_triples_run (title : str) (g : Graph) :
  add_core_triples KG_BASE TG_WIKI_BASE title g =
  (Return (page_uri KG_BASE title, resource_uri KG_BASE title),
   add_all (core_statements KG_BASE TG_WIKI_BASE title) g).
Proof. reflexivity. Qed.

Lemma add_external_adds (p r : term) (u : str) :
  adds (add_external urlsplit p r u) [external_statement urlsplit p r u].
Proof.
  unfold add_external, external_statement.
  destruct (safe_iri_total urlsplit u) as [o E].
  pose proof (safe_iri_some_truthy urlsplit u) as Ht.
  rewrite E in *. eapply adds_lift; [reflexivity|].
  destruct o as [iri|]; cbn [opt_truthy opt_str].
  - rewrite (Ht iri eq_refl), andb_true_r.
    destruct (contains (lower u) (py "wikipedia.org/wiki/"));
      apply adds_add.
  - rewrite andb_false_r. apply adds_add.
Qed.

Lemma page_ne_resource (title : str) :
  page_uri KG_BASE title <> resource_uri KG_BASE title.
Proof.
  unfold page_uri, resource_uri, PAGE, RES. intros E. injection E as E.
  rewrite <- !app_assoc in E. apply app_inv_head in E. discriminate.
Qed.

Lemma g_add_new (t : triple) (g : Graph) :
  ~ In t g -> g_add t g = g ++ [t].
Proof.
  intros H. unfold g_add. now destruct (in_dec triple_eq_dec t g).
Qed.

Lemma core_predicates_differ :
  SCHEMA "url" <> SCHEMA "about" /\
  RDFS_label <> SCHEMA "about" /\
  RDFS_label <> SCHEMA "url".
Proof. repeat split; intros E; vm_compute in E; discriminate. Qed.

Lemma core_statements_graph (title : str) :
  add_all (core_statements KG_BASE TG_WIKI_BASE title) empty_graph =
  core_statements KG_BASE TG_WIKI_BASE title.
Proof.
  pose proof (page_ne_resource title) as Hne.
  destruct core_predicates_differ as (H1 & H2 & H3).
  unfold core_statements, add_all, empty_graph. cbn [fold_left].
  repeat match goal with
         | |- context [g_add ?t (@nil ?T)] =>
             rewrite (g_add_new t (@nil T)); [cbn [app]|intros []]
         | |- context [g_add ?t (@cons ?T ?a ?l)] =>
             rewrite (g_add_new t (@cons T a l));
             [cbn [app]
             |cbn [In]; intros H;
              repeat match goal with
                     | H : _ \/ _ |- _ => destruct H as [H|H]
                     | H : False |- _ => destruct H
                     end;
              pose proof (f_equal (fun x : triple => snd (fst x)) H) as Hp;
              pose proof (f_equal (fun x : triple => fst (fst x)) H) as Hs;
              cbn [fst snd] in Hp, Hs;
              first [ exact (H1 Hp) | exact (H2 Hp) | exact (H3 Hp)
                    | exact (H1 (eq_sym Hp)) | exact (H2 (eq_sym Hp))
                    | exact (H3 (eq_sym Hp))
                    | exact (Hne Hs) | exact (Hne (eq_sym Hs)) ]]
         end.
  reflexivity.
Qed.

(** Steps 1 to 3 of [build_graph_body], then step 4. *)
Lemma build_graph_body_run (title : str) (mappings : Mappings)
  (include_infobox : bool) (parse_json : PageJson) (g : Graph) :
  build_graph_body KG_BASE TG_WIKI_BASE urlsplit filter_templates title
    mappings include_infobox parse_json g =
  when include_infobox
    (for_ (find_mapped_templates filter_templates
             (extract_wikitext parse_json) mappings)
       (fun tmpl =>
          apply_infobox KG_BASE TG_WIKI_BASE urlsplit
            (resource_uri KG_BASE title) tmpl mappings))
    (add_all
       (page_statements KG_BASE TG_WIKI_BASE urlsplit title parse_json) g).
Proof.
  unfold build_graph_body. unfold bind at 1.
  rewrite add_core_triples_run.
  unfold page_statements. rewrite !add_all_app.
  set (g1 := add_all (core_statements KG_BASE TG_WIKI_BASE title) g).
  unfold bind at 1.
  rewrite (adds_for (extract_links parse_json) _
             (fun lt =>
                [related_statement KG_BASE (resource_uri KG_BASE title) lt]))
    by (intros; apply adds_add).
  rewrite flat_map_single.
  unfold bind at 1.
  rewrite (adds_for (extract_externallinks parse_json) _
             (fun u => [external_statement urlsplit (page_uri KG_BASE title)
                          (resource_uri KG_BASE title) u]))
    by (intros; apply add_external_adds).
  rewrite flat_map_single. reflexivity.
Qed.


Lemma build_graph_for_title_run (title : str) (mappings : Mappings)
  (include_infobox : bool) (parse_json : PageJson) :
  cache title = Some parse_json ->
  build_graph_for_title KG_BASE TG_WIKI_BASE urlsplit filter_templates cache
    title mappings include_infobox =
  match
    when include_infobox
      (for_ (find_mapped_templates filter_templates
               (extract_wikitext parse_json) mappings)
         (fun tmpl =>
            apply_infobox KG_BASE TG_WIKI_BASE urlsplit
              (resource_uri KG_BASE title) tmpl mappings))
      (add_all
         (page_statements KG_BASE TG_WIKI_BASE urlsplit title parse_json)
         empty_graph)
  with
  | (Return _, g) => Return g
  | (Raise e, _) => Raise e
  end.
Proof.
  intros Hc. unfold build_graph_for_title, parse_cached_json. rewrite Hc.
  now rewrite build_graph_body_run.
Qed.

Lemma build_keeps_page_statements (title : str) (mappings : Mappings)
  (include_infobox : bool) (parse_json : PageJson) (g : Graph)
  (x : triple) :
  cache title = Some parse_json ->
  build_graph_for_title KG_BASE TG_WIKI_BASE urlsplit filter_templates cache
    title mappings include_infobox = Return g ->
  In x (page_statements KG_BASE TG_WIKI_BASE urlsplit title parse_json) ->
  In x g.
Proof.
  intros Hc Hb Hx.
  rewrite (build_graph_for_title_run title mappings include_infobox
             parse_json Hc) in Hb.
  match type of Hb with
  | match ?c ?g0 with _ => _ end = _ =>
      assert (Hs : steady c);
      [|pose proof (proj1 Hs g0 x) as Hin; destruct (c g0) as [[[]|e] g1]]
  end.
  - apply steady_when, steady_for. intros. apply steady_apply_infobox.
  - injection Hb as <-. apply Hin. apply add_all_In. now right.
  - discriminate.
Qed.

Lemma returns_apply_infobox_param r fields param :
  (forall key rule,
     dict_get fields key = Some rule -> rule_property rule <> None) ->
  returns (apply_infobox_param KG_BASE TG_WIKI_BASE urlsplit r fields param).
Proof.
  intros Hp. unfold apply_infobox_param.
  destruct (dict_get fields (lower (strip (fst param)))) as [rule|] eqn:E;
    [|apply returns_ret].
  destruct (negb (truthy (strip (snd param)))); [apply returns_ret|].
  unfold rule_property_item.
  destruct (rule_property rule) as [p|] eqn:Er;
    [|exfalso; exact (Hp _ _ E Er)].
  returns_cases.
Qed.

Lemma returns_apply_infobox r tmpl mappings :
  rules_have_property mappings ->
  returns (apply_infobox KG_BASE TG_WIKI_BASE urlsplit r tmpl mappings).
Proof.
  intros Hm. unfold apply_infobox.
  destruct (dict_get mappings (normalize_template_name (t_name tmpl)))
    as [spec|] eqn:E; [|apply returns_ret].
  destruct (negb (spec_truthy spec)); [apply returns_ret|].
  apply returns_bind; [returns_cases|intros _].
  apply returns_bind; [returns_cases|intros _].
  apply returns_for. intros param.
  apply returns_apply_infobox_param. intros key rule Hk.
  destruct (spec_fields spec) as [fields|] eqn:Ef.
  - exact (Hm _ _ _ _ _ E Ef Hk).
  - discriminate.
Qed.

Lemma build_returns (title : str) (mappings : Mappings)
  (include_infobox : bool) (parse_json : PageJson) :
  cache title = Some parse_json ->
  rules_have_property mappings ->
  exists g,
    build_graph_for_title KG_BASE TG_WIKI_BASE urlsplit filter_templates
      cache title mappings include_infobox = Return g.
Proof.
  intros Hc Hm.
  rewrite (build_graph_for_title_run title mappings include_infobox
             parse_json Hc).
  match goal with
  | |- exists g, match ?c ?g0 with _ => _ end = _ =>
      assert (Hr : returns c);
      [|destruct (Hr g0) as ([] & g1 & ->); now exists g1]
  end.
  apply returns_when, returns_for. intros tmpl.
  now apply returns_apply_infobox.
Qed.

(** C7.  For every page title whose cached payload is available, the
    set returned by the assembler contains the core identity
    statements: document isAbout entity, the source-document URL on the
    document and on the entity, and the label with language tag [en]
    and the title verbatim on both.  The assembler does return a set
    whenever every field rule of the configuration names its property.
    When the infobox step is off or no template of the page is mapped,
    it returns the statements of steps 1 to 3, and with no internal and
    no external link these are exactly the five core statements. *)
Theorem C7_core_identity_statements (title : str) (mappings : Mappings)
  (include_infobox : bool) (parse_json : PageJson) :
  cache title = Some parse_json ->
  let build :=
    build_graph_for_title KG_BASE TG_WIKI_BASE urlsplit filter_templates
      cache title mappings include_infobox in
  let p := page_uri KG_BASE title in
  let r := resource_uri KG_BASE title in
  let wurl := wiki_url TG_WIKI_BASE title in
  let core :=
    [ (p, SCHEMA "about", r);
      (p, SCHEMA "url", wurl);
      (r, SCHEMA "url", wurl);
      (r, RDFS_label, Literal title (Some (py "en")));
      (p, RDFS_label, Literal title (Some (py "en"))) ] in
  (forall g, build = Return g -> forall x, In x core -> In x g) /\
  (rules_have_property mappings -> exists g, build = Return g) /\
  (include_infobox = false \/
   find_mapped_templates filter_templates (extract_wikitext parse_json)
     mappings = [] ->
   build =
   Return (add_all
             (page_statements KG_BASE TG_WIKI_BASE urlsplit title parse_json)
             empty_graph) /\
   (extract_links parse_json = [] ->
    extract_externallinks parse_json = [] ->
    build = Return core)).
Proof.
  intros Hc build p r wurl core. split; [|split].
  - intros g Hb x Hx.
    apply (build_keeps_page_statements title mappings include_infobox
             parse_json g x Hc Hb).
    unfold page_statements. apply in_or_app. now left.
  - intros Hm.
    exact (build_returns title mappings include_infobox parse_json Hc Hm).
  - intros Hno.
    assert (E : build =
                Return (add_all
                          (page_statements KG_BASE TG_WIKI_BASE urlsplit
                             title parse_json)
                          empty_graph)).
    { unfold build.
      rewrite (build_graph_for_title_run title mappings include_infobox
                 parse_json Hc).
      destruct Hno as [-> | ->]; [reflexivity|].
      destruct include_infobox; reflexivity. }
    split; [exact E|]. intros Hl He. rewrite E.
    unfold page_statements. rewrite Hl, He. cbn [map]. rewrite !app_nil_r.
    now rewrite core_statements_graph.
Qed.

(** C8.  For every external link string one statement is added: an
    [owl:sameAs] statement from the entity to the escaped reference
    when escaping succeeds and the lowercased string contains
    [wikipedia.org/wiki/]; otherwise a [schema:url] statement on the
    document, with the escaped IRI when escaping succeeded and the
    plain-text literal of the raw string when it failed.  That
    statement is in the set the assembler returns. *)
Theorem C8_external_links :
  (forall p r u g,
     add_external urlsplit p r u g =
     (Return tt, g_add (external_statement urlsplit p r u) g)) /\
  (forall title mappings include_infobox parse_json g u,
     cache title = Some parse_json ->
     build_graph_for_title KG_BASE TG_WIKI_BASE urlsplit filter_templates
       cache title mappings include_infobox = Return g ->
     In u (extract_externallinks parse_json) ->
     In (external_statement urlsplit (page_uri KG_BASE title)
           (resource_uri KG_BASE title) u) g).
Proof.
  split.
  - intros p r u g. apply (add_external_adds p r u g).
  - intros title mappings include_infobox parse_json g u Hc Hb Hu.
    apply (build_keeps_page_statements title mappings include_infobox
             parse_json g _ Hc Hb).
    unfold page_statements. apply in_or_app. right.
    apply in_or_app. right. now apply in_map.
Qed.

Lemma for_raises {A} (l : list A) (body : A -> M unit) (x : A)
  (e : exn) (g0 : Graph) :
  (forall y, steady (body y)) ->
  In x l -> fst (body x g0) = Raise e ->
  forall g, exists e', fst (for_ l body g) = Raise e'.
Proof.
  intros Hs Hin Hx. induction l as [|y l IH]; [destruct Hin|].
  intros g. cbn [for_]. unfold bind.
  destruct (body y g) as [[[]|e1] g1] eqn:Ey; [|now exists e1].
  destruct Hin as [->|Hin]; [|now apply IH].
  pose proof (proj2 (Hs x) g g0) as Hsame. rewrite Ey, Hx in Hsame.
  discriminate.
Qed.

Lemma build_raises (title : str) (mappings : Mappings)
  (parse_json : PageJson) (tmpl : Template) (e : exn) :
  cache title = Some parse_json ->
  In tmpl (find_mapped_templates filter_templates
             (extract_wikitext parse_json) mappings) ->
  fst (apply_infobox KG_BASE TG_WIKI_BASE urlsplit
         (resource_uri KG_BASE title) tmpl mappings empty_graph) = Raise e ->
  exists e',
    build_graph_for_title KG_BASE TG_WIKI_BASE urlsplit filter_templates
      cache title mappings true = Raise e'.
Proof.
  intros Hc Hin He.
  rewrite (build_graph_for_title_run title mappings true parse_json Hc).
  cbn [when].
  destruct (for_raises _ _ tmpl e empty_graph
              (fun t => steady_apply_infobox (resource_uri KG_BASE title)
                          t mappings)
              Hin He (add_all
                        (page_statements KG_BASE TG_WIKI_BASE urlsplit
                           title parse_json)
                        empty_graph)) as [e' He'].
  exists e'.
  destruct (for_ _ _ _) as [[[]|e1] g1]; simpl in He'; congruence.
Qed.

End Assembler.

Section Batch.
Variable KG_BASE : str.
Variable TG_WIKI_BASE : str.
Variable TTL_OUT_DIR : str.
Variable urlsplit : str -> Res SplitResult.
Variable filter_templates : str -> list Template.
Variable cache : str -> option PageJson.
Variable serialize : str -> Graph -> Res unit.
Variable out_prefix : str.
Variable mappings : Mappings.
Variable chunk_size : Z.
Variable max_pages : option Z.

Local Abbreviation build title :=
  (build_graph_for_title KG_BASE TG_WIKI_BASE urlsplit filter_templates
     cache title mappings true).
Local Abbreviation process title d :=
  (process_title KG_BASE TG_WIKI_BASE TTL_OUT_DIR urlsplit filter_templates
     cache serialize out_prefix mappings true chunk_size title d).
Local Abbreviation run titles d :=
  (run_titles KG_BASE TG_WIKI_BASE TTL_OUT_DIR urlsplit filter_templates
     cache serialize out_prefix mappings true chunk_size max_pages titles d).

(** C3, as amended.  If mapping one template invocation of a page
    raises, the exception leaves [build_graph_for_title]: no statement
    set is returned for that page.  The batch driver catches it at the
    title boundary: it prints a warning, adds nothing of that page to
    the chunk or to a file, does not count the page, and goes on with
    the next title. *)
Theorem C3_invocation_failure_fails_the_page (title : str)
  (parse_json : PageJson) (tmpl : Template) (e : exn) :
  cache title = Some parse_json ->
  In tmpl (find_mapped_templates filter_templates
             (extract_wikitext parse_json) mappings) ->
  fst (apply_infobox KG_BASE TG_WIKI_BASE urlsplit
         (resource_uri KG_BASE title) tmpl mappings empty_graph) = Raise e ->
  exists e',
    build title = Raise e' /\
    (forall d,
       process title d = warn title e' d /\
       chunk (process title d) = chunk d /\
       written (process title d) = written d /\
       processed (process title d) = processed d) /\
    (forall rest d,
       match max_pages with
       | Some mx => (Z.of_nat (processed d) < mx)%Z
       | None => True
       end ->
       run (title :: rest) d = run rest (warn title e' d)).
Proof.
  intros Hc Hin He.
  destruct (build_raises KG_BASE TG_WIKI_BASE urlsplit filter_templates
              cache title mappings parse_json tmpl e Hc Hin He)
    as [e' Hb].
  exists e'. split; [exact Hb|].
  assert (Hp : forall d, process title d = warn title e' d).
  { intros d. unfold process_title. now rewrite Hb. }
  split.
  - intros d. rewrite Hp. repeat split.
  - intros rest d Hmax. cbn [run_titles]. rewrite Hp.
    destruct max_pages as [mx|]; [|reflexivity].
    apply Z.leb_gt in Hmax. now rewrite Hmax.
Qed.

End Batch.

(** C3, counterexample.  One invocation whose rule has no property
    raises [KeyError]; the page has no output set, and none of its
    statements, the core ones included, reaches the chunk. *)
Lemma C3_failing_invocation_blanks_the_page :
  fst (apply_infobox KG0 WIKI0 urlsplit_ref (resource_uri KG0 (py "Elrond"))
         character_box broken_mappings empty_graph) =
    Raise (KeyError (py "property")) /\
  build_graph_for_title KG0 WIKI0 urlsplit_ref templates_of elrond_cache
    (py "Elrond") broken_mappings true = Raise (KeyError (py "property")) /\
  (forall g,
     build_graph_for_title KG0 WIKI0 urlsplit_ref templates_of elrond_cache
       (py "Elrond") broken_mappings true <> Return g) /\
  let run := build_kg_chunked KG0 WIKI0 (py "data/ttl") urlsplit_ref
               templates_of elrond_cache (Return tt) serializer_ok (py "kg")
               broken_mappings true 500 None [py "Elrond"] in
  let d := snd run in
  fst run = Return [] /\ chunk d = [] /\ written d = [] /\
  stdout d = [Warn (py "Elrond") (KeyError (py "property")); Done 0 0].
Proof.
  assert (E : build_graph_for_title KG0 WIKI0 urlsplit_ref templates_of
                elrond_cache (py "Elrond") broken_mappings true =
              Raise (KeyError (py "property"))) by (vm_compute; reflexivity).
  split; [vm_compute; reflexivity|]. split; [exact E|].
  split; [intros g; rewrite E; discriminate|].
  vm_compute. repeat split.
Qed.

Lemma C3_invocation_failure_witness :
  exists e',
    build_graph_for_title KG0 WIKI0 urlsplit_ref templates_of elrond_cache
      (py "Elrond") broken_mappings true = Raise e'.
Proof.
  destruct (C3_invocation_failure_fails_the_page KG0 WIKI0 (py "data/ttl")
              urlsplit_ref templates_of elrond_cache serializer_ok (py "kg")
              broken_mappings 500 None (py "Elrond") elrond_page
              character_box (KeyError (py "property")))
    as (e' & H & _).
  - reflexivity.
  - vm_compute. left. reflexivity.
  - vm_compute. reflexivity.
  - exists e'. exact H.
Defined.

Lemma C7_core_identity_witness :
  build_graph_for_title KG0 WIKI0 urlsplit_ref templates_of bare_cache
    (py "Elrond") broken_mappings true =
  Return (core_statements KG0 WIKI0 (py "Elrond")).
Proof.
  destruct (C7_core_identity_statements KG0 WIKI0 urlsplit_ref templates_of
              bare_cache (py "Elrond") broken_mappings true bare_page
              eq_refl) as (_ & _ & Hplain).
  destruct (Hplain (or_intror eq_refl)) as [_ E].
  exact (E eq_refl eq_refl).
Defined.

Lemma C8_external_links_witness :
  In (resource_uri KG0 (py "Elrond"), OWL_sameAs,
      URIRef (py "https://en.wikipedia.org/wiki/Elrond"))
     (add_all (page_statements KG0 WIKI0 urlsplit_ref (py "Elrond")
                 elrond_page) empty_graph) /\
  In (page_uri KG0 (py "Elrond"), SCHEMA "url",
      Literal (py "not a link") None)
     (add_all (page_statements KG0 WIKI0 urlsplit_ref (py "Elrond")
                 elrond_page) empty_graph).
Proof.
  pose proof (proj2 (C8_external_links KG0 WIKI0 urlsplit_ref templates_of
                       elrond_cache)
                (py "Elrond") broken_mappings false elrond_page
                (add_all (page_statements KG0 WIKI0 urlsplit_ref
                            (py "Elrond") elrond_page) empty_graph)) as H.
  split.
  - apply (H (py "https://en.wikipedia.org/wiki/Elrond")).
    + reflexivity.
    + vm_compute. reflexivity.
    + vm_compute. left. reflexivity.
  - apply (H (py "not a link")).
    + reflexivity.
    + vm_compute. reflexivity.
    + vm_compute. right. left. reflexivity.
Defined.

(* ================================================================== *)
(** * The matcher finds only matches: C10 *)
(* ================================================================== *)

Section Soundness.
Variable fl : flags.
Variable n0 : nat.
Variable A : Type.

Lemma one_sound (p : ascii -> bool) (s : str) (cap : option str)
  (k : str -> option str -> option A) (x : A) :
  one p s cap k = Some x ->
  exists ch s', s = ch :: s' /\ p ch = true /\ k s' cap = Some x.
Proof.
  destruct s as [|ch s']; simpl; [discriminate|].
  destruct (p ch) eqn:E; [|discriminate]. eauto.
Qed.

Lemma m_sound (r : re) :
  forall s cap (k : str -> option str -> option A) x,
    m fl n0 r s cap k = Some x ->
    exists s1 c1, Matches fl n0 r s cap s1 c1 /\ k s1 c1 = Some x.
Proof.
  induction r as [| c | | neg items | a IHa b IHb | a IHa b IHb
                 | g a IHa | a IHa | | ]; intros s cap k x H; simpl in H.
  - eauto using Matches.
  - apply one_sound in H as (ch & s' & -> & Hp & Hk). eauto using Matches.
  - apply one_sound in H as (ch & s' & -> & Hp & Hk). eauto using Matches.
  - apply one_sound in H as (ch & s' & -> & Hp & Hk). eauto using Matches.
  - apply IHa in H as (s1 & c1 & Ha & H).
    apply IHb in H as (s2 & c2 & Hb & H). eauto using Matches.
  - destruct (m fl n0 a s cap k) eqn:E.
    + injection H as ->. apply IHa in E as (s1 & c1 & Ha & E).
      eauto using Matches.
    + apply IHb in H as (s1 & c1 & Hb & H). eauto using Matches.
  - revert H. generalize (length s) as n. intros n. revert s cap.
    induction n as [|n IHn]; intros s cap H; cbn [star_loop] in H.
    + eauto using Matches.
    + assert (Hagain :
        m fl n0 a s cap
          (fun s1 cap1 =>
             if length s1 <? length s
             then star_loop (m fl n0 a) g k n s1 cap1
             else None) = Some x ->
        exists s1 c1, Matches fl n0 (Star g a) s cap s1 c1 /\
                      k s1 c1 = Some x).
      { intros E. apply IHa in E as (s1 & c1 & Ha & E).
        destruct (length s1 <? length s) eqn:Hlt; [|discriminate].
        apply Nat.ltb_lt in Hlt.
        apply IHn in E as (s2 & c2 & Hs & E). eauto using Matches. }
      cbv zeta in H. destruct g.
      * match type of H with
        | match ?e with _ => _ end = _ => destruct e eqn:E
        end.
        -- injection H as ->. now apply Hagain.
        -- eauto using Matches.
      * destruct (k s cap) eqn:E.
        -- injection H as ->. eauto using Matches.
        -- now apply Hagain.
  - apply IHa in H as (s1 & c1 & Ha & H). eauto using Matches.
  - destruct (length s =? n0) eqn:E; [|discriminate].
    apply Nat.eqb_eq in E. eauto using Matches.
  - destruct s as [|c [|c' s']]; try discriminate.
    + exists [], cap. split; [apply M_Eol; now left|exact H].
    + destruct (Ascii.eqb c nl) eqn:E; [|discriminate].
      apply Ascii.eqb_eq in E. subst c.
      exists [nl], cap. split; [apply M_Eol; now right|exact H].
Qed.

End Soundness.

Lemma match_at_sound (fl : flags) (r : re) (n0 : nat) (s s' : str)
  (cap : option str) :
  match_at fl r n0 s = Some (s', cap) -> Matches fl n0 r s None s' cap.
Proof.
  unfold match_at. intros H. apply m_sound in H as (s1 & c1 & Hm & H).
  now injection H as <- <-.
Qed.

(** Conversely the matcher finds a match whenever there is one: the
    bound on the iterations of a repetition never cuts a match off. *)
Lemma m_complete (fl : flags) (n0 : nat) (A : Type) (r : re)
  (s s1 : str) (c c1 : option str) :
  Matches fl n0 r s c s1 c1 ->
  (forall k : str -> option str -> option A,
     k s1 c1 <> None -> m fl n0 r s c k <> None) /\
  (forall g a, r = Star g a ->
     forall (k : str -> option str -> option A) n,
       length s <= n -> k s1 c1 <> None ->
       star_loop (m fl n0 a) g k n s c <> None).
Proof.
  induction 1 as
    [ s c | x ch s c Hp | ch s c Hp | neg items ch s c Hp
    | a b s c s1 c1 s2 c2 _ [IHa _] _ [IHb _]
    | a b s c s1 c1 _ [IHa _]
    | a b s c s1 c1 _ [IHb _]
    | g a s c
    | g a s c s1 c1 s2 c2 Hlt _ [IHa _] _ [_ IHs]
    | a s c s1 c1 _ [IHa _]
    | s c Hl | s c Hs ];
    (split; [|try solve [intros ? ? [=]]]).
  - intros k Hk. exact Hk.
  - intros k Hk. cbn [m one]. now rewrite Hp.
  - intros k Hk. cbn [m one]. now rewrite Hp.
  - intros k Hk. cbn [m one]. now rewrite Hp.
  - intros k Hk. cbn [m]. apply IHa. now apply IHb.
  - intros k Hk. cbn [m]. specialize (IHa k Hk).
    destruct (m fl n0 a s c k); [discriminate|contradiction].
  - intros k Hk. cbn [m]. destruct (m fl n0 a s c k); [discriminate|].
    now apply IHb.
  - intros k Hk. cbn [m]. destruct (length s) as [|n]; cbn [star_loop].
    + exact Hk.
    + destruct g.
      * match goal with
        | |- match ?e with _ => _ end <> None => destruct e
        end; [discriminate|exact Hk].
      * destruct (k s c); [discriminate|contradiction].
  - intros g' a' [= <- <-] k n _ Hk. destruct n as [|n]; cbn [star_loop].
    + exact Hk.
    + destruct g.
      * match goal with
        | |- match ?e with _ => _ end <> None => destruct e
        end; [discriminate|exact Hk].
      * destruct (k s c); [discriminate|contradiction].
  - intros k Hk. cbn [m].
    assert (Hloop : forall n, length s <= n ->
              star_loop (m fl n0 a) g k n s c <> None).
    { intros n Hn. destruct n as [|n]; [lia|]. cbn [star_loop].
      assert (Hagain :
        m fl n0 a s c
          (fun s1 cap1 =>
             if length s1 <? length s
             then star_loop (m fl n0 a) g k n s1 cap1
             else None) <> None).
      { apply IHa. apply Nat.ltb_lt in Hlt as Hb. rewrite Hb.
        apply (IHs g a eq_refl); [lia|exact Hk]. }
      destruct g.
      - match goal with
        | |- match ?e with _ => _ end <> None => destruct e
        end; [discriminate|contradiction].
      - destruct (k s c); [discriminate|exact Hagain]. }
    now apply Hloop.
  - intros g' a' [= <- <-] k n Hn Hk.
    destruct n as [|n]; [lia|]. cbn [star_loop].
    assert (Hagain :
      m fl n0 a s c
        (fun s1 cap1 =>
           if length s1 <? length s
           then star_loop (m fl n0 a) g k n s1 cap1
           else None) <> None).
    { apply IHa. apply Nat.ltb_lt in Hlt as Hb. rewrite Hb.
      apply (IHs g a eq_refl); [lia|exact Hk]. }
    destruct g.
    + match goal with
      | |- match ?e with _ => _ end <> None => destruct e
      end; [discriminate|contradiction].
    + destruct (k s c); [discriminate|exact Hagain].
  - intros k Hk. cbn [m]. now apply IHa.
  - intros k Hk. cbn [m]. apply Nat.eqb_eq in Hl. now rewrite Hl.
  - intros k Hk. cbn [m]. destruct Hs as [-> | ->]; [exact Hk|].
    now rewrite Ascii.eqb_refl.
Qed.

(** A match attempt fails exactly when the pattern has no match at the
    head of the subject. *)
Lemma match_at_complete (fl : flags) (r : re) (n0 : nat) (s s' : str)
  (cap : option str) :
  Matches fl n0 r s None s' cap -> match_at fl r n0 s <> None.
Proof.
  intros H. unfold match_at. apply (m_complete _ _ _ _ _ _ _ _ H).
  discriminate.
Qed.

Section MatchFacts.
Variable fl : flags.
Variable n0 : nat.

Lemma Matches_prefix (r : re) (s s' : str) (c c' : option str) :
  Matches fl n0 r s c s' c' ->
  exists pre,
    s = pre ++ s' /\
    (pre = [] -> nullable r = true) /\
    (forall ch t, pre = ch :: t -> first fl r ch = true).
Proof.
  induction 1 as
    [ s c | x ch s c Hp | ch s c Hp | neg items ch s c Hp
    | a b s c s1 c1 s2 c2 _ (p1 & E1 & N1 & F1) _ (p2 & E2 & N2 & F2)
    | a b s c s1 c1 _ (p1 & E1 & N1 & F1)
    | a b s c s1 c1 _ (p1 & E1 & N1 & F1)
    | g a s c
    | g a s c s1 c1 s2 c2 Hlt _ (p1 & E1 & N1 & F1) _ (p2 & E2 & N2 & F2)
    | a s c s1 c1 _ (p1 & E1 & N1 & F1)
    | s c Hl | s c Hs ];
    try (exists []; repeat split; [discriminate]);
    try (exists [ch]; repeat split;
         [discriminate | intros ? ? [= <- _]; exact Hp]).
  - exists (p1 ++ p2). subst s s1. rewrite app_assoc. repeat split.
    + intros E. apply app_eq_nil in E as [-> ->]. simpl.
      now rewrite N1, N2.
    + intros ch t E. simpl. destruct p1 as [|x p1].
      * rewrite N1 by reflexivity. rewrite (F2 ch t E). apply orb_true_r.
      * injection E as -> _. now rewrite (F1 ch p1 eq_refl).
  - exists p1. repeat split; auto.
    + intros E. simpl. now rewrite N1.
    + intros ch t E. simpl. now rewrite (F1 ch t E).
  - exists p1. repeat split; auto.
    + intros E. simpl. rewrite N1 by assumption. apply orb_true_r.
    + intros ch t E. simpl. rewrite (F1 ch t E). apply orb_true_r.
  - exists (p1 ++ p2). subst s s1. rewrite app_assoc. repeat split.
    intros ch t E. simpl. destruct p1 as [|x p1].
    + exact (F2 ch t E).
    + injection E as -> _. exact (F1 ch p1 eq_refl).
  - exists p1. repeat split; auto.
Qed.










Lemma Matches_star_cls (g neg : bool) (items : list cls_item)
  (s s' : str) (c c' : option str) :
  Matches fl n0 (Star g (Cls neg items)) s c s' c' ->
  exists pre,
    s = pre ++ s' /\ c' = c /\
    Forall (fun ch => cls_match fl neg items ch = true) pre.
Proof.
  remember (Star g (Cls neg items)) as r eqn:Er. intros H.
  induction H as [ | | | | | | | g' a s c
                   | g' a s c s1 c1 s2 c2 Hlt Ha _ Hs IH | | | ];
    try discriminate.
  - exists []. auto.
  - injection Er as -> ->.
    inversion Ha as [ | | | ? ? ch t ? Hch | | | | | | | | ]; subst.
    destruct (IH eq_refl) as (pre & -> & -> & Hall).
    exists (ch :: pre). auto.
Qed.

End MatchFacts.

Ltac inv H := inversion H; subst; clear H.

Ltac inv_matches :=
  repeat match goal with
         | H : Matches _ _ (Cat _ _) _ _ _ _ |- _ => inv H
         | H : Matches _ _ (Lit _) _ _ _ _ |- _ => inv H
         | H : Matches _ _ (Grp _) _ _ _ _ |- _ => inv H
         | H : Matches _ _ (Cls _ _) _ _ _ _ |- _ => inv H
         | H : Matches _ _ Eps _ _ _ _ |- _ => inv H
         | H : Matches _ _ (Alt _ _) _ _ _ _ |- _ => inv H
         end.

Lemma firstn_prefix (a b : str) :
  firstn (length (a ++ b) - length b) (a ++ b) = a.
Proof.
  rewrite length_app. replace (length a + length b - length b)
    with (length a) by lia.
  induction a as [|x a IH]; simpl; [now destruct b|now rewrite IH].
Qed.

Lemma lit_match_eq (x ch : ascii) :
  lit_match no_flags x ch = true -> ch = x.
Proof. unfold lit_match. simpl. intros H. now apply Ascii.eqb_eq in H. Qed.

Ltac star_cls :=
  repeat match goal with
         | H : Matches _ _ (Star _ (Cls _ _)) _ _ _ _ |- _ =>
             apply Matches_star_cls in H as (? & ? & ? & ?)
         | H : lit_match no_flags _ _ = true |- _ =>
             apply lit_match_eq in H
         end; subst.

(** The shape of a match of [WIKI_LINK_RE]: two opening brackets, a
    non-empty target without [\]], [|] and [#], possibly a [|] and a
    label without [\]], two closing brackets; group 1 is the target. *)
Lemma wiki_link_shape (n0 : nat) (s s' : str) (c c' : option str) :
  Matches no_flags n0 WIKI_LINK_RE s c s' c' ->
  exists target label,
    s = py "[[" ++ target ++ label ++ py "]]" ++ s' /\
    c' = Some target /\
    target <> [] /\
    Forall (fun ch => title_char ch = true) target /\
    (label = [] \/
     exists l, label = "|"%char :: l /\
               Forall (fun ch => label_char ch = true) l).
Proof.
  intros H. unfold WIKI_LINK_RE, Opt, Plus in H. cbn [Seq] in H.
  inv_matches; star_cls.
  - match goal with
    | Ht : Forall _ ?t, Hl : Forall _ ?l, Hc : cls_match _ _ [_] ?y = true,
      Hx : cls_match _ _ [_; _; _] ?x = true |- _ =>
        exists (x :: t), ("|"%char :: y :: l)
    end.
    change (?x :: ?t ++ ?r) with ((x :: t) ++ r).
    rewrite firstn_prefix. repeat split; auto; try discriminate.
    right. eexists. split; [reflexivity|]. auto.
  - match goal with
    | Ht : Forall _ ?t, Hx : cls_match _ _ [_; _; _] ?x = true |- _ =>
        exists (x :: t), []
    end.
    change (?x :: ?t ++ ?r) with ((x :: t) ++ r).
    rewrite firstn_prefix. repeat split; auto; discriminate.
Qed.

(** Every pattern of the program needs at least one character: a match
    is never empty. *)
Lemma program_patterns_not_nullable :
  forallb (fun r => negb (nullable r))
    [ WIKI_LINK_RE; REF_BLOCK_RE; REF_SELF_RE; BR_RE; TAG_RE; HSPACE_RE;
      BLANK_LINES_RE; LIST_SEP_RE; EMPTY_PARENS_RE; URL_RE ] = true.
Proof. reflexivity. Qed.

Lemma match_at_consumes (fl : flags) (r : re) (n0 : nat) (s s' : str)
  (cap : option str) :
  nullable r = false ->
  match_at fl r n0 s = Some (s', cap) -> length s' < length s.
Proof.
  intros Hn E.
  apply match_at_sound, Matches_prefix in E as (pre & -> & N & _).
  destruct pre as [|ch t].
  - rewrite N in Hn by reflexivity. discriminate.
  - rewrite length_app. cbn [length]. lia.
Qed.















Lemma sub_from_cons (fl : flags) (r : re) (repl : str) (n0 : nat)
  (c : ascii) (t : str) :
  sub_from fl r repl n0 (c :: t) 0 =
  match match_at fl r n0 (c :: t) with
  | Some (s', _) =>
      if length (c :: t) - length s' =? 0
      then repl ++ c :: sub_from fl r repl n0 t 0
      else repl ++ sub_from fl r repl n0 t (length (c :: t) - length s' - 1)
  | None => c :: sub_from fl r repl n0 t 0
  end.
Proof. reflexivity. Qed.









Lemma title_char_spec (c : ascii) :
  title_char c = true <->
  c <> "]"%char /\ c <> "|"%char /\ c <> "#"%char.
Proof.
  destruct c as [[] [] [] [] [] [] [] []]; vm_compute;
    (split;
     [ intros H; try discriminate H; repeat split; discriminate
     | intros (A & B & C); try reflexivity; exfalso;
       first [now apply A | now apply B | now apply C] ]).
Qed.





(* ================================================================== *)
(** * Further properties of the value classifier *)
(* ================================================================== *)

Section ScanChars.
Variable fl : flags.
Variable r : re.
Variable n0 : nat.
Hypothesis Hnn : nullable r = false.

(** A character that [re.sub] copies is one at which no match starts. *)
Lemma sub_from_copied (repl s : str) (skip : nat) (c : ascii) :
  In c (sub_from fl r repl n0 s skip) ->
  In c repl \/ exists t, match_at fl r n0 (c :: t) = None.
Proof.
  revert skip. induction s as [|x s IH]; intros skip H; [destruct H|].
  cbn [sub_from] in H. destruct skip as [|j]; [|now apply (IH j)].
  destruct (match_at fl r n0 (x :: s)) as [[s' cap]|] eqn:E.
  - pose proof (match_at_consumes fl r n0 _ _ _ Hnn E) as Hlt.
    destruct (length (x :: s) - length s' =? 0) eqn:E0.
    + apply Nat.eqb_eq in E0. lia.
    + apply in_app_or in H as [H|H]; [now left|]. now apply (IH _ H).
  - destruct H as [<-|H]; [right; eauto|]. now apply (IH 0).
Qed.

Lemma sub_from_In (repl s : str) (skip : nat) (c : ascii) :
  In c (sub_from fl r repl n0 s skip) -> In c repl \/ In c s.
Proof.
  revert skip. induction s as [|x s IH]; intros skip H; [destruct H|].
  cbn [sub_from] in H. destruct skip as [|j].
  - destruct (match_at fl r n0 (x :: s)) as [[s' cap]|].
    + destruct (length (x :: s) - length s' =? 0).
      * apply in_app_or in H as [H|[<-|H]]; [now left|right; now left|].
        destruct (IH _ H); [now left|right; now right].
      * apply in_app_or in H as [H|H]; [now left|].
        destruct (IH _ H); [now left|right; now right].
    + destruct H as [<-|H]; [right; now left|].
      destruct (IH _ H); [now left|right; now right].
  - destruct (IH _ H); [now left|right; now right].
Qed.

(** A character of a piece returned by [re.split] is one at which no
    match starts. *)
Lemma split_from_copied (s cur : str) (skip : nat) (piece : str)
  (c : ascii) :
  In piece (split_from fl r n0 s skip cur) -> In c piece ->
  In c cur \/ exists t, match_at fl r n0 (c :: t) = None.
Proof.
  revert skip cur. induction s as [|x s IH]; intros skip cur Hp Hc.
  - destruct Hp as [<-|[]]. left. now apply in_rev.
  - cbn [split_from] in Hp. destruct skip as [|j]; [|now apply (IH j cur)].
    destruct (match_at fl r n0 (x :: s)) as [[s' cap]|] eqn:E.
    + pose proof (match_at_consumes fl r n0 _ _ _ Hnn E) as Hlt.
      destruct (length (x :: s) - length s' =? 0) eqn:E0.
      * apply Nat.eqb_eq in E0. lia.
      * destruct Hp as [<-|Hp]; [left; now apply in_rev|].
        destruct (IH _ _ Hp Hc) as [[]|H]. now right.
    + destruct (IH _ _ Hp Hc) as [[<-|H]|H]; [right; eauto|now left|now right].
Qed.

End ScanChars.

(** The separator pattern matches at every comma, semicolon and
    newline. *)
Lemma list_sep_matches (n0 : nat) (c : ascii) (t : str) :
  c = ","%char \/ c = ";"%char \/ c = nl ->
  match_at no_flags LIST_SEP_RE n0 (c :: t) <> None.
Proof.
  intros H. apply (match_at_complete _ _ _ _ t None).
  unfold LIST_SEP_RE, Plus, WS. cbn [Seq].
  destruct H as [->|[->| ->]].
  - apply M_AltR. eapply M_Cat; [apply M_Star0|].
    eapply M_Cat; [now apply M_Lit|apply M_Star0].
  - apply M_AltL. eapply M_Cat; [now apply M_Cls|apply M_Star0].
  - apply M_AltL. eapply M_Cat; [now apply M_Cls|apply M_Star0].
Qed.

Lemma split_listish_clean (text part : str) :
  In part (split_listish text) ->
  part <> [] /\ strip part = part /\
  ~ In ","%char part /\ ~ In ";"%char part /\ ~ In nl part.
Proof.
  unfold split_listish. cbv zeta. intros H.
  apply in_map_iff in H as (p & <- & H). apply filter_In in H as [Hp Ht].
  split; [now destruct (strip p)|]. split; [apply strip_idem|].
  assert (Hsep : forall c, c = ","%char \/ c = ";"%char \/ c = nl ->
                           ~ In c (strip p)).
  { intros c Hc Hin. apply strip_In in Hin.
    destruct (split_from_copied no_flags LIST_SEP_RE _ eq_refl _ _ _ _ c
                Hp Hin) as [[]|[t Hnone]].
    exact (list_sep_matches _ c t Hc Hnone). }
  repeat split; apply Hsep; auto.
Qed.

(** X1.  Every part returned by [split_listish], and so every literal
    part returned by [parse_value], is non-empty, has no white space
    at either end, and holds no comma, no semicolon and no newline. *)
Theorem literal_parts_clean (text part : str) :
  In part (split_listish text) \/ In part (snd (parse_value text)) ->
  part <> [] /\ strip part = part /\
  ~ In ","%char part /\ ~ In ";"%char part /\ ~ In nl part.
Proof.
  intros [H|H]; [exact (split_listish_clean _ _ H)|].
  unfold parse_value in H. cbn [snd] in H.
  match type of H with
  | In _ (if ?b then _ else _) => destruct b
  end; [|destruct H].
  exact (split_listish_clean _ _ H).
Qed.

Lemma literal_parts_clean_witness :
  py "Elf" <> [] /\ strip (py "Elf") = py "Elf" /\
  ~ In ","%char (py "Elf") /\ ~ In ";"%char (py "Elf") /\
  ~ In nl (py "Elf").
Proof.
  apply (literal_parts_clean (py "Elf, [[Men|Human]]; Maia") (py "Elf")).
  left. vm_compute. left. reflexivity.
Defined.

(** What [finditer] reports are matches inside the subject. *)
Lemma scan_found (fl : flags) (r : re) (n0 : nat) (s : str) (skip : nat)
  (mt : str * option str) :
  In mt (scan fl r n0 s skip) ->
  exists pre rest,
    s = pre ++ fst mt ++ rest /\
    match_at fl r n0 (fst mt ++ rest) = Some (rest, snd mt).
Proof.
  revert skip. induction s as [|ch s IH]; intros skip H; [destruct H|].
  assert (Htail : forall j, In mt (scan fl r n0 s j) ->
            exists pre rest,
              ch :: s = pre ++ fst mt ++ rest /\
              match_at fl r n0 (fst mt ++ rest) = Some (rest, snd mt)).
  { intros j Hj. destruct (IH j Hj) as (pre & rest & E & Hm).
    exists (ch :: pre), rest. split; [now rewrite E|exact Hm]. }
  cbn [scan] in H. destruct skip as [|j]; [|now apply (Htail j)].
  destruct (match_at fl r n0 (ch :: s)) as [[s' cap]|] eqn:E;
    [|now apply (Htail 0)].
  destruct H as [<-|H]; [|now apply (Htail _ H)].
  apply match_at_sound in E as Hm.
  apply Matches_prefix in Hm as (p & Ep & _).
  exists [], s'. cbn [fst snd app]. rewrite Ep, firstn_prefix.
  split; [reflexivity|]. now rewrite <- Ep.
Qed.

(** X2.  Every title returned by [extract_wikilinks] comes from a
    token of the text: two opening brackets, a non-empty target
    without [\]], [|] and [#], possibly a [|] and a label without
    [\]], two closing brackets; the title is the trimmed target. *)
Theorem extract_wikilinks_tokens (text t : str) :
  In t (extract_wikilinks text) ->
  exists pre target label post,
    text = pre ++ py "[[" ++ target ++ label ++ py "]]" ++ post /\
    t = strip target /\
    target <> [] /\
    ~ In "]"%char target /\ ~ In "|"%char target /\ ~ In "#"%char target /\
    (label = [] \/ exists l, label = "|"%char :: l /\ ~ In "]"%char l).
Proof.
  unfold extract_wikilinks, finditer. intros H.
  apply in_map_iff in H as ([mtext cap] & <- & H).
  apply scan_found in H as (pre & rest & E & Hm). cbn [fst snd] in *.
  apply match_at_sound in Hm as Hs.
  apply wiki_link_shape in Hs as (target & label & E' & -> & Hne & Ht & Hl).
  exists pre, target, label, rest. unfold group1. cbn [snd].
  split; [now rewrite E, E'|].
  split; [reflexivity|]. split; [exact Hne|].
  rewrite Forall_forall in Ht.
  assert (Hno : forall c, In c target ->
                  c <> "]"%char /\ c <> "|"%char /\ c <> "#"%char).
  { intros c Hc. now apply title_char_spec, Ht. }
  repeat split.
  - intros Hc. now apply Hno in Hc.
  - intros Hc. now apply Hno in Hc.
  - intros Hc. now apply Hno in Hc.
  - destruct Hl as [->|(l & -> & Hl)]; [now left|right].
    exists l. split; [reflexivity|]. rewrite Forall_forall in Hl.
    intros Hc. apply Hl in Hc. discriminate.
Qed.

Lemma no_pair_cons (p : ascii -> bool) (a : ascii) (s : str) :
  no_pair p (a :: s) = (negb (p a) || head_free p s) && no_pair p s.
Proof.
  destruct s as [|b s]; cbn [no_pair head_free].
  - now rewrite orb_true_r.
  - now rewrite negb_andb.
Qed.

Lemma no_pair_app (p : ascii -> bool) (a b : str) :
  no_pair p (a ++ b) = true -> no_pair p a = true /\ no_pair p b = true.
Proof.
  induction a as [|x a IH]; [now split|].
  cbn [app]. rewrite !no_pair_cons, !andb_true_iff.
  intros [H1 H2]. destruct (IH H2) as [Ha Hb]. repeat split; trivial.
  destruct a; [cbn; now rewrite orb_true_r|exact H1].
Qed.

Lemma no_pair_spec (p : ascii -> bool) (s : str) :
  no_pair p s = true <->
  forall pre a b suf, s = pre ++ a :: b :: suf -> p a && p b = false.
Proof.
  split.
  - intros H pre a b suf ->. apply no_pair_app in H as [_ H].
    cbn [no_pair] in H. apply andb_true_iff in H as [H _].
    now apply negb_true_iff.
  - induction s as [|x s IH]; [reflexivity|]. intros H.
    destruct s as [|y s]; [reflexivity|].
    change (negb (p x && p y) && no_pair p (y :: s) = true).
    rewrite (H [] x y s eq_refl). cbn [negb andb]. apply IH.
    intros pre a b suf E. apply (H (x :: pre) a b suf). now rewrite E.
Qed.

Section GreedyClass.
Variable fl : flags.
Variable n0 : nat.
Variable neg : bool.
Variable items : list cls_item.

(** A greedy repetition of a character class takes the longest run. *)
Lemma star_loop_cls (n : nat) (t : str) (cap : option str) :
  length t <= n ->
  star_loop (m fl n0 (Cls neg items)) true
    (fun s' cap' => Some (s', cap')) n t cap =
  Some (drop_while (cls_match fl neg items) t, cap).
Proof.
  revert t. induction n as [|n IH]; intros t Hn.
  - destruct t; [reflexivity|cbn in Hn; lia].
  - cbn [star_loop m]. destruct t as [|x t]; [reflexivity|].
    unfold one at 1. cbn [drop_while].
    destruct (cls_match fl neg items x); [|reflexivity].
    replace (length t <? length (x :: t)) with true
      by (symmetry; apply Nat.ltb_lt; cbn; lia).
    rewrite IH by (cbn in Hn; lia). reflexivity.
Qed.

Lemma match_at_plus_cls (c : ascii) (t : str) :
  match_at fl (Plus (Cls neg items)) n0 (c :: t) =
  if cls_match fl neg items c
  then Some (drop_while (cls_match fl neg items) t, None)
  else None.
Proof.
  unfold match_at, Plus. cbn [m]. unfold one at 1.
  destruct (cls_match fl neg items c); [|reflexivity].
  now apply star_loop_cls.
Qed.
End GreedyClass.

Lemma sub_from_skip (fl : flags) (r : re) (repl : str) (n0 : nat)
  (pre s : str) :
  sub_from fl r repl n0 (pre ++ s) (length pre) = sub_from fl r repl n0 s 0.
Proof.
  induction pre as [|x pre IH]; [reflexivity|exact IH].
Qed.

Lemma drop_while_split (p : ascii -> bool) (s : str) :
  exists pre, s = pre ++ drop_while p s.
Proof.
  induction s as [|c s [pre IH]]; [now exists []|].
  cbn [drop_while]. destruct (p c); [|now exists []].
  exists (c :: pre). now rewrite IH at 1.
Qed.

Lemma match_at_hspace (n0 : nat) (c : ascii) (t : str) :
  match_at no_flags HSPACE_RE n0 (c :: t) =
  if hspace c then Some (drop_while hspace t, None) else None.
Proof. exact (match_at_plus_cls no_flags n0 false HSPACE_ITEMS c t). Qed.

(** Collapsing runs of horizontal white space leaves single blanks. *)
Lemma sub_hspace_no_pair (n0 : nat) (s : str) :
  no_pair hspace (sub_from no_flags HSPACE_RE (py " ") n0 s 0) = true /\
  (head_free hspace s = true ->
   head_free hspace (sub_from no_flags HSPACE_RE (py " ") n0 s 0) = true).
Proof.
  remember (length s) as n eqn:En.
  assert (Hn : length s <= n) by lia. clear En. revert s Hn.
  induction n as [|n IH]; intros s Hn.
  - destruct s; [now split|cbn in Hn; lia].
  - destruct s as [|c t]; [now split|].
    rewrite sub_from_cons.
    rewrite (match_at_hspace n0 c t).
    destruct (hspace c) eqn:Hc; cbv beta iota.
    + destruct (drop_while_split hspace t) as [pre E].
      set (s' := drop_while hspace t) in *.
      assert (Hlen : length (c :: t) - length s' = S (length pre)).
      { rewrite E at 1. cbn [length]. rewrite length_app. lia. }
      rewrite Hlen. cbn [Nat.eqb Nat.sub]. rewrite Nat.sub_0_r.
      rewrite E at 1. rewrite sub_from_skip.
      assert (Hs' : length s' <= n).
      { cbn in Hn. rewrite E, length_app in Hn. lia. }
      destruct (IH s' Hs') as [H1 H2].
      assert (Hh : head_free hspace s' = true).
      { unfold s'. pose proof (drop_while_head hspace t) as Hd.
        destruct (drop_while hspace t) as [|y u]; [reflexivity|].
        cbn [head_free]. now rewrite Hd. }
      split.
      * change (py " ") with [" "%char] in *.
        cbn [app]. rewrite no_pair_cons, H1, (H2 Hh). now rewrite orb_true_r.
      * intros H. cbn [head_free] in H. rewrite Hc in H. discriminate H.
    + destruct (IH t) as [H1 H2]; [cbn in Hn; lia|].
      split.
      * rewrite no_pair_cons, Hc, H1. reflexivity.
      * intros _. cbn [head_free]. now rewrite Hc.
Qed.

(** Replacing matches by a character outside [p] creates no pair. *)
Lemma sub_from_no_pair (fl : flags) (r : re) (n0 : nat)
  (p : ascii -> bool) (x : ascii) (s : str) :
  p x = false ->
  no_pair p s = true ->
  (forall skip, no_pair p (sub_from fl r [x] n0 s skip) = true) /\
  (head_free p s = true ->
   head_free p (sub_from fl r [x] n0 s 0) = true).
Proof.
  intros Hx. induction s as [|c t IH]; [now split|].
  rewrite no_pair_cons, andb_true_iff. intros [Hc Ht].
  destruct (IH Ht) as [IH1 IH2].
  assert (Hkeep : no_pair p (c :: sub_from fl r [x] n0 t 0) = true).
  { rewrite no_pair_cons, IH1, andb_true_r.
    apply orb_true_iff in Hc as [Hc|Hc]; [now rewrite Hc|].
    rewrite (IH2 Hc). apply orb_true_r. }
  split.
  - intros [|j]; [|exact (IH1 j)].
    rewrite sub_from_cons.
    destruct (match_at fl r n0 (c :: t)) as [[s' cap]|]; [|exact Hkeep].
    destruct (_ =? 0); cbn [app]; rewrite no_pair_cons, Hx; cbn [negb orb andb];
      [exact Hkeep|apply IH1].
  - intros Hh. rewrite sub_from_cons.
    destruct (match_at fl r n0 (c :: t)) as [[s' cap]|]; [|exact Hh].
    destruct (_ =? 0); cbn [app head_free]; now rewrite Hx.
Qed.

Lemma hspace_spec (c : ascii) :
  hspace c = true <->
  c = " "%char \/ c = ascii_of_N 9 \/ c = ascii_of_N 13 \/
  c = ascii_of_N 12 \/ c = ascii_of_N 11.
Proof.
  destruct c as [[] [] [] [] [] [] [] []]; vm_compute;
    (split;
     [ intros H; try discriminate H; tauto
     | intros [H|[H|[H|[H|H]]]]; try discriminate H; reflexivity ]).
Qed.

(** X4.  The output of [strip_markup] is trimmed, holds no tab,
    carriage return, form feed or vertical tab, and never two blanks
    in a row. *)
Theorem strip_markup_whitespace (text : str) :
  let out := strip_markup text in
  strip out = out /\
  (forall c, In c out -> hspace c = true -> c = " "%char) /\
  (forall pre a b suf, out = pre ++ a :: b :: suf ->
     ~ (a = " "%char /\ b = " "%char)).
Proof.
  cbv zeta. unfold strip_markup.
  set (t4 := re_sub no_flags TAG_RE [] _).
  set (t5 := re_sub no_flags HSPACE_RE (py " ") t4).
  set (t6 := re_sub no_flags BLANK_LINES_RE [nl] t5).
  split; [apply strip_idem|]. split.
  - intros c Hin Hc. apply strip_In in Hin. unfold t6, re_sub in Hin.
    apply sub_from_In in Hin.
    destruct Hin as [[<-|[]]|Hin]; [discriminate Hc|].
    unfold t5, re_sub in Hin.
    apply (sub_from_copied no_flags HSPACE_RE _ eq_refl) in Hin.
    destruct Hin as [[<-|[]]|[t Ht]]; [reflexivity|].
    rewrite match_at_hspace, Hc in Ht. discriminate Ht.
  - assert (H5 : no_pair hspace t5 = true)
      by apply (sub_hspace_no_pair (length t4) t4).
    assert (H6 : no_pair hspace t6 = true).
    { apply (sub_from_no_pair no_flags BLANK_LINES_RE (length t5)
               hspace nl t5 eq_refl H5). }
    destruct (strip_sub t6) as (p1 & p2 & E). rewrite E in H6.
    apply no_pair_app in H6 as [_ H6]. apply no_pair_app in H6 as [H6 _].
    intros pre a b suf Eo [-> ->].
    rewrite no_pair_spec in H6. now specialize (H6 _ _ _ _ Eo).
Qed.

Lemma strip_markup_whitespace_witness :
  strip (strip_markup (py " Lord   of<br/>Rivendell ")) =
  strip_markup (py " Lord   of<br/>Rivendell ").
Proof.
  exact (proj1 (strip_markup_whitespace (py " Lord   of<br/>Rivendell "))).
Defined.

Lemma extract_wikilinks_tokens_witness :
  exists pre target label post,
    py "son of [[Elros Tar-Minyatur|Elros]]" =
      pre ++ py "[[" ++ target ++ label ++ py "]]" ++ post /\
    py "Elros Tar-Minyatur" = strip target /\
    target <> [] /\
    ~ In "]"%char target /\ ~ In "|"%char target /\ ~ In "#"%char target /\
    (label = [] \/ exists l, label = "|"%char :: l /\ ~ In "]"%char l).
Proof.
  apply (extract_wikilinks_tokens (py "son of [[Elros Tar-Minyatur|Elros]]")
           (py "Elros Tar-Minyatur")).
  vm_compute. left. reflexivity.
Defined.



(* ================================================================== *)
(** * Embedded URLs *)
(* ================================================================== *)







(* ================================================================== *)
(** * Further properties of identifiers and of the URL normalizer *)
(* ================================================================== *)

Lemma pct_chars (c x : ascii) :
  In x (pct c) -> x = "%"%char \/ always_safe x = true.
Proof.
  unfold pct. intros [<-|[<-|[<-|[]]]]; [now left| |]; right;
    destruct c as [[] [] [] [] [] [] [] []]; vm_compute; reflexivity.
Qed.

Lemma quote_chars (safe s : str) (x : ascii) :
  In x (quote s safe) ->
  always_safe x = true \/ x = "%"%char \/
  (mem_char x safe = true /\ (ord x <? 128)%N = true).
Proof.
  unfold quote. intros H. apply in_flat_map in H as (c & _ & H).
  unfold quote_char in H.
  destruct (always_safe c) eqn:Ea; cbn [orb] in H.
  - destruct H as [<-|[]]. now left.
  - destruct (mem_char c safe && (ord c <? 128)%N) eqn:Em.
    + destruct H as [<-|[]]. right. right. now apply andb_true_iff.
    + apply pct_chars in H as [H|H]; [right; now left|now left].
Qed.

Lemma quote_app (safe a b : str) :
  quote (a ++ b) safe = quote a safe ++ quote b safe.
Proof. unfold quote. apply flat_map_app. Qed.

(** Escaping is idempotent as soon as [%] is kept. *)
Lemma quote_idem (safe s : str) :
  mem_char "%" safe = true ->
  quote (quote s safe) safe = quote s safe.
Proof.
  intros Hp.
  assert (Hfix : forall l,
            (forall x, In x l -> quote_char safe x = [x]) ->
            quote l safe = l).
  { induction l as [|x l IH]; [reflexivity|]. intros H.
    change (quote (x :: l) safe) with (quote_char safe x ++ quote l safe).
    rewrite (H x (or_introl eq_refl)), IH; [reflexivity|].
    intros y Hy. apply H. now right. }
  apply Hfix. intros x Hx. unfold quote_char.
  apply quote_chars in Hx as [Hx|[->|[H1 H2]]].
  - now rewrite Hx.
  - rewrite Hp. now rewrite orb_true_r.
  - rewrite H1, H2. now rewrite orb_true_r.
Qed.

(** X5.  An escaped title holds only letters, digits, [_.-~] and
    [%], and percent-decoding it gives back the normalized title (the
    title trimmed, blanks replaced by underscores). *)
Theorem uri_escape_title_encoding (title : str) :
  (forall c, In c (uri_escape_title title) ->
     always_safe c = true \/ c = "%"%char) /\
  unquote (uri_escape_title title) = normalized_title title.
Proof.
  unfold uri_escape_title. split; [|now apply unquote_quote].
  intros c H.
  apply quote_chars in H as [H|[H|[H _]]]; [now left|now right|left].
  revert H. destruct c as [[] [] [] [] [] [] [] []]; vm_compute;
    intros H; try discriminate H; reflexivity.
Qed.

Lemma uri_escape_title_encoding_witness :
  unquote (uri_escape_title (py " Tom Bombadil/50% ")) =
  py "Tom_Bombadil/50%".
Proof.
  exact (proj2 (uri_escape_title_encoding (py " Tom Bombadil/50% "))).
Defined.

Lemma drop_while_keeps (p : ascii -> bool) (s : str) (c : ascii) :
  In c s -> p c = false -> In c (drop_while p s).
Proof.
  intros Hin Hc. induction s as [|x s IH]; [destruct Hin|].
  cbn [drop_while]. destruct (p x) eqn:Ex; [|exact Hin].
  destruct Hin as [->|Hin]; [congruence|now apply IH].
Qed.

Lemma strip_keeps (s : str) (c : ascii) :
  In c s -> is_space c = false -> In c (strip s).
Proof.
  intros Hin Hc. unfold strip, rstrip, lstrip.
  apply in_rev. rewrite rev_involutive.
  apply drop_while_keeps; [|exact Hc]. apply -> in_rev.
  now apply drop_while_keeps.
Qed.

Section NormalizerShape.
Variable urlsplit : str -> Res SplitResult.

Lemma safe_iri_inv (u iri : str) :
  safe_iri urlsplit u = Return (Some iri) ->
  exists parts,
    urlsplit (strip u) = Return parts /\
    truthy (scheme parts) = true /\ truthy (netloc parts) = true /\
    iri = urlunsplit
            {| scheme := scheme parts; netloc := netloc parts;
               path := quote (path parts) (py "/:_()'-.,~%");
               query := quote (query parts) (py "=&?/:_()'-.,~%");
               fragment := quote (fragment parts) (py ":_()'-.,~%") |}.
Proof.
  unfold safe_iri. cbv zeta.
  destruct (negb (truthy (strip u))); [discriminate|].
  destruct (urlsplit (strip u)) as [parts|e]; [|discriminate].
  cbn [try_except].
  destruct (truthy (scheme parts)) eqn:Es; [|discriminate].
  destruct (truthy (netloc parts)) eqn:En; [|discriminate].
  cbn [negb orb]. intros [= <-]. now exists parts.
Qed.

Lemma urlunsplit_authority (p : SplitResult) :
  truthy (scheme p) = true -> truthy (netloc p) = true ->
  urlunsplit p =
  scheme p ++ py "://" ++ netloc p ++
  (if truthy (path p) && negb (str_eqb (firstn 1 (path p)) (py "/"))
   then py "/" ++ path p else path p) ++
  (if truthy (query p) then py "?" ++ query p else []) ++
  (if truthy (fragment p) then py "#" ++ fragment p else []).
Proof.
  intros Hs Hn. unfold urlunsplit. cbv zeta. rewrite Hs, Hn. cbn [orb].
  destruct (truthy (query p)), (truthy (fragment p));
    repeat rewrite <- app_assoc; cbn [py list_ascii_of_string app];
    repeat rewrite <- app_assoc; cbn [app]; now rewrite ?app_nil_r.
Qed.

(** X6.  When [safe_iri] returns an IRI, it is the scheme and the
    authority that [urlsplit] found, unchanged and joined by [://],
    followed only by letters, digits and the characters
    [%/:_()'-.,~=&?#]. *)
Theorem safe_iri_shape (u iri : str) :
  safe_iri urlsplit u = Return (Some iri) ->
  exists parts rest,
    urlsplit (strip u) = Return parts /\
    iri = scheme parts ++ py "://" ++ netloc parts ++ rest /\
    forallb iri_char rest = true.
Proof.
  intros H. apply safe_iri_inv in H as (parts & E & Hs & Hn & ->).
  rewrite urlunsplit_authority by assumption.
  cbn [scheme netloc path query fragment].
  eexists parts, _. split; [exact E|]. split; [reflexivity|].
  assert (Hq : forall s safe,
            (forall c, mem_char c safe = true -> iri_char c = true) ->
            forallb iri_char (quote s safe) = true).
  { intros s safe Hsafe. apply forallb_forall. intros c Hc.
    apply quote_chars in Hc as [Hc|[->|[Hc _]]].
    - unfold iri_char. now rewrite Hc.
    - reflexivity.
    - now apply Hsafe. }
  assert (H1 := Hq (path parts) (py "/:_()'-.,~%")).
  assert (H2 := Hq (query parts) (py "=&?/:_()'-.,~%")).
  assert (H3 := Hq (fragment parts) (py ":_()'-.,~%")).
  rewrite !forallb_app.
  repeat match goal with
         | |- context [if ?b then _ else _] => destruct b
         end;
    rewrite ?forallb_app, ?H1, ?H2, ?H3; try reflexivity;
    intros c; destruct c as [[] [] [] [] [] [] [] []]; vm_compute;
    intros Hc; try discriminate Hc; reflexivity.
Qed.

(** X7.  Escaping by [safe_iri] is idempotent: [%] is kept by the
    three component escapings, so a second pass changes nothing.  For
    every URL that [safe_iri] turned into an IRI, if [urlsplit] reads
    back from the IRI the components that were written, [safe_iri]
    returns the IRI itself. *)
Theorem safe_iri_idempotent (u iri : str) (parts : SplitResult) :
  urlsplit (strip u) = Return parts ->
  safe_iri urlsplit u = Return (Some iri) ->
  urlsplit (strip iri) =
    Return {| scheme := scheme parts; netloc := netloc parts;
              path := quote (path parts) (py "/:_()'-.,~%");
              query := quote (query parts) (py "=&?/:_()'-.,~%");
              fragment := quote (fragment parts) (py ":_()'-.,~%") |} ->
  safe_iri urlsplit iri = Return (Some iri).
Proof.
  intros E H Hback.
  apply safe_iri_inv in H as (parts' & E' & Hs & Hn & Hi).
  rewrite E in E'. injection E' as <-.
  assert (Ht : truthy (strip iri) = true).
  { assert (Hin : In ":"%char (strip iri)).
    { apply strip_keeps; [|reflexivity]. rewrite Hi.
      rewrite urlunsplit_authority by assumption.
      apply in_or_app. right. now left. }
    destruct (strip iri); [destruct Hin|reflexivity]. }
  unfold safe_iri. cbv zeta. rewrite Ht, Hback. cbn [negb try_except].
  cbn [scheme netloc path query fragment]. rewrite Hs, Hn. cbn [negb orb].
  rewrite !quote_idem by reflexivity. now rewrite Hi.
Qed.
End NormalizerShape.

(* ================================================================== *)
(** * Loading the configuration *)
(* ================================================================== *)

Lemma dict_get_set_same {V} (d : list (str * V)) (k : str) (v : V) :
  dict_get (dict_set d k v) k = Some v.
Proof.
  induction d as [|[k' v'] d IH]; cbn [dict_set dict_get].
  - assert (E : str_eqb k k = true) by now apply str_eqb_eq.
    now rewrite E.
  - destruct (str_eqb k' k) eqn:E; cbn [dict_get]; now rewrite E.
Qed.

Lemma dict_get_set_other {V} (d : list (str * V)) (k k0 : str) (v : V) :
  k0 <> k -> dict_get (dict_set d k v) k0 = dict_get d k0.
Proof.
  intros Hne. induction d as [|[k' v'] d IH]; cbn [dict_set dict_get].
  - assert (E : str_eqb k k0 = false) by (apply str_eqb_neq; congruence).
    now rewrite E.
  - destruct (str_eqb k' k) eqn:E; cbn [dict_get]; [|now rewrite IH].
    apply str_eqb_eq in E. subst k'.
    assert (E : str_eqb k k0 = false) by (apply str_eqb_neq; congruence).
    now rewrite E.
Qed.

Lemma find_app {A} (p : A -> bool) (l1 l2 : list A) :
  find p (l1 ++ l2) =
  match find p l1 with
  | Some x => Some x
  | None => find p l2
  end.
Proof.
  induction l1 as [|x l1 IH]; [reflexivity|].
  cbn [app find]. destruct (p x); [reflexivity|exact IH].
Qed.

Lemma load_fold_get (data : list (str * Spec)) (d : Mappings) (n : str) :
  dict_get
    (fold_left
       (fun d kv => dict_set d (normalize_template_name (fst kv)) (snd kv))
       data d) n =
  match
    find (fun kv => str_eqb (normalize_template_name (fst kv)) n) (rev data)
  with
  | Some kv => Some (snd kv)
  | None => dict_get d n
  end.
Proof.
  revert d. induction data as [|[k v] data IH]; intros d; [reflexivity|].
  cbn [fold_left rev]. rewrite IH. cbn [fst snd].
  set (p := fun kv : str * Spec =>
              str_eqb (normalize_template_name (fst kv)) n).
  rewrite find_app. destruct (find p (rev data)); [reflexivity|].
  cbn [find]. unfold p at 1. cbn [fst snd].
  destruct (str_eqb (normalize_template_name k) n) eqn:E.
  - apply str_eqb_eq in E. subst n. apply dict_get_set_same.
  - apply str_eqb_neq in E. apply dict_get_set_other. congruence.
Qed.

(** The loaded configuration, read at a key: the last entry of the
    file whose name normalizes to the key. *)
Lemma load_infobox_mappings_get (data : list (str * Spec)) (n : str) :
  dict_get (load_infobox_mappings data) n =
  match
    find (fun kv => str_eqb (normalize_template_name (fst kv)) n) (rev data)
  with
  | Some kv => Some (snd kv)
  | None => None
  end.
Proof. unfold load_infobox_mappings. now rewrite load_fold_get. Qed.

Section Mapped.
Variable filter_templates : str -> list Template.

(** X9.  With the configuration loaded by [load_infobox_mappings], a
    template of the page is mapped exactly when some configured name
    equals its name after normalization (trimmed, lowercased,
    underscores read as blanks). *)
Theorem mapped_by_normalized_name (data : list (str * Spec))
  (wikitext : str) (tmpl : Template) :
  In tmpl (find_mapped_templates filter_templates wikitext
             (load_infobox_mappings data)) <->
  In tmpl (filter_templates wikitext) /\
  exists k spec,
    In (k, spec) data /\
    normalize_template_name k = normalize_template_name (t_name tmpl).
Proof.
  unfold find_mapped_templates. rewrite filter_In. unfold dict_has.
  rewrite load_infobox_mappings_get.
  split; intros [Hin H]; (split; [exact Hin|]).
  - destruct (find _ (rev data)) as [[k spec]|] eqn:E; [|discriminate].
    apply find_some in E as [E1 E2]. cbn [fst] in E2.
    exists k, spec. split; [now apply in_rev|now apply str_eqb_eq].
  - destruct H as (k & spec & Hk & En).
    destruct (find _ (rev data)) eqn:E; [reflexivity|].
    apply in_rev in Hk. pose proof (find_none _ _ E (k, spec) Hk) as Hk'.
    cbn [fst] in Hk'. apply str_eqb_neq in Hk'. contradiction.
Qed.

(** X10.  When several configured names normalize to the same key,
    the last entry of the file is the one the loaded configuration
    holds. *)
Theorem load_infobox_mappings_last_wins (pre post : list (str * Spec))
  (k : str) (spec : Spec) :
  (forall k' spec', In (k', spec') post ->
     normalize_template_name k' <> normalize_template_name k) ->
  dict_get (load_infobox_mappings (pre ++ (k, spec) :: post))
    (normalize_template_name k) = Some spec.
Proof.
  intros Hpost. rewrite load_infobox_mappings_get.
  rewrite rev_app_distr. cbn [rev]. rewrite <- app_assoc. cbn [app].
  set (p := fun kv : str * Spec => _).
  assert (Hn : find p (rev post) = None).
  { destruct (find p (rev post)) as [[k' s']|] eqn:E; [|reflexivity].
    apply find_some in E as [E1 E2]. apply in_rev in E1.
    unfold p in E2. cbn [fst] in E2. apply str_eqb_eq in E2.
    now apply Hpost in E1. }
  rewrite find_app, Hn. cbn [find]. unfold p at 1. cbn [fst].
  assert (E : str_eqb (normalize_template_name k) (normalize_template_name k)
              = true) by now apply str_eqb_eq.
  now rewrite E.
Qed.
End Mapped.

(* ================================================================== *)
(** * Further properties of the page graph assembler *)
(* ================================================================== *)

Lemma confined_ret {A} P (a : A) : confined P (ret a).
Proof. intros g Hg x Hx. now apply Hg. Qed.

Lemma confined_raise {A} P (e : exn) : confined P (@raise A e).
Proof. intros g Hg x Hx. now apply Hg. Qed.

Lemma confined_lift {A} P (r : Res A) : confined P (lift r).
Proof. intros g Hg x Hx. now apply Hg. Qed.

Lemma confined_add (P : triple -> Prop) (t : triple) :
  P t -> confined P (add t).
Proof.
  intros Ht g Hg x Hx. cbn [add snd] in Hx.
  apply g_add_inv in Hx as [->|Hx]; [exact Ht|now apply Hg].
Qed.

Lemma confined_bind {A B} P (c : M A) (k : A -> M B) :
  confined P c -> (forall a, confined P (k a)) -> confined P (bind c k).
Proof.
  intros Hc Hk g Hg x. unfold bind. specialize (Hc g Hg).
  destruct (c g) as [[a|e] g1]; cbn [snd] in *; [|apply Hc].
  exact (Hk a g1 Hc x).
Qed.

Lemma confined_when P (b : bool) (c : M unit) :
  confined P c -> confined P (when b c).
Proof. destruct b; cbn [when]; auto using confined_ret. Qed.

Lemma confined_for {A} P (l : list A) (body : A -> M unit) :
  (forall x, confined P (body x)) -> confined P (for_ l body).
Proof.
  intros H. induction l as [|x l IH]; cbn [for_].
  - apply confined_ret.
  - apply confined_bind; auto.
Qed.

Ltac confined_step :=
  first [ apply confined_ret | apply confined_raise | apply confined_lift
        | apply confined_when | apply confined_for; intros
        | apply confined_bind; [|intros]
        | apply confined_add ].

Ltac confined_cases :=
  repeat first
    [ confined_step
    | match goal with
      | |- confined _ (match ?x with _ => _ end) => destruct x
      | |- confined _ (if ?b then _ else _) => destruct b
      | |- confined _ (let '(_, _) := ?x in _) => destruct x
      end ].

Lemma bind_raise_inv {A B} (c : M A) (k : A -> M B) (g : Graph) (e : exn) :
  fst (bind c k g) = Raise e ->
  fst (c g) = Raise e \/
  exists a g1, c g = (Return a, g1) /\ fst (k a g1) = Raise e.
Proof.
  unfold bind. destruct (c g) as [[a|e1] g1]; cbn [fst]; intros H.
  - right. now exists a, g1.
  - left. now injection H as ->.
Qed.

Lemma for_raise_inv {A} (l : list A) (body : A -> M unit) (g : Graph)
  (e : exn) :
  fst (for_ l body g) = Raise e ->
  exists x g1, In x l /\ fst (body x g1) = Raise e.
Proof.
  revert g. induction l as [|y l IH]; intros g H; [discriminate H|].
  cbn [for_] in H. apply bind_raise_inv in H as [H|(a & g1 & _ & H)].
  - exists y, g. split; [now left|exact H].
  - destruct (IH g1 H) as (x & g2 & Hx & Hr). exists x, g2.
    split; [now right|exact Hr].
Qed.

Lemma for_In_added {A} (l : list A) (body : A -> M unit) (x : A)
  (t : triple) (g : Graph) :
  (forall y, steady (body y)) ->
  In x l ->
  fst (for_ l body g) = Return tt ->
  (forall g1, fst (body x g1) = Return tt -> In t (snd (body x g1))) ->
  In t (snd (for_ l body g)).
Proof.
  intros Hs Hin Hr Ht. revert g Hr.
  induction l as [|y l IH]; intros g Hr; [destruct Hin|].
  cbn [for_] in *. unfold bind in *.
  destruct (body y g) as [[[]|e] g1] eqn:Ey; [|discriminate Hr].
  destruct Hin as [->|Hin]; [|now apply IH].
  assert (Hsl : steady (for_ l body)) by now apply steady_for.
  apply (proj1 Hsl). specialize (Ht g). rewrite Ey in Ht. now apply Ht.
Qed.

Section AssemblerMore.
Variable KG_BASE : str.
Variable TG_WIKI_BASE : str.
Variable urlsplit : str -> Res SplitResult.
Variable filter_templates : str -> list Template.
Variable cache : str -> option PageJson.

Local Abbreviation build :=
  (build_graph_for_title KG_BASE TG_WIKI_BASE urlsplit filter_templates
     cache).
Local Abbreviation param_step :=
  (apply_infobox_param KG_BASE TG_WIKI_BASE urlsplit).
Local Abbreviation infobox_step :=
  (apply_infobox KG_BASE TG_WIKI_BASE urlsplit).

Lemma param_raise_inv r fields param g e :
  fst (param_step r fields param g) = Raise e ->
  e = KeyError (py "property") /\ unmappable fields param.
Proof.
  unfold apply_infobox_param, unmappable.
  destruct (dict_get fields (lower (strip (fst param)))) as [rule|] eqn:E;
    [|discriminate].
  destruct (truthy (strip (snd param))) eqn:Et; [|discriminate].
  cbn [negb]. unfold rule_property_item.
  destruct (rule_property rule) as [p|] eqn:Er.
  - match goal with
    | |- fst (?c g) = _ -> _ =>
        assert (Hr : returns c) by returns_cases;
        destruct (Hr g) as (a & g' & ->); discriminate
    end.
  - intros [= <-]. split; [reflexivity|]. now exists rule.
Qed.

Lemma param_raises r fields param g :
  unmappable fields param ->
  param_step r fields param g = (Raise (KeyError (py "property")), g).
Proof.
  intros (rule & E & Et & Er). unfold apply_infobox_param.
  rewrite E, Et. cbn [negb]. unfold rule_property_item. now rewrite Er.
Qed.

Lemma infobox_raise_inv r tmpl mappings g e :
  fst (infobox_step r tmpl mappings g) = Raise e ->
  e = KeyError (py "property") /\ broken mappings tmpl.
Proof.
  unfold apply_infobox, broken.
  destruct (dict_get mappings (normalize_template_name (t_name tmpl)))
    as [spec|] eqn:E; [|discriminate].
  destruct (negb (spec_truthy spec)); [discriminate|].
  intros H.
  apply bind_raise_inv in H as [H|(a1 & g1 & _ & H)].
  { exfalso. revert H.
    match goal with
    | |- fst (?c g) = _ -> _ =>
        assert (Hr : returns c) by returns_cases;
        destruct (Hr g) as (a & g' & ->); discriminate
    end. }
  apply bind_raise_inv in H as [H|(a2 & g2 & _ & H)].
  { exfalso. revert H.
    match goal with
    | |- fst (?c g1) = _ -> _ =>
        assert (Hr : returns c) by returns_cases;
        destruct (Hr g1) as (a & g' & ->); discriminate
    end. }
  apply for_raise_inv in H as (param & g3 & Hin & H).
  apply param_raise_inv in H as [-> Hu]. split; [reflexivity|].
  destruct (spec_fields spec) as [fields|] eqn:Ef.
  - now exists spec, fields, param.
  - destruct Hu as (rule & Hu & _). discriminate Hu.
Qed.

Lemma infobox_raises r tmpl mappings g :
  broken mappings tmpl ->
  exists e, fst (infobox_step r tmpl mappings g) = Raise e.
Proof.
  intros (spec & fields & param & E & Ef & Hin & Hu).
  unfold apply_infobox. rewrite E.
  assert (Ht : spec_truthy spec = true).
  { unfold spec_truthy. rewrite Ef.
    now destruct (spec_class spec), (spec_tg_class spec). }
  rewrite Ht, Ef. cbn [negb].
  match goal with
  | |- exists e, fst (bind ?c _ g) = _ =>
      assert (Hr : returns c) by returns_cases;
      unfold bind at 1; destruct (Hr g) as (a1 & g1 & ->); clear Hr
  end.
  match goal with
  | |- exists e, fst (bind ?c _ g1) = _ =>
      assert (Hr : returns c) by returns_cases;
      unfold bind at 1; destruct (Hr g1) as (a2 & g2 & ->); clear Hr
  end.
  apply (for_raises (t_params tmpl) (param_step r fields) param
           (KeyError (py "property")) g2).
  - intros y. apply steady_apply_infobox_param.
  - exact Hin.
  - now rewrite param_raises.
Qed.

(** X11.  Building a page fails in exactly two ways: with
    [FileNotFoundError] when the page is not in the cache, and with
    [KeyError] for [property] when the infobox step is on and a mapped
    template of the page has a non-blank parameter whose rule names no
    property. *)
Theorem build_fails_iff (title : str) (mappings : Mappings)
  (include_infobox : bool) (e : exn) :
  build title mappings include_infobox = Raise e <->
  (cache title = None /\ e = FileNotFoundError title) \/
  (include_infobox = true /\ e = KeyError (py "property") /\
   exists parse_json tmpl,
     cache title = Some parse_json /\
     In tmpl (find_mapped_templates filter_templates
                (extract_wikitext parse_json) mappings) /\
     broken mappings tmpl).
Proof.
  assert (Hfwd : forall e',
            build title mappings include_infobox = Raise e' ->
            (cache title = None /\ e' = FileNotFoundError title) \/
            (include_infobox = true /\ e' = KeyError (py "property") /\
             exists parse_json tmpl,
               cache title = Some parse_json /\
               In tmpl (find_mapped_templates filter_templates
                          (extract_wikitext parse_json) mappings) /\
               broken mappings tmpl)).
  { intros e' H. destruct (cache title) as [pj|] eqn:Hc.
    - right.
      rewrite (build_graph_for_title_run KG_BASE TG_WIKI_BASE urlsplit
                 filter_templates cache title mappings include_infobox
                 pj Hc) in H.
      destruct include_infobox; [|discriminate H]. cbn [when] in H.
      match type of H with
      | match ?c ?g0 with _ => _ end = _ =>
          destruct (c g0) as [[[]|e1] g1] eqn:Ef; [discriminate H|]
      end.
      injection H as ->.
      assert (Ef' := f_equal fst Ef). cbn [fst] in Ef'.
      apply for_raise_inv in Ef' as (tmpl & g2 & Hin & Hr).
      apply infobox_raise_inv in Hr as [-> Hb].
      split; [reflexivity|]. split; [reflexivity|]. now exists pj, tmpl.
    - left. split; [reflexivity|].
      unfold build_graph_for_title, parse_cached_json in H.
      rewrite Hc in H. now injection H as <-. }
  split; [apply Hfwd|].
  intros [[Hc ->]|(-> & -> & pj & tmpl & Hc & Hin & Hb)].
  - unfold build_graph_for_title, parse_cached_json. now rewrite Hc.
  - destruct (infobox_raises (resource_uri KG_BASE title) tmpl mappings
                empty_graph Hb) as [e1 He1].
    destruct (build_raises KG_BASE TG_WIKI_BASE urlsplit filter_templates
                cache title mappings pj tmpl e1 Hc Hin He1) as [e' He'].
    destruct (Hfwd e' He') as [[Hn _]|(_ & -> & _)]; [congruence|exact He'].
Qed.
End AssemblerMore.

Section AssemblerStatements.
Variable KG_BASE : str.
Variable TG_WIKI_BASE : str.
Variable urlsplit : str -> Res SplitResult.
Variable filter_templates : str -> list Template.
Variable cache : str -> option PageJson.

Lemma build_inv (title : str) (mappings : Mappings)
  (include_infobox : bool) (g : Graph) :
  build_graph_for_title KG_BASE TG_WIKI_BASE urlsplit filter_templates cache
    title mappings include_infobox = Return g ->
  exists parse_json,
    cache title = Some parse_json /\
    when include_infobox
      (for_ (find_mapped_templates filter_templates
               (extract_wikitext parse_json) mappings)
         (fun tmpl =>
            apply_infobox KG_BASE TG_WIKI_BASE urlsplit
              (resource_uri KG_BASE title) tmpl mappings))
      (add_all
         (page_statements KG_BASE TG_WIKI_BASE urlsplit title parse_json)
         empty_graph) = (Return tt, g).
Proof.
  intros H. destruct (cache title) as [pj|] eqn:Hc.
  - exists pj. split; [reflexivity|].
    rewrite (build_graph_for_title_run KG_BASE TG_WIKI_BASE urlsplit
               filter_templates cache title mappings include_infobox
               pj Hc) in H.
    destruct (when _ _ _) as [[[]|e] g1]; [|discriminate H].
    now injection H as ->.
  - unfold build_graph_for_title, parse_cached_json in H.
    rewrite Hc in H. discriminate H.
Qed.

(** X12.  With the infobox step on, the graph of a page holds an
    [rdf:type] statement on the entity for the class and for the
    project class of every template of the page that the configuration
    maps. *)
Theorem build_type_statements (title : str) (mappings : Mappings)
  (parse_json : PageJson) (tmpl : Template) (spec : Spec) (cls : str)
  (g : Graph) :
  cache title = Some parse_json ->
  build_graph_for_title KG_BASE TG_WIKI_BASE urlsplit filter_templates cache
    title mappings true = Return g ->
  In tmpl (filter_templates (extract_wikitext parse_json)) ->
  dict_get mappings (normalize_template_name (t_name tmpl)) = Some spec ->
  spec_class spec = Some cls \/ spec_tg_class spec = Some cls ->
  truthy cls = true ->
  In (resource_uri KG_BASE title, RDF_type, URIRef cls) g.
Proof.
  intros Hc Hb Hin Hspec Hcls Ht.
  apply build_inv in Hb as (pj & Hc' & Hrun).
  rewrite Hc in Hc'. injection Hc' as <-. cbn [when] in Hrun.
  assert (Hm : In tmpl (find_mapped_templates filter_templates
                          (extract_wikitext parse_json) mappings)).
  { unfold find_mapped_templates. apply filter_In. split; [exact Hin|].
    unfold dict_has. now rewrite Hspec. }
  replace g with (snd (for_ (find_mapped_templates filter_templates
                               (extract_wikitext parse_json) mappings)
                         (fun tmpl0 =>
                            apply_infobox KG_BASE TG_WIKI_BASE urlsplit
                              (resource_uri KG_BASE title) tmpl0 mappings)
                         (add_all
                            (page_statements KG_BASE TG_WIKI_BASE urlsplit
                               title parse_json) empty_graph)))
    by now rewrite Hrun.
  apply (for_In_added _ _ tmpl).
  - intros y. apply steady_apply_infobox.
  - exact Hm.
  - now rewrite Hrun.
  - intros g1. unfold apply_infobox. rewrite Hspec.
    assert (Hst : spec_truthy spec = true).
    { unfold spec_truthy.
      destruct Hcls as [-> | ->]; [reflexivity|].
      now destruct (spec_class spec). }
    rewrite Hst. cbn [negb]. intros Hr.
    set (t := (resource_uri KG_BASE title, RDF_type, URIRef cls)).
    assert (Hfor : forall fields,
              steady (for_ (t_params tmpl)
                        (apply_infobox_param KG_BASE TG_WIKI_BASE urlsplit
                           (resource_uri KG_BASE title) fields))).
    { intros fields. apply steady_for. intros y.
      apply steady_apply_infobox_param. }
    unfold bind at 1.
    destruct Hcls as [E|E].
    + rewrite E, Ht. cbn [when add].
      match goal with
      | |- In t (snd (bind ?c ?k ?g0)) =>
          assert (Hs : steady (bind c k));
          [apply steady_bind; [steady_cases|intros; apply Hfor]|];
          apply (proj1 Hs); apply g_add_In
      end.
    + match goal with
      | |- In t (snd (match ?c g1 with _ => _ end)) =>
          assert (Hr1 : returns c) by returns_cases;
          destruct (Hr1 g1) as ([] & g2 & ->)
      end.
      unfold bind at 1. rewrite E, Ht. cbn [when add].
      apply (proj1 (Hfor _)). apply g_add_In.
Qed.
End AssemblerStatements.

Section AssemblerShape.
Variable KG_BASE : str.
Variable TG_WIKI_BASE : str.
Variable urlsplit : str -> Res SplitResult.
Variable filter_templates : str -> list Template.
Variable cache : str -> option PageJson.

Lemma extract_links_In (parse_json : PageJson) (t : str) :
  In t (extract_links parse_json) <->
  In (LinkDict (Some t)) (pj_links parse_json) /\ content_title t = true.
Proof.
  unfold extract_links, content_title. rewrite in_flat_map. split.
  - intros (l & Hl & H). destruct l as [[title|]|]; try destruct H.
    destruct (truthy title && _) eqn:E; [|destruct H].
    destruct H as [<-|[]]. now split.
  - intros [Hl Hc]. exists (LinkDict (Some t)). split; [exact Hl|].
    rewrite Hc. now left.
Qed.

(** X13.  The graph of a page relates the entity to the entity of
    every internal link whose title is not empty and outside the
    non-content namespaces; with the infobox step off these are the
    only [schema:relatedTo] statements of the entity. *)
Theorem build_related_statements (title : str) (mappings : Mappings)
  (include_infobox : bool) (parse_json : PageJson) (g : Graph) :
  cache title = Some parse_json ->
  build_graph_for_title KG_BASE TG_WIKI_BASE urlsplit filter_templates cache
    title mappings include_infobox = Return g ->
  let r := resource_uri KG_BASE title in
  (forall t,
     In (LinkDict (Some t)) (pj_links parse_json) ->
     content_title t = true ->
     In (r, SCHEMA "relatedTo", resource_uri KG_BASE t) g) /\
  (include_infobox = false ->
   forall o,
     In (r, SCHEMA "relatedTo", o) g ->
     exists t,
       In (LinkDict (Some t)) (pj_links parse_json) /\
       content_title t = true /\ o = resource_uri KG_BASE t).
Proof.
  intros Hc Hb r. split.
  - intros t Hl Ht.
    apply (build_keeps_page_statements KG_BASE TG_WIKI_BASE urlsplit
             filter_templates cache title mappings include_infobox
             parse_json g _ Hc Hb).
    unfold page_statements. apply in_or_app. right. apply in_or_app. left.
    apply (in_map (related_statement KG_BASE (resource_uri KG_BASE title))).
    now apply extract_links_In.
  - intros -> o Hin.
    apply build_inv in Hb as (pj & Hc' & Hrun).
    rewrite Hc in Hc'. injection Hc' as <-. cbn [when ret] in Hrun.
    injection Hrun as <-.
    apply (proj1 (add_all_In
                    (page_statements KG_BASE TG_WIKI_BASE urlsplit title
                       parse_json) empty_graph _)) in Hin as [Hin|Hin];
      [exfalso; exact Hin|].
    unfold page_statements in Hin.
    assert (Hp : forall x : triple,
              x = (r, SCHEMA "relatedTo", o) ->
              snd (fst x) = SCHEMA "relatedTo") by now intros x ->.
    assert (Hd : SCHEMA "about" <> SCHEMA "relatedTo" /\
                 SCHEMA "url" <> SCHEMA "relatedTo" /\
                 RDFS_label <> SCHEMA "relatedTo" /\
                 OWL_sameAs <> SCHEMA "relatedTo")
      by (repeat split; intros E; vm_compute in E; discriminate).
    destruct Hd as (D1 & D2 & D3 & D4).
    apply in_app_or in Hin as [Hin|Hin];
      [|apply in_app_or in Hin as [Hin|Hin]].
    + exfalso. unfold core_statements in Hin. cbn [In] in Hin.
      repeat match goal with
             | H : _ \/ _ |- _ => destruct H as [H|H]
             | H : False |- _ => destruct H
             end;
        apply Hp in Hin; cbn [fst snd] in Hin; auto.
    + apply in_map_iff in Hin as (t & E & Ht).
      apply extract_links_In in Ht as [Hl Ht]. exists t.
      unfold related_statement in E. injection E as <-. now repeat split.
    + exfalso. apply in_map_iff in Hin as (u & E & _).
      apply Hp in E. unfold external_statement in E.
      destruct (safe_iri urlsplit u) as [[iri|]|e]; cbn [fst snd] in E; auto.
      destruct (contains _ _); cbn [fst snd] in E; auto.
Qed.

(** X14.  Every statement of the graph of a page has the page's
    document or its entity as subject and an IRI as predicate. *)
Theorem build_statements_about_page (title : str) (mappings : Mappings)
  (include_infobox : bool) (g : Graph) (s p o : term) :
  build_graph_for_title KG_BASE TG_WIKI_BASE urlsplit filter_templates cache
    title mappings include_infobox = Return g ->
  In (s, p, o) g ->
  (s = page_uri KG_BASE title \/ s = resource_uri KG_BASE title) /\
  exists iri, p = URIRef iri.
Proof.
  intros Hb Hin. apply build_inv in Hb as (pj & Hc & Hrun).
  set (P := fun x : triple =>
              (fst (fst x) = page_uri KG_BASE title \/
               fst (fst x) = resource_uri KG_BASE title) /\
              exists iri, snd (fst x) = URIRef iri).
  change (P (s, p, o)).
  assert (Hadd : forall q v,
            P (resource_uri KG_BASE title, URIRef q, v)).
  { intros q v. split; [now right|now exists q]. }
  assert (Hparam : forall fields param,
            confined P (apply_infobox_param KG_BASE TG_WIKI_BASE urlsplit
                          (resource_uri KG_BASE title) fields param)).
  { intros fields param. unfold apply_infobox_param, rule_property_item.
    confined_cases; apply Hadd. }
  assert (Hbox : forall tmpl,
            confined P (apply_infobox KG_BASE TG_WIKI_BASE urlsplit
                          (resource_uri KG_BASE title) tmpl mappings)).
  { intros tmpl. unfold apply_infobox.
    confined_cases; try apply Hadd; apply Hparam. }
  assert (Hpage : forall x,
            In x (page_statements KG_BASE TG_WIKI_BASE urlsplit title pj) ->
            P x).
  { intros x Hx. unfold page_statements in Hx.
    apply in_app_or in Hx as [Hx|Hx];
      [|apply in_app_or in Hx as [Hx|Hx]].
    - unfold core_statements in Hx. cbn [In] in Hx.
      repeat match goal with
             | H : _ \/ _ |- _ => destruct H as [H|H]
             | H : False |- _ => destruct H
             end; subst x;
        (split; [cbn [fst]; tauto|eexists; reflexivity]).
    - apply in_map_iff in Hx as (t & <- & _). apply Hadd.
    - apply in_map_iff in Hx as (u & <- & _). unfold external_statement.
      destruct (safe_iri urlsplit u) as [[iri|]|e];
        try destruct (contains _ _);
        (split; [cbn [fst]; tauto|eexists; reflexivity]). }
  assert (Hc0 : confined P
            (when include_infobox
               (for_ (find_mapped_templates filter_templates
                        (extract_wikitext pj) mappings)
                  (fun tmpl =>
                     apply_infobox KG_BASE TG_WIKI_BASE urlsplit
                       (resource_uri KG_BASE title) tmpl mappings)))).
  { apply confined_when, confined_for. intros tmpl. apply Hbox. }
  apply (Hc0 (add_all (page_statements KG_BASE TG_WIKI_BASE urlsplit
                         title pj) empty_graph)).
  - intros x Hx.
    apply (proj1 (add_all_In
                    (page_statements KG_BASE TG_WIKI_BASE urlsplit title pj)
                    empty_graph _)) in Hx as [Hx|Hx]; [exfalso; exact Hx|].
    now apply Hpage.
  - now rewrite Hrun.
Qed.
End AssemblerShape.

(* ================================================================== *)
(** * The batch driver *)
(* ================================================================== *)

Lemma decimal_fuel_acc (fuel n : nat) (acc : str) :
  decimal_fuel fuel n acc = decimal_fuel fuel n [] ++ acc.
Proof.
  revert n acc. induction fuel as [|f IH]; intros n acc; [reflexivity|].
  cbn [decimal_fuel]. destruct (n / 10 =? 0); [reflexivity|].
  rewrite IH. rewrite (IH _ [_]). now rewrite <- app_assoc.
Qed.

Lemma digit_char_value (n : nat) :
  n < 10 -> nat_of_ascii (digit_char n) - 48 = n.
Proof.
  intros H. unfold digit_char. rewrite nat_ascii_embedding; lia.
Qed.

Lemma decimal_value_snoc (s : str) (c : ascii) :
  decimal_value (s ++ [c]) = 10 * decimal_value s + (nat_of_ascii c - 48).
Proof. unfold decimal_value. now rewrite fold_left_app. Qed.

Lemma decimal_fuel_value (fuel n : nat) :
  n < fuel -> decimal_value (decimal_fuel fuel n []) = n.
Proof.
  revert n. induction fuel as [|f IH]; intros n Hn; [lia|].
  cbn [decimal_fuel].
  pose proof (Nat.div_mod_eq n 10) as Hdm.
  pose proof (Nat.mod_upper_bound n 10) as Hm.
  destruct (n / 10 =? 0) eqn:E.
  - apply Nat.eqb_eq in E. unfold decimal_value. cbn [fold_left].
    rewrite digit_char_value; lia.
  - apply Nat.eqb_neq in E. rewrite decimal_fuel_acc, decimal_value_snoc.
    rewrite IH by lia. rewrite digit_char_value; lia.
Qed.

Lemma decimal_value_zeros (k : nat) (s : str) :
  decimal_value (repeat "0"%char k ++ s) = decimal_value s.
Proof.
  unfold decimal_value. rewrite fold_left_app.
  replace (fold_left _ (repeat "0"%char k) 0) with 0; [reflexivity|].
  induction k as [|k IH]; [reflexivity|]. cbn [repeat fold_left].
  exact IH.
Qed.

(** The part number can be read back from the file name. *)
Lemma fmt_04d_value (n : nat) : decimal_value (fmt_04d n) = n.
Proof.
  unfold fmt_04d. cbv zeta. rewrite decimal_value_zeros.
  apply decimal_fuel_value. lia.
Qed.

Lemma fmt_04d_injective (a b : nat) : fmt_04d a = fmt_04d b -> a = b.
Proof.
  intros E. rewrite <- (fmt_04d_value a), <- (fmt_04d_value b).
  now rewrite E.
Qed.

Section Driver.
Variable KG_BASE : str.
Variable TG_WIKI_BASE : str.
Variable TTL_OUT_DIR : str.
Variable urlsplit : str -> Res SplitResult.
Variable filter_templates : str -> list Template.
Variable cache : str -> option PageJson.
Variable makedirs : Res unit.
Variable serialize : str -> Graph -> Res unit.
Variable out_prefix : str.
Variable mappings : Mappings.
Variable include_infobox : bool.
Variable chunk_size : Z.
Variable max_pages : option Z.

Local Abbreviation build title :=
  (build_graph_for_title KG_BASE TG_WIKI_BASE urlsplit filter_templates
     cache title mappings include_infobox).
Local Abbreviation do_flush d :=
  (flush TTL_OUT_DIR serialize out_prefix d).
Local Abbreviation process title d :=
  (process_title KG_BASE TG_WIKI_BASE TTL_OUT_DIR urlsplit filter_templates
     cache serialize out_prefix mappings include_infobox chunk_size title d).
Local Abbreviation run titles d :=
  (run_titles KG_BASE TG_WIKI_BASE TTL_OUT_DIR urlsplit filter_templates
     cache serialize out_prefix mappings include_infobox chunk_size
     max_pages titles d).
Local Abbreviation driver titles :=
  (build_kg_chunked KG_BASE TG_WIKI_BASE TTL_OUT_DIR urlsplit
     filter_templates cache makedirs serialize out_prefix mappings
     include_infobox chunk_size max_pages titles).
Local Abbreviation part_path n :=
  (os_path_join TTL_OUT_DIR
     (out_prefix ++ py "_part" ++ fmt_04d n ++ py ".ttl")).

(** The three ways in which [flush] ends. *)
Lemma flush_cases (d : Driver) :
  (chunk d = [] /\ do_flush d = (Return tt, d)) \/
  (chunk d <> [] /\
   exists e, serialize (part_path (part d)) (chunk d) = Raise e /\
             do_flush d = (Raise e, d)) \/
  (chunk d <> [] /\
   serialize (part_path (part d)) (chunk d) = Return tt /\
   do_flush d = (Return tt, write_part (part_path (part d)) d)).
Proof.
  unfold flush. destruct (chunk d) as [|x c] eqn:Ec; [now left|right].
  cbn [length Nat.eqb].
  destruct (serialize _ (x :: c)) as [[]|e] eqn:Es.
  - right. repeat split; discriminate || reflexivity.
  - left. split; [discriminate|]. now exists e.
Qed.

(** The ways in which one title is handled. *)
Lemma process_cases (title : str) (d : Driver) :
  (exists e, build title = Raise e /\ process title d = warn title e d) \/
  exists g,
    build title = Return g /\
    let d1 := merge_page g d in
    (chunk_size = 0%Z /\ process title d = warn title ZeroDivisionError d1) \/
    (chunk_size <> 0%Z /\ process title d = d1) \/
    (chunk_size <> 0%Z /\ chunk d1 <> [] /\
     serialize (part_path (part d1)) (chunk d1) = Return tt /\
     process title d = write_part (part_path (part d1)) d1) \/
    (chunk_size <> 0%Z /\ chunk d1 <> [] /\
     exists e, serialize (part_path (part d1)) (chunk d1) = Raise e /\
               process title d = warn title e d1).
Proof.
  unfold process_title. destruct (build title) as [g|e]; [right|left].
  - exists g. split; [reflexivity|]. cbv zeta.
    destruct (chunk_size =? 0)%Z eqn:E0.
    + apply Z.eqb_eq in E0. now left.
    + apply Z.eqb_neq in E0. right.
      destruct (_ mod chunk_size =? 0)%Z; [|now left].
      destruct (flush_cases (merge_page g d))
        as [[Hc ->]|[(Hc & e & Hs & ->)|(Hc & Hs & ->)]].
      * now left.
      * right. right. repeat split; trivial. now exists e.
      * right. left. now repeat split.
  - now exists e.
Qed.

(** An invariant of the loop: it is enough that merging a page that
    was built, writing a chunk that was serialized and printing a
    warning keep it.  [W] is what is known of a warning. *)
Lemma run_invariant (I : Driver -> Prop) (W : str -> exn -> Prop)
  (titles : list str) :
  (forall title e, In title titles -> build title = Raise e -> W title e) ->
  (forall title g, In title titles -> build title = Return g ->
     chunk_size = 0%Z -> W title ZeroDivisionError) ->
  (forall title g e out_path gr, In title titles ->
     build title = Return g -> serialize out_path gr = Raise e ->
     W title e) ->
  (forall title e d, W title e -> I d -> I (warn title e d)) ->
  (forall title g d, In title titles -> build title = Return g ->
     I d -> I (merge_page g d)) ->
  (forall d, chunk d <> [] ->
     serialize (part_path (part d)) (chunk d) = Return tt ->
     I d -> I (write_part (part_path (part d)) d)) ->
  forall d, I d -> I (run titles d).
Proof.
  intros W1 W2 W3 Hwarn Hmerge Hwrite.
  assert (Hp : forall title d, In title titles -> I d -> I (process title d)).
  { intros title d Hin Hd.
    destruct (process_cases title d) as [(e & Hb & ->)|(g & Hb & H)].
    - apply Hwarn; [now apply W1|exact Hd].
    - cbv zeta in H. pose proof (Hmerge title g d Hin Hb Hd) as H1.
      destruct H as [[Hz ->]|[[_ ->]|[(_ & Hc & Hs & ->)
                                     |(_ & Hc & e & Hs & ->)]]].
      + apply Hwarn; [now apply (W2 title g)|exact H1].
      + exact H1.
      + now apply Hwrite.
      + apply Hwarn; [now apply (W3 title g e _ _ Hin Hb Hs)|exact H1]. }
  assert (H : forall l, (forall x, In x l -> In x titles) ->
                        forall d, I d -> I (run l d)).
  { induction l as [|title rest IH]; intros Hl d Hd; [exact Hd|].
    assert (Hgo : I (run rest (process title d))).
    { apply IH; [intros x Hx; apply Hl; now right|].
      apply Hp; [apply Hl; now left|exact Hd]. }
    cbn [run_titles]. destruct max_pages as [mx|]; [|exact Hgo].
    destruct (mx <=? Z.of_nat (processed d))%Z; [exact Hd|exact Hgo]. }
  apply H. auto.
Qed.

(** The ways in which the call ends. *)
Lemma driver_cases (titles : list str) :
  let d := run titles initial_driver in
  (exists e, makedirs = Raise e /\
             driver titles = (Raise e, initial_driver)) \/
  (makedirs = Return tt /\ chunk d <> [] /\
   exists e, serialize (part_path (part d)) (chunk d) = Raise e /\
             driver titles = (Raise e, d)) \/
  (makedirs = Return tt /\ chunk d = [] /\
   driver titles = (Return (produced d), report_done d)) \/
  (makedirs = Return tt /\ chunk d <> [] /\
   serialize (part_path (part d)) (chunk d) = Return tt /\
   driver titles =
     (Return (produced (write_part (part_path (part d)) d)),
      report_done (write_part (part_path (part d)) d))).
Proof.
  cbv zeta. unfold build_kg_chunked.
  destruct makedirs as [[]|e]; [right|left; now exists e].
  destruct (flush_cases (run titles initial_driver))
    as [[Hc ->]|[(Hc & e & Hs & ->)|(Hc & Hs & ->)]].
  - right. left. now repeat split.
  - left. repeat split; trivial. now exists e.
  - right. right. now repeat split.
Qed.

Lemma process_processed (title : str) (d : Driver) :
  processed (process title d) =
  processed d + match build title with Return _ => 1 | Raise _ => 0 end.
Proof.
  destruct (process_cases title d) as [(e & -> & ->)|(g & -> & H)].
  - cbn [processed warn]. lia.
  - cbv zeta in H.
    destruct H as [[_ ->]|[[_ ->]|[(_ & _ & _ & ->)|(_ & _ & e & _ & ->)]]];
      reflexivity.
Qed.

Lemma driver_processed (titles : list str) :
  processed (snd (driver titles)) = processed (run titles initial_driver) \/
  (processed (snd (driver titles)) = 0 /\ exists e, makedirs = Raise e).
Proof.
  destruct (driver_cases titles)
    as [(e & He & ->)|[(_ & _ & e & _ & ->)|[(_ & _ & ->)|(_ & _ & _ & ->)]]];
    [right; split; [reflexivity|now exists e]|now left..].
Qed.

(** X15.  With a page limit the driver counts at most that many
    pages (none when the limit is zero or negative) and never more than
    there are titles, whether the call returns or raises. *)
Theorem driver_respects_limit (titles : list str) (mx : Z) :
  max_pages = Some mx ->
  let d := snd (driver titles) in
  (Z.of_nat (processed d) <= Z.max 0 mx)%Z /\
  processed d <= length titles.
Proof.
  intros Hmx. cbv zeta.
  assert (H : forall l d,
            (Z.of_nat (processed d) <= Z.max 0 mx)%Z ->
            (Z.of_nat (processed (run l d)) <= Z.max 0 mx)%Z /\
            processed (run l d) <= processed d + length l).
  { induction l as [|title rest IH]; intros d Hd; [cbn; lia|].
    cbn [run_titles length]. rewrite Hmx.
    destruct (mx <=? Z.of_nat (processed d))%Z eqn:E; [lia|].
    apply Z.leb_gt in E.
    pose proof (process_processed title d) as Hp.
    destruct (IH (process title d)) as [H1 H2];
      [destruct (build title); lia|].
    rewrite <- Hmx. destruct (build title); lia. }
  destruct (H titles initial_driver) as [H1 H2];
    [cbn [processed initial_driver]; lia|].
  cbn [processed initial_driver] in H2.
  destruct (driver_processed titles) as [-> |[-> _]]; lia.
Qed.

Lemma write_part_stored (out_path : str) (d : Driver) (t : triple) :
  stored (write_part out_path d) t <-> stored d t.
Proof.
  unfold stored, in_files, write_part. cbn [chunk written]. split.
  - intros [[]|(pf & Hpf & Ht)].
    apply in_app_or in Hpf as [Hpf|[<-|[]]]; [right; now exists pf|now left].
  - intros [H|(pf & Hpf & Ht)]; right.
    + eexists. split; [apply in_or_app; right; now left|exact H].
    + exists pf. split; [apply in_or_app; now left|exact Ht].
Qed.

Lemma merge_page_stored (g : Graph) (d : Driver) (t : triple) :
  stored (merge_page g d) t <-> stored d t \/ In t g.
Proof.
  unfold stored, in_files, merge_page. cbn [chunk written].
  change (fold_left (fun c x => g_add x c) g (chunk d))
    with (add_all g (chunk d)).
  rewrite add_all_In. tauto.
Qed.

Lemma process_stored (title : str) (d : Driver) (t : triple) :
  stored (process title d) t <->
  stored d t \/ exists g, build title = Return g /\ In t g.
Proof.
  destruct (process_cases title d) as [(e & Hb & ->)|(g & Hb & H)].
  - rewrite Hb. split; [intros H; now left|].
    intros [H|(g & Hg & _)]; [exact H|discriminate Hg].
  - assert (H2 : (exists g0, build title = Return g0 /\ In t g0) <-> In t g).
    { rewrite Hb. split; [intros (g0 & [= <-] & Hg); exact Hg|].
      intros Hg. now exists g. }
    rewrite H2, <- merge_page_stored. cbv zeta in H.
    destruct H as [[_ ->]|[[_ ->]|[(_ & _ & _ & ->)|(_ & _ & e & _ & ->)]]];
      try reflexivity.
    apply write_part_stored.
Qed.

Lemma driver_stored (titles : list str) (t : triple) :
  makedirs = Return tt ->
  (stored (snd (driver titles)) t <-> stored (run titles initial_driver) t) /\
  (forall paths, fst (driver titles) = Return paths ->
     chunk (snd (driver titles)) = []).
Proof.
  intros Hm.
  destruct (driver_cases titles)
    as [(e & He & _)|[(_ & _ & e & _ & ->)|[(_ & Hc & ->)|(_ & _ & _ & ->)]]].
  - rewrite Hm in He. discriminate He.
  - split; [reflexivity|intros paths H; discriminate H].
  - split; [reflexivity|intros _ _; exact Hc].
  - split; [|reflexivity].
    exact (write_part_stored _ (run titles initial_driver) t).
Qed.

(** X16.  Every statement in a file that was written belongs to the
    graph of a title that was built.  When the call returns and the
    page limit, if any, is not below the number of titles, every
    statement of every page that was built is in a written file,
    whatever the chunk size and whichever attempts to serialize a chunk
    failed on the way. *)
Theorem driver_files_hold_the_pages (titles : list str) (t : triple) :
  let d := snd (driver titles) in
  (in_files d t ->
   exists title g, In title titles /\ build title = Return g /\ In t g) /\
  (forall paths,
     fst (driver titles) = Return paths ->
     match max_pages with
     | Some mx => (Z.of_nat (length titles) <= mx)%Z
     | None => True
     end ->
     forall title g,
       In title titles -> build title = Return g -> In t g ->
       in_files d t).
Proof.
  cbv zeta. split.
  - intros Hin.
    assert (Hs : stored (run titles initial_driver) t).
    { destruct (driver_cases titles) as [(e & He & E)|Hok].
      - rewrite E in Hin. destruct Hin as (pf & [] & _).
      - assert (Hm : makedirs = Return tt)
          by (destruct Hok as [(H & _)|[(H & _)|(H & _)]]; exact H).
        apply (driver_stored titles t Hm). now right. }
    assert (H : forall l d,
              stored (run l d) t ->
              stored d t \/
              exists title g, In title l /\ build title = Return g /\ In t g).
    { induction l as [|title rest IH]; intros d Hr; [now left|].
      assert (Hrest : stored (run rest (process title d)) t ->
                stored d t \/
                exists title0 g,
                  In title0 (title :: rest) /\
                  build title0 = Return g /\ In t g).
      { intros Hr'. apply IH in Hr' as [Hp|(t0 & g & Hin0 & Hg)].
        - apply process_stored in Hp as [Hp|(g & Hg & Ht)]; [now left|right].
          exists title, g. split; [now left|now split].
        - right. exists t0, g. split; [now right|exact Hg]. }
      cbn [run_titles] in Hr. destruct max_pages as [mx|];
        [destruct (mx <=? Z.of_nat (processed d))%Z; [now left|]|];
        now apply Hrest. }
    apply H in Hs as [[[]|(pf & [] & _)]|Hs]. exact Hs.
  - intros paths Hret Hmax title g Hin Hg Ht.
    assert (Hm : makedirs = Return tt).
    { destruct (driver_cases titles) as [(e & _ & E)|Hok].
      - rewrite E in Hret. discriminate Hret.
      - destruct Hok as [(H & _)|[(H & _)|(H & _)]]; exact H. }
    destruct (driver_stored titles t Hm) as [Hiff Hchunk].
    assert (H : forall l d,
              match max_pages with
              | Some mx => (Z.of_nat (processed d + length l) <= mx)%Z
              | None => True
              end ->
              stored d t \/ In title l ->
              stored (run l d) t).
    { induction l as [|x rest IH]; intros d Hlim [Hs|Hl];
        [exact Hs|destruct Hl| |].
      - assert (Hgo : stored (run rest (process x d)) t).
        { apply IH; [|left; apply process_stored; now left].
          destruct max_pages as [mx|]; [|exact I].
          rewrite process_processed. cbn [length] in Hlim.
          destruct (build x); lia. }
        cbn [run_titles]. destruct max_pages as [mx|]; [|exact Hgo].
        destruct (mx <=? Z.of_nat (processed d))%Z eqn:E; [|exact Hgo].
        apply Z.leb_le in E. cbn [length] in Hlim. lia.
      - assert (Hgo : stored (run rest (process x d)) t).
        { apply IH.
          - destruct max_pages as [mx|]; [|exact I].
            rewrite process_processed. cbn [length] in Hlim.
            destruct (build x); lia.
          - destruct Hl as [->|Hl]; [left|now right].
            apply process_stored. right. now exists g. }
        cbn [run_titles]. destruct max_pages as [mx|]; [|exact Hgo].
        destruct (mx <=? Z.of_nat (processed d))%Z eqn:E; [|exact Hgo].
        apply Z.leb_le in E. cbn [length] in Hlim. lia. }
    assert (Hs : stored (snd (driver titles)) t).
    { apply Hiff. apply H; [|now right].
      destruct max_pages as [mx|]; [|exact I].
      cbn [processed initial_driver Nat.add]. exact Hmax. }
    destruct Hs as [Hs|Hs]; [|exact Hs].
    rewrite (Hchunk paths Hret) in Hs. destruct Hs.
Qed.

Lemma NoDup_map_injective {A B} (f : A -> B) (l : list A) :
  (forall a b, f a = f b -> a = b) -> NoDup l -> NoDup (map f l).
Proof.
  intros Hf Hl. induction Hl as [|x l Hx Hl IH]; cbn [map]; constructor.
  - intros Hin. apply in_map_iff in Hin as (y & E & Hy).
    apply Hf in E. now subst y.
  - exact IH.
Qed.

Lemma part_path_injective (a b : nat) : part_path a = part_path b -> a = b.
Proof.
  unfold os_path_join.
  assert (Hs : forall n,
            startswith (out_prefix ++ py "_part" ++ fmt_04d n ++ py ".ttl")
              (py "/") =
            startswith (out_prefix ++ py "_part") (py "/")).
  { intros n. destruct out_prefix as [|c r]; [reflexivity|].
    change (py "/") with ["/"%char]. cbn [app startswith].
    assert (Hnil : forall x, startswith x [] = true) by now destruct x.
    now rewrite !Hnil. }
  rewrite !Hs. intros E.
  assert (E' : out_prefix ++ py "_part" ++ fmt_04d a ++ py ".ttl" =
               out_prefix ++ py "_part" ++ fmt_04d b ++ py ".ttl").
  { destruct (startswith (out_prefix ++ py "_part") (py "/")); [exact E|].
    destruct (negb (truthy TTL_OUT_DIR) || _).
    - now apply app_inv_head in E.
    - apply app_inv_head in E. now apply app_inv_head in E. }
  apply app_inv_head in E'. apply app_inv_head in E'.
  apply app_inv_tail in E'. now apply fmt_04d_injective.
Qed.

(** X17.  Whether the call returns or raises, the files that were
    written are the part files numbered 1, 2, ... without gaps, their
    paths are pairwise distinct and are the paths collected so far, none
    is empty and each was serialized without an exception.  When the
    call returns, it returns these paths and the chunk is empty. *)
Theorem driver_files (titles : list str) :
  let d := snd (driver titles) in
  produced d = map fst (written d) /\
  produced d = map (fun n => part_path n) (seq 1 (length (written d))) /\
  NoDup (produced d) /\
  (forall pf, In pf (written d) ->
     snd pf <> [] /\ serialize (fst pf) (snd pf) = Return tt) /\
  (forall paths, fst (driver titles) = Return paths ->
     paths = produced d /\ chunk d = []).
Proof.
  set (J := fun d : Driver =>
              produced d = map fst (written d) /\
              produced d = map (fun n => part_path n)
                             (seq 1 (length (written d))) /\
              part d = S (length (written d)) /\
              (forall pf, In pf (written d) ->
                 snd pf <> [] /\ serialize (fst pf) (snd pf) = Return tt)).
  assert (Hwrite : forall d, chunk d <> [] ->
            serialize (part_path (part d)) (chunk d) = Return tt ->
            J d -> J (write_part (part_path (part d)) d)).
  { intros d Hc Hs (J1 & J2 & J3 & J4). unfold J, write_part.
    cbn [produced written part].
    rewrite !map_app, !length_app, J1. cbn [map fst length].
    rewrite Nat.add_1_r, seq_S, map_app. cbn [map].
    repeat split.
    - rewrite <- J1, J2, J3. reflexivity.
    - lia.
    - apply in_app_or in H as [H|[<-|[]]]; [now apply J4|exact Hc].
    - apply in_app_or in H as [H|[<-|[]]]; [now apply J4|exact Hs]. }
  assert (Hrun : J (run titles initial_driver)).
  { apply (run_invariant J (fun _ _ => True)); trivial.
    unfold J. cbn [produced written part initial_driver map length seq].
    split; [reflexivity|]. split; [reflexivity|]. split; [reflexivity|].
    intros pf []. }
  assert (Hfinal : J (snd (driver titles)) /\
                   forall paths, fst (driver titles) = Return paths ->
                     paths = produced (snd (driver titles)) /\
                     chunk (snd (driver titles)) = []).
  { destruct (driver_cases titles)
      as [(e & _ & ->)|[(_ & _ & e & _ & ->)|[(_ & Hc & ->)
                                            |(_ & Hc & Hs & ->)]]];
      cbn [fst snd].
    - split; [|intros paths H; discriminate H].
      unfold J. cbn [produced written part initial_driver map length seq].
      split; [reflexivity|]. split; [reflexivity|]. split; [reflexivity|].
      intros pf [].
    - split; [exact Hrun|intros paths H; discriminate H].
    - split; [exact Hrun|]. intros paths [= <-]. now split.
    - split; [exact (Hwrite _ Hc Hs Hrun)|]. intros paths [= <-]. now split. }
  destruct Hfinal as [(J1 & J2 & J3 & J4) Hret]. cbv zeta.
  split; [exact J1|]. split; [exact J2|]. split; [|split; [exact J4|exact Hret]].
  rewrite J2. apply NoDup_map_injective; [|apply seq_NoDup].
  intros a b. apply part_path_injective.
Qed.

Lemma warnings_app (a b : list Event) :
  warnings (a ++ b) = warnings a ++ warnings b.
Proof. unfold warnings. apply flat_map_app. Qed.

Lemma merge_page_warnings (g : Graph) (d : Driver) :
  warnings (stdout (merge_page g d)) = warnings (stdout d).
Proof.
  unfold merge_page. cbn [stdout].
  destruct (_ mod 50 =? 0); [|reflexivity].
  rewrite warnings_app. apply app_nil_r.
Qed.

Lemma write_part_warnings (out_path : str) (d : Driver) :
  warnings (stdout (write_part out_path d)) = warnings (stdout d).
Proof.
  unfold write_part. cbn [stdout]. rewrite warnings_app. apply app_nil_r.
Qed.

Lemma warn_warnings (title : str) (e : exn) (d : Driver) :
  warnings (stdout (warn title e d)) = warnings (stdout d) ++ [(title, e)].
Proof. unfold warn. cbn [stdout]. now rewrite warnings_app. Qed.

(** What one title adds to the warnings. *)
Lemma process_warnings (title : str) (d : Driver) :
  exists ws,
    warnings (stdout (process title d)) = warnings (stdout d) ++ ws /\
    (forall e, build title = Raise e -> ws = [(title, e)]) /\
    ((forall out_path gr, serialize out_path gr = Return tt) ->
     ws = match build title with
          | Raise e => [(title, e)]
          | Return _ =>
              if (chunk_size =? 0)%Z then [(title, ZeroDivisionError)]
              else []
          end).
Proof.
  destruct (process_cases title d) as [(e & Hb & ->)|(g & Hb & H)].
  - exists [(title, e)]. rewrite warn_warnings, Hb.
    split; [reflexivity|]. split; [now intros e' [= ->]|reflexivity].
  - cbv zeta in H. rewrite Hb.
    destruct H as [[Hz ->]|[[Hz ->]|[(Hz & _ & _ & ->)
                                    |(Hz & _ & e & Hs & ->)]]].
    + exists [(title, ZeroDivisionError)].
      rewrite warn_warnings, merge_page_warnings, Hz.
      split; [reflexivity|]. split; [intros e H; discriminate H|reflexivity].
    + exists []. rewrite merge_page_warnings, app_nil_r.
      apply Z.eqb_neq in Hz. rewrite Hz.
      split; [reflexivity|]. split; [intros e H; discriminate H|reflexivity].
    + exists []. rewrite write_part_warnings, merge_page_warnings, app_nil_r.
      apply Z.eqb_neq in Hz. rewrite Hz.
      split; [reflexivity|]. split; [intros e H; discriminate H|reflexivity].
    + exists [(title, e)]. rewrite warn_warnings, merge_page_warnings.
      split; [reflexivity|]. split; [intros e' H; discriminate H|].
      intros Hok. rewrite Hok in Hs. discriminate Hs.
Qed.

Lemma driver_warnings (titles : list str) :
  makedirs = Return tt ->
  warnings (stdout (snd (driver titles))) =
  warnings (stdout (run titles initial_driver)).
Proof.
  intros Hm.
  destruct (driver_cases titles)
    as [(e & He & _)|[(_ & _ & e & _ & ->)|[(_ & _ & ->)|(_ & _ & _ & ->)]]];
    cbn [snd report_done stdout].
  - rewrite Hm in He. discriminate He.
  - reflexivity.
  - rewrite warnings_app. apply app_nil_r.
  - rewrite warnings_app, app_nil_r. apply write_part_warnings.
Qed.

(** X18.  When the output directory could be made and there is no
    page limit: the driver counts exactly the titles whose graph was
    built, whether the call returns or raises; every title whose build
    fails is reported with its exception; and every warning is about a
    title of the list and carries the exception of its build or, for a
    title that was built, [ZeroDivisionError] when the chunk size is 0
    or an exception raised by the serializer.  When the serializer
    never raises, the warnings are exactly these, one per failing
    title and in order. *)
Theorem driver_counts (titles : list str) :
  makedirs = Return tt ->
  max_pages = None ->
  let d := snd (driver titles) in
  processed d =
    length (filter (fun title => match build title with
                                 | Return _ => true
                                 | Raise _ => false
                                 end) titles) /\
  (forall title e,
     In title titles -> build title = Raise e ->
     In (title, e) (warnings (stdout d))) /\
  (forall title e,
     In (title, e) (warnings (stdout d)) ->
     In title titles /\
     (build title = Raise e \/
      exists g, build title = Return g /\
        ((chunk_size = 0%Z /\ e = ZeroDivisionError) \/
         exists out_path gr, serialize out_path gr = Raise e))) /\
  ((forall out_path gr, serialize out_path gr = Return tt) ->
   warnings (stdout d) =
   flat_map (fun title => match build title with
                          | Raise e => [(title, e)]
                          | Return _ =>
                              if (chunk_size =? 0)%Z
                              then [(title, ZeroDivisionError)] else []
                          end) titles).
Proof.
  intros Hm Hmax. cbv zeta. rewrite (driver_warnings titles Hm).
  assert (Hrun : forall l d, run (l) d =
            match l with
            | [] => d
            | title :: rest => run rest (process title d)
            end).
  { intros [|title rest] d; [reflexivity|].
    cbn [run_titles]. now rewrite Hmax. }
  split; [|split; [|split]].
  - destruct (driver_processed titles) as [-> |[_ [e He]]];
      [|rewrite Hm in He; discriminate He].
    assert (H : forall l d,
              processed (run l d) =
              processed d +
              length (filter (fun title => match build title with
                                           | Return _ => true
                                           | Raise _ => false
                                           end) l)).
    { induction l as [|title rest IH]; intros d; rewrite Hrun.
      - cbn. lia.
      - rewrite IH, process_processed. cbn [filter].
        destruct (build title); cbn [length]; lia. }
    rewrite H. reflexivity.
  - intros title e Hin Hb.
    assert (H : forall l d,
              In (title, e) (warnings (stdout d)) \/ In title l ->
              In (title, e) (warnings (stdout (run l d)))).
    { induction l as [|x rest IH]; intros d Hd; rewrite Hrun.
      - destruct Hd as [Hd|[]]. exact Hd.
      - apply IH.
        destruct (process_warnings x d) as (ws & -> & Hws & _).
        destruct Hd as [Hd|[->|Hd]].
        + left. apply in_or_app. now left.
        + left. apply in_or_app. right. rewrite (Hws e Hb). now left.
        + now right. }
    apply H. now right.
  - apply (run_invariant
             (fun d => forall title e,
                In (title, e) (warnings (stdout d)) ->
                In title titles /\
                (build title = Raise e \/
                 exists g, build title = Return g /\
                   ((chunk_size = 0%Z /\ e = ZeroDivisionError) \/
                    exists out_path gr, serialize out_path gr = Raise e)))
             (fun title e =>
                In title titles /\
                (build title = Raise e \/
                 exists g, build title = Return g /\
                   ((chunk_size = 0%Z /\ e = ZeroDivisionError) \/
                    exists out_path gr, serialize out_path gr = Raise e)))).
    + intros title e Hin Hb. split; [exact Hin|now left].
    + intros title g Hin Hb Hz. split; [exact Hin|right].
      exists g. split; [exact Hb|now left].
    + intros title g e out_path gr Hin Hb Hs. split; [exact Hin|right].
      exists g. split; [exact Hb|right]. now exists out_path, gr.
    + intros title e d Hw Hd t' e' H'. rewrite warn_warnings in H'.
      apply in_app_or in H' as [H'|[[= <- <-]|[]]]; [now apply Hd|exact Hw].
    + intros title g d _ _ Hd t' e' H'. rewrite merge_page_warnings in H'.
      now apply Hd.
    + intros d _ _ Hd t' e' H'. rewrite write_part_warnings in H'.
      now apply Hd.
    + intros t' e' [].
  - intros Hok.
    assert (H : forall l d,
              warnings (stdout (run l d)) =
              warnings (stdout d) ++
              flat_map (fun title => match build title with
                                     | Raise e => [(title, e)]
                                     | Return _ =>
                                         if (chunk_size =? 0)%Z
                                         then [(title, ZeroDivisionError)]
                                         else []
                                     end) l).
    { induction l as [|x rest IH]; intros d; rewrite Hrun.
      - cbn [flat_map]. now rewrite app_nil_r.
      - rewrite IH. destruct (process_warnings x d) as (ws & -> & _ & Hws).
        rewrite (Hws Hok). cbn [flat_map]. now rewrite <- app_assoc. }
    rewrite H. reflexivity.
Qed.
End Driver.

(* ================================================================== *)
(** * The further properties on the example configuration *)
(* ================================================================== *)

Lemma safe_iri_shape_witness :
  exists parts rest,
    urlsplit_ref (strip (py " http://example.com/a b?q=1 2#x y ")) =
      Return parts /\
    py "http://example.com/a%20b?q=1%202#x%20y" =
      scheme parts ++ py "://" ++ netloc parts ++ rest /\
    forallb iri_char rest = true.
Proof.
  apply (safe_iri_shape urlsplit_ref (py " http://example.com/a b?q=1 2#x y ")).
  vm_compute. reflexivity.
Defined.

Lemma safe_iri_idempotent_witness :
  safe_iri urlsplit_ref (py "http://example.com/a%20b?q=1%202#x%20y") =
  Return (Some (py "http://example.com/a%20b?q=1%202#x%20y")).
Proof.
  apply (safe_iri_idempotent urlsplit_ref
           (py " http://example.com/a b?q=1 2#x y ")
           (py "http://example.com/a%20b?q=1%202#x%20y")
           {| scheme := py "http"; netloc := py "example.com";
              path := py "/a b"; query := py "q=1 2";
              fragment := py "x y" |}).
  - vm_compute. reflexivity.
  - vm_compute. reflexivity.
  - vm_compute. reflexivity.
Defined.


Lemma mapped_by_normalized_name_witness :
  In character_box
    (find_mapped_templates templates_of
       (py "{{Infobox character|race=[[Elves]]}}")
       (load_infobox_mappings mapping_file)).
Proof.
  apply (proj2 (mapped_by_normalized_name templates_of mapping_file
                  (py "{{Infobox character|race=[[Elves]]}}")
                  character_box)).
  split.
  - vm_compute. left. reflexivity.
  - exists (py "Infobox_Character"),
      {| spec_class := None; spec_tg_class := None; spec_fields := None |}.
    split; [left; reflexivity|vm_compute; reflexivity].
Defined.

Lemma load_infobox_mappings_last_wins_witness :
  dict_get (load_infobox_mappings mapping_file)
    (normalize_template_name (py " infobox character ")) =
  Some character_spec.
Proof.
  apply (load_infobox_mappings_last_wins
           [(py "Infobox_Character",
             {| spec_class := None; spec_tg_class := None;
                spec_fields := None |})]
           [] (py " infobox character ") character_spec).
  intros k' spec' [].
Defined.

Lemma build_fails_iff_witness :
  build_graph_for_title KG0 WIKI0 urlsplit_ref templates_of elrond_cache
    (py "Elrond") broken_mappings true = Raise (KeyError (py "property")).
Proof.
  apply (proj2 (build_fails_iff KG0 WIKI0 urlsplit_ref templates_of
                  elrond_cache (py "Elrond") broken_mappings true
                  (KeyError (py "property")))).
  right. split; [reflexivity|]. split; [reflexivity|].
  exists elrond_page, character_box. split; [reflexivity|].
  split; [vm_compute; left; reflexivity|].
  eexists _, _, (py "race", py "[[Elves]]").
  split; [vm_compute; reflexivity|].
  split; [reflexivity|]. split; [left; reflexivity|].
  eexists. split; [vm_compute; reflexivity|].
  split; vm_compute; reflexivity.
Defined.

Lemma build_type_statements_witness :
  In (elrond, RDF_type, URIRef (py "http://kg.example/vocab/Character"))
    (match build_graph_for_title KG0 WIKI0 urlsplit_ref templates_of
             elrond_cache (py "Elrond") character_mappings true with
     | Return g => g
     | Raise _ => []
     end).
Proof.
  apply (build_type_statements KG0 WIKI0 urlsplit_ref templates_of
           elrond_cache (py "Elrond") character_mappings elrond_page
           character_box character_spec
           (py "http://kg.example/vocab/Character")).
  - reflexivity.
  - vm_compute. reflexivity.
  - vm_compute. left. reflexivity.
  - vm_compute. reflexivity.
  - right. reflexivity.
  - reflexivity.
Defined.

Lemma build_related_statements_witness :
  In (elrond, SCHEMA "relatedTo", resource_uri KG0 (py "Rivendell"))
    (match build_graph_for_title KG0 WIKI0 urlsplit_ref templates_of
             elrond_cache (py "Elrond") character_mappings true with
     | Return g => g
     | Raise _ => []
     end).
Proof.
  refine (proj1 (build_related_statements KG0 WIKI0 urlsplit_ref
                   templates_of elrond_cache (py "Elrond")
                   character_mappings true elrond_page _ _ _)
            (py "Rivendell") _ _).
  - reflexivity.
  - vm_compute. reflexivity.
  - left. reflexivity.
  - vm_compute. reflexivity.
Defined.

Lemma build_statements_about_page_witness :
  (elrond = page_uri KG0 (py "Elrond") \/
   elrond = resource_uri KG0 (py "Elrond")) /\
  exists iri, URIRef (py "http://kg.example/prop/race") = URIRef iri.
Proof.
  apply (build_statements_about_page KG0 WIKI0 urlsplit_ref templates_of
           elrond_cache (py "Elrond") character_mappings true
           (match build_graph_for_title KG0 WIKI0 urlsplit_ref templates_of
                    elrond_cache (py "Elrond") character_mappings true with
            | Return g => g
            | Raise _ => []
            end)
           elrond (URIRef (py "http://kg.example/prop/race"))
           (resource_uri KG0 (py "Elves"))).
  - vm_compute. reflexivity.
  - vm_compute. repeat (first [left; reflexivity|right]).
Defined.
(** A statement that cannot be serialized: the page is built and
    counted, the failure of [flush] is printed as a warning for the
    title at hand, the chunk stays, the next title fails in the same
    way, and the last [flush], outside the [try] block, raises: nothing
    is returned and no file is written. *)
Example serializer_failure :
  let run := build_kg_chunked KG0 WIKI0 (py "data/ttl") urlsplit_ref
               url_templates url_cache (Return tt) serializer_strict
               (py "kg") character_mappings true 1 None
               [py "Bad"; py "Good"] in
  In (resource_uri KG0 (py "Bad"), URIRef WEB_ADDRESS,
      URIRef (py "http://example.com}}"))
     (chunk (snd run)) /\
  fst run = Raise (ValueError (py "does not look like a valid URI")) /\
  processed (snd run) = 2 /\
  written (snd run) = [] /\
  warnings (stdout (snd run)) =
    [(py "Bad", ValueError (py "does not look like a valid URI"));
     (py "Good", ValueError (py "does not look like a valid URI"))].
Proof.
  vm_compute. repeat split. do 7 right. left. reflexivity.
Qed.

Lemma driver_respects_limit_witness :
  (Z.of_nat
     (processed
        (snd (build_kg_chunked KG0 WIKI0 (py "data/ttl") urlsplit_ref
                templates_of elrond_cache (Return tt) serializer_ok
                (py "kg") character_mappings true 500 (Some (-1)%Z)
                [py "Elrond"; py "Elrond"]))) <= Z.max 0 (-1))%Z /\
  processed
    (snd (build_kg_chunked KG0 WIKI0 (py "data/ttl") urlsplit_ref
            templates_of elrond_cache (Return tt) serializer_ok
            (py "kg") character_mappings true 500 (Some (-1)%Z)
            [py "Elrond"; py "Elrond"])) <= 2.
Proof.
  apply (driver_respects_limit KG0 WIKI0 (py "data/ttl") urlsplit_ref
           templates_of elrond_cache (Return tt) serializer_ok (py "kg")
           character_mappings true 500 (Some (-1)%Z)
           [py "Elrond"; py "Elrond"] (-1)%Z).
  reflexivity.
Defined.

Lemma driver_files_hold_the_pages_witness :
  in_files
    (snd (build_kg_chunked KG0 WIKI0 (py "data/ttl") urlsplit_ref
            templates_of partial_cache (Return tt) serializer_ok (py "kg")
            character_mappings true 0 None [py "Gondor"; py "Elrond"]))
    (elrond, RDFS_label, Literal (py "Elrond") (Some (py "en"))).
Proof.
  refine (proj2 (driver_files_hold_the_pages KG0 WIKI0 (py "data/ttl")
                   urlsplit_ref templates_of partial_cache (Return tt)
                   serializer_ok (py "kg") character_mappings true 0 None
                   [py "Gondor"; py "Elrond"] _)
            [py "data/ttl/kg_part0001.ttl"] _ I (py "Elrond")
            (match build_graph_for_title KG0 WIKI0 urlsplit_ref templates_of
                     partial_cache (py "Elrond") character_mappings true with
             | Return g => g
             | Raise _ => []
             end) _ _ _).
  - vm_compute. reflexivity.
  - right. left. reflexivity.
  - vm_compute. reflexivity.
  - vm_compute. repeat (first [left; reflexivity|right]).
Defined.

Lemma driver_files_witness :
  NoDup
    (produced
       (snd (build_kg_chunked KG0 WIKI0 (py "data/ttl") urlsplit_ref
               templates_of elrond_cache (Return tt) serializer_ok (py "kg")
               character_mappings true 1 None
               [py "Elrond"; py "Elrond"]))).
Proof.
  exact (proj1 (proj2 (proj2
           (driver_files KG0 WIKI0 (py "data/ttl") urlsplit_ref templates_of
              elrond_cache (Return tt) serializer_ok (py "kg")
              character_mappings true 1 None
              [py "Elrond"; py "Elrond"])))).
Defined.

Lemma driver_counts_witness :
  processed
    (snd (build_kg_chunked KG0 WIKI0 (py "data/ttl") urlsplit_ref
            templates_of partial_cache (Return tt) serializer_ok (py "kg")
            character_mappings true 500 None
            [py "Gondor"; py "Elrond"])) = 1 /\
  warnings
    (stdout
       (snd (build_kg_chunked KG0 WIKI0 (py "data/ttl") urlsplit_ref
               templates_of partial_cache (Return tt) serializer_ok (py "kg")
               character_mappings true 500 None
               [py "Gondor"; py "Elrond"]))) =
  [(py "Gondor", FileNotFoundError (py "Gondor"))].
Proof.
  destruct (driver_counts KG0 WIKI0 (py "data/ttl") urlsplit_ref templates_of
              partial_cache (Return tt) serializer_ok (py "kg")
              character_mappings true 500 None
              [py "Gondor"; py "Elrond"] eq_refl eq_refl)
    as (H1 & _ & _ & H4).
  split; [exact H1|]. exact (H4 (fun _ _ => eq_refl)).
Defined.
